(** * cc-wf-studio: the AI-assisted refinement pipeline

    A shallow embedding of the refinement core of Claude Code Workflow
    Studio and the properties its design document states about it:

    - the workflow diff engine ([computeWorkflowDiff]),
    - the Claude Code CLI runner and its live-process registry
      ([executeClaudeCodeCLI], [cancelGeneration], [cancelRefinement]),
    - the output classifier ([isClarificationMessage]) and parser
      ([parseClaudeCodeOutput]),
    - the skill reference resolver ([resolveSkillPaths]),
    - the two orchestrators ([refineWorkflow], [refineSubAgentFlow]) and
      the prompts they send ([constructRefinementPrompt],
      [constructSubAgentFlowRefinementPrompt]),
    - the detection of the Claude CLI ([getClaudeCliPath],
      [getClaudeSpawnCommand]).

    Conventions.  A JavaScript string is a Rocq [string] holding its UTF-8
    bytes; every literal of the sources is ASCII except the arrow of the
    edge keys, which is its three UTF-8 bytes.  A JavaScript number that
    the code counts with is a [nat] or a [Z].  An optional field
    ([x?: T], [T | undefined], [T | null]) is an [option].  Structured
    payloads of [log] calls are not modelled; the log messages are, where
    a function is compared with another one. *)

From Stdlib Require Import ZArith List Bool Ascii String DecimalString.
From stdpp Require Import base strings list gmap.
Import ListNotations.

#[local] Set Warnings "-register-all".
#[local] Open Scope string_scope.

(** ** JavaScript values used by the sources *)

(** A JSON value. Numbers are the integers (the sources never compute with
    fractions); an object is the list of its own properties in enumeration
    order, each key once. *)
Inductive json :=
| JNull
| JBool (b : bool)
| JNum (n : Z)
| JStr (s : string)
| JArr (items : list json)
| JObj (props : list (string * json)).

(** A JavaScript object literal: own properties in insertion order. *)
Definition object := list (string * json).

(** [`${n}`] for an integer. *)
Definition string_of_Z (z : Z) : string := NilEmpty.string_of_int (Z.to_int z).

(** [Array.prototype.join]. *)
Fixpoint join (sep : string) (l : list string) : string :=
  match l with
  | [] => ""
  | [x] => x
  | x :: rest => x +:+ sep +:+ join sep rest
  end.

Definition hex_digit (n : N) : ascii :=
  match String.get (N.to_nat n) "0123456789abcdef" with
  | Some c => c
  | None => "0"%char
  end.

Definition dquote : ascii := "034"%char.
Definition backslash : ascii := "092"%char.

(** How [JSON.stringify] writes one character of a string. *)
Definition escape_char (c : ascii) : string :=
  let n := N_of_ascii c in
  if (n =? 34)%N then String backslash (String dquote "")
  else if (n =? 92)%N then String backslash (String backslash "")
  else if (n =? 8)%N then String backslash "b"
  else if (n =? 9)%N then String backslash "t"
  else if (n =? 10)%N then String backslash "n"
  else if (n =? 12)%N then String backslash "f"
  else if (n =? 13)%N then String backslash "r"
  else if (n <? 32)%N then
    String backslash ("u00" +:+ String (hex_digit (n / 16)) (String (hex_digit (n mod 16)) ""))
  else String c "".

Fixpoint escape (s : string) : string :=
  match s with
  | EmptyString => ""
  | String c rest => escape_char c +:+ escape rest
  end.

Definition quote (s : string) : string :=
  String dquote (escape s) +:+ String dquote "".

(** [JSON.stringify(v)] without indentation. A number is written by its
    decimal digits, as JavaScript does for the integers it holds exactly
    and writes without an exponent (absolute value below 2^53); fractions
    and larger numbers are outside the model. *)
Fixpoint JSON_stringify (v : json) : string :=
  match v with
  | JNull => "null"
  | JBool true => "true"
  | JBool false => "false"
  | JNum n => string_of_Z n
  | JStr s => quote s
  | JArr items => "[" +:+ join "," (map JSON_stringify items) +:+ "]"
  | JObj props =>
      "{" +:+ join "," (map (fun '(k, v) => quote k +:+ ":" +:+ JSON_stringify v) props) +:+ "}"
  end.

(** Property read [o.k]: [None] is [undefined]. *)
Fixpoint prop (k : string) (o : object) : option json :=
  match o with
  | [] => None
  | (k', v) :: rest => if String.eqb k' k then Some v else prop k rest
  end.

(** Property write in an object literal, [{...o, k: v}]: an existing key
    keeps its place and takes the new value, a new key goes last. *)
Fixpoint with_prop (k : string) (v : json) (o : object) : object :=
  match o with
  | [] => [(k, v)]
  | (k', v') :: rest =>
      if String.eqb k' k then (k', v) :: rest else (k', v') :: with_prop k v rest
  end.

(** ** [Map<string, V>] and [Set<string>]: insertion-ordered containers *)

Module JsMap.
Section Defs.
Context {V : Type}.

Definition t := list (string * V).

Definition empty : t := [].

  (** [m.set(k, v)]: an existing key keeps its position in iteration
      order; a new key is appended. *)
Fixpoint set (k : string) (v : V) (m : t) : t :=
    match m with
    | [] => [(k, v)]
    | (k', v') :: rest =>
        if String.eqb k' k then (k', v) :: rest else (k', v') :: set k v rest
    end.

  (** [m.get(k)]. *)
Fixpoint get (k : string) (m : t) : option V :=
    match m with
    | [] => None
    | (k', v) :: rest => if String.eqb k' k then Some v else get k rest
    end.

  (** [m.has(k)]. *)
Definition has (k : string) (m : t) : bool :=
    match get k m with Some _ => true | None => false end.

Definition keys (m : t) : list string := map fst m.
End Defs.
Arguments t : clear implicits.
End JsMap.

Module JsSet.
Definition t := list string.

Definition has (k : string) (s : t) : bool := existsb (String.eqb k) s.

  (** [s.add(k)]. *)
Definition add (k : string) (s : t) : t := if has k s then s else (s ++ [k])%list.

  (** [new Set(array)]. *)
Definition of_list (l : list string) : t := fold_left (fun s k => add k s) l [].
End JsSet.

(** ** Data model of the diff engine *)

(** A canvas node (reactflow [Node]). *)
Module Node.
Record t := mk {
    id : string;
    type : option string;
    position : Z * Z;
    data : object;
  }.
End Node.

(** A canvas edge (reactflow [Edge]). *)
Module Edge.
Record t := mk {
    source : string;
    sourceHandle : option string;
    target : string;
    targetHandle : option string;
  }.
End Edge.

(** A node of a [Workflow]. *)
Module WorkflowNode.
Record t := mk {
    id : string;
    type : string;
    position : Z * Z;
    data : object;
  }.
End WorkflowNode.

(** A connection of a [Workflow]. *)
Module Connection.
Record t := mk {
    from : string;
    to : string;
    fromPort : string;
    toPort : string;
  }.
End Connection.

Module Workflow.
Record t := mk {
    id : string;
    name : string;
    nodes : list WorkflowNode.t;
    connections : list Connection.t;
  }.
End Workflow.

Record NameChange := { nc_from : string; nc_to : string }.

(** An entry of [addedNodes], [removedNodes] or [modifiedNodes]. *)
Module NodeChange.
Record t := mk {
    id : string;
    name : string;
    type : string;
  }.
End NodeChange.

Record WorkflowDiffSummary := {
  nameChange : option NameChange;
  addedNodes : list NodeChange.t;
  removedNodes : list NodeChange.t;
  modifiedNodes : list NodeChange.t;
  addedConnections : nat;
  removedConnections : nat;
  totalChanges : nat;
  isNewWorkflow : bool;
}.

(** ** The diff engine *)

(** [x || fallback] on a string that may be absent: the empty string is
    falsy. *)
Definition or_else (x : option string) (fallback : string) : string :=
  match x with
  | Some s => if String.eqb s "" then fallback else s
  | None => fallback
  end.

(** [data?.description], which the sources type as [string | undefined]. *)
Definition description (d : object) : option string :=
  match prop "description" d with
  | Some (JStr s) => Some s
  | _ => None
  end.

Definition getNodeName (node : Node.t) : string :=
  or_else (description (Node.data node)) (Node.id node).

(** [x ?? ''] *)
Definition nullish (x : option string) : string :=
  match x with Some s => s | None => "" end.

Definition makeEdgeKey (edge : Edge.t) : string :=
  Edge.source edge +:+ ":" +:+ nullish (Edge.sourceHandle edge) +:+ "→"
  +:+ Edge.target edge +:+ ":" +:+ nullish (Edge.targetHandle edge).

Definition makeWorkflowEdgeKey (conn : Connection.t) : string :=
  Connection.from conn +:+ ":" +:+ Connection.fromPort conn +:+ "→"
  +:+ Connection.to conn +:+ ":" +:+ Connection.toPort conn.

(** The value type of [incomingNodeMap]. *)
Module Incoming.
Record t := mk {
    id : string;
    type : string;
    name : string;
    data : string;
  }.
End Incoming.

(** [n.type === s] *)
Definition type_is (n : Node.t) (s : string) : bool :=
  match Node.type n with
  | Some t => String.eqb t s
  | None => false
  end.

Definition currentNodeMap (currentNodes : list Node.t) : JsMap.t Node.t :=
  fold_left (fun m node => JsMap.set (Node.id node) node m) currentNodes JsMap.empty.

Definition incomingNodeMap (incomingWorkflow : Workflow.t) : JsMap.t Incoming.t :=
  fold_left
    (fun m node =>
       JsMap.set (WorkflowNode.id node)
         {| Incoming.id := WorkflowNode.id node;
            Incoming.type := WorkflowNode.type node;
            Incoming.name :=
              or_else (description (WorkflowNode.data node)) (WorkflowNode.id node);
            Incoming.data := JSON_stringify (JObj (WorkflowNode.data node)) |} m)
    (Workflow.nodes incomingWorkflow) JsMap.empty.

(** The test of the third loop: the node is on the canvas and its
    serialised data differs. *)
Definition data_changed (cur : JsMap.t Node.t) (entry : string * Incoming.t) : bool :=
  match JsMap.get (fst entry) cur with
  | Some currentNode =>
      negb (String.eqb (JSON_stringify (JObj (Node.data currentNode)))
                       (Incoming.data (snd entry)))
  | None => false
  end.

Definition computeWorkflowDiff
    (currentNodes : list Node.t) (currentEdges : list Edge.t)
    (currentName : string) (incomingWorkflow : Workflow.t) : WorkflowDiffSummary :=
  let isNewWorkflow :=
    (length currentNodes <=? 2)%nat
    && forallb (fun n => type_is n "start" || type_is n "end") currentNodes
    && (length currentEdges =? 0)%nat in
  let nameChange :=
    if negb (String.eqb currentName (Workflow.name incomingWorkflow))
    then Some {| nc_from := currentName; nc_to := Workflow.name incomingWorkflow |}
    else None in
  let cur := currentNodeMap currentNodes in
  let inc := incomingNodeMap incomingWorkflow in
  let addedNodes :=
    map (fun '(id, node) =>
           NodeChange.mk id (Incoming.name node) (Incoming.type node))
        (List.filter (fun entry => negb (JsMap.has (fst entry) cur)) inc) in
  let removedNodes :=
    map (fun '(id, node) =>
           NodeChange.mk id (getNodeName node) (or_else (Node.type node) "unknown"))
        (List.filter (fun entry => negb (JsMap.has (fst entry) inc)) cur) in
  let modifiedNodes :=
    map (fun '(id, incomingNode) =>
           NodeChange.mk id (Incoming.name incomingNode) (Incoming.type incomingNode))
        (List.filter (data_changed cur) inc) in
  let currentEdgeKeys := JsSet.of_list (map makeEdgeKey currentEdges) in
  let incomingEdgeKeys :=
    JsSet.of_list (map makeWorkflowEdgeKey (Workflow.connections incomingWorkflow)) in
  let addedConnections :=
    length (List.filter (fun key => negb (JsSet.has key currentEdgeKeys)) incomingEdgeKeys) in
  let removedConnections :=
    length (List.filter (fun key => negb (JsSet.has key incomingEdgeKeys)) currentEdgeKeys) in
  let totalChanges :=
    ((match nameChange with Some _ => 1 | None => 0 end)
     + length addedNodes + length removedNodes + length modifiedNodes
     + addedConnections + removedConnections)%nat in
  {| nameChange := nameChange;
     addedNodes := addedNodes;
     removedNodes := removedNodes;
     modifiedNodes := modifiedNodes;
     addedConnections := addedConnections;
     removedConnections := removedConnections;
     totalChanges := totalChanges;
     isNewWorkflow := isNewWorkflow |}.

(** ** Text: white space, trimming, and the regular expressions of the sources *)

Definition bytes (l : list N) : string :=
  fold_right (fun n s => String (ascii_of_N n) s) "" l.

(** The characters [\s] and [String.prototype.trim] treat as white space
    (WhiteSpace and LineTerminator of ECMAScript), in UTF-8: TAB, LF, VT,
    FF, CR, SP, U+00A0, U+1680, U+2000 to U+200A, U+2028, U+2029, U+202F,
    U+205F, U+3000 and U+FEFF. *)
Definition whitespace : list string :=
  map bytes
    [ [9]; [10]; [11]; [12]; [13]; [32];
      [194; 160];
      [225; 154; 128];
      [226; 128; 128]; [226; 128; 129]; [226; 128; 130]; [226; 128; 131];
      [226; 128; 132]; [226; 128; 133]; [226; 128; 134]; [226; 128; 135];
      [226; 128; 136]; [226; 128; 137]; [226; 128; 138];
      [226; 128; 168]; [226; 128; 169]; [226; 128; 175];
      [226; 129; 159];
      [227; 128; 128];
      [239; 187; 191] ]%N.

(** [s] without the prefix [p], when it starts with it. *)
Fixpoint strip_prefix (p s : string) : option string :=
  match p, s with
  | EmptyString, _ => Some s
  | String a p', String b s' => if Ascii.eqb a b then strip_prefix p' s' else None
  | String _ _, EmptyString => None
  end.

(** [s] without one of the [table]'s strings in front. *)
Fixpoint strip_any (table : list string) (s : string) : option string :=
  match table with
  | [] => None
  | p :: rest =>
      match strip_prefix p s with
      | Some s' => Some s'
      | None => strip_any rest s
      end
  end.

(** One white-space character off the front. *)
Definition strip_ws (s : string) : option string := strip_any whitespace s.

Fixpoint trimStart_fuel (fuel : nat) (s : string) : string :=
  match fuel with
  | O => s
  | S fuel' =>
      match strip_ws s with
      | Some s' => trimStart_fuel fuel' s'
      | None => s
      end
  end.

(** [s.trimStart()]: each round removes at least one byte. *)
Definition trimStart (s : string) : string := trimStart_fuel (String.length s) s.

Definition string_rev (s : string) : string :=
  string_of_list_ascii (rev (list_ascii_of_string s)).

Fixpoint trimEnd_fuel (fuel : nat) (r : string) : string :=
  match fuel with
  | O => r
  | S fuel' =>
      match strip_any (map string_rev whitespace) r with
      | Some r' => trimEnd_fuel fuel' r'
      | None => r
      end
  end.

(** [s.trimEnd()], computed on the reversed string. *)
Definition trimEnd (s : string) : string :=
  string_rev (trimEnd_fuel (String.length s) (string_rev s)).

(** [s.trim()]. *)
Definition trim (s : string) : string := trimEnd (trimStart s).

(** The first occurrence of [needle] in [s]: what follows it. *)
Fixpoint after_first (needle s : string) : option string :=
  match strip_prefix needle s with
  | Some rest => Some rest
  | None =>
      match s with
      | EmptyString => None
      | String _ s' => after_first needle s'
      end
  end.

(** The first occurrence of [needle] in [s]: what precedes it and what
    follows it. *)
Fixpoint split_first (needle s : string) : option (string * string) :=
  match strip_prefix needle s with
  | Some rest => Some ("", rest)
  | None =>
      match s with
      | EmptyString => None
      | String c s' =>
          match split_first needle s' with
          | Some (before, rest) => Some (String c before, rest)
          | None => None
          end
      end
  end.

Definition fence_open : string := "```json".
Definition fence_close : string := "```".

(** A match of [/```json[\s\S]*?```/] at the head of [s]: what follows the
    match. The lazy star stops at the first closing fence. *)
Definition fenced_block (s : string) : option string :=
  match strip_prefix fence_open s with
  | Some body => after_first fence_close body
  | None => None
  end.

Fixpoint strip_fenced_fuel (fuel : nat) (s : string) : string :=
  match fuel with
  | O => s
  | S fuel' =>
      match fenced_block s with
      | Some rest => strip_fenced_fuel fuel' rest
      | None =>
          match s with
          | EmptyString => ""
          | String c s' => String c (strip_fenced_fuel fuel' s')
          end
      end
  end.

(** [s.replace(/```json[\s\S]*?```/g, '')]: scan from the left; a match is
    dropped and the scan goes on behind it, otherwise one character is
    kept. Every round consumes at least one byte. *)
Definition strip_fenced (s : string) : string :=
  strip_fenced_fuel (S (String.length s)) s.

(** The regular expressions of [clarificationPatterns], all with the [i]
    flag. *)
Inductive regex :=
| Lit (text : string)
| Spaces
| Cat (r1 r2 : regex)
| Alt (r1 r2 : regex)
| Opt (r : regex).

(** Canonicalisation of the [i] flag on the characters of the patterns:
    without the [u] flag an ASCII letter only matches its two cases. *)
Definition fold_case (c : ascii) : ascii :=
  let n := N_of_ascii c in
  if ((65 <=? n) && (n <=? 90))%N then ascii_of_N (n + 32) else c.

Fixpoint strip_prefix_ci (p s : string) : option string :=
  match p, s with
  | EmptyString, _ => Some s
  | String a p', String b s' =>
      if Ascii.eqb (fold_case a) (fold_case b) then strip_prefix_ci p' s' else None
  | String _ _, EmptyString => None
  end.

(** What is left after one, two, ... white-space characters: [\s+]. *)
Fixpoint spaces_fuel (fuel : nat) (s : string) : list string :=
  match fuel with
  | O => []
  | S fuel' =>
      match strip_ws s with
      | Some s' => s' :: spaces_fuel fuel' s'
      | None => []
      end
  end.

(** Every way [r] matches at the head of [s]: what each leaves. *)
Fixpoint residues (r : regex) (s : string) : list string :=
  match r with
  | Lit text =>
      match strip_prefix_ci text s with
      | Some rest => [rest]
      | None => []
      end
  | Spaces => spaces_fuel (String.length s) s
  | Cat r1 r2 => flat_map (residues r2) (residues r1 s)
  | Alt r1 r2 => (residues r1 s ++ residues r2 s)%list
  | Opt r1 => (residues r1 s ++ [s])%list
  end.

Definition matches_here (r : regex) (s : string) : bool :=
  match residues r s with
  | [] => false
  | _ :: _ => true
  end.

(** [r.test(s)]: a match that starts anywhere. *)
Fixpoint test (r : regex) (s : string) : bool :=
  matches_here r s
  || match s with
     | EmptyString => false
     | String _ s' => test r s'
     end.

(** ** Output classifier and parser *)

Definition clarificationPatterns : list regex :=
  [ Lit "I need to understand";
    Cat (Lit "could you ")
        (Cat (Opt (Cat (Lit "please") Spaces))
             (Alt (Lit "clarify") (Alt (Lit "specify") (Lit "tell me more"))));
    Lit "ambiguous";
    Lit "unclear";
    Lit "could mean";
    Cat (Lit "which ")
        (Alt (Lit "one") (Alt (Lit "approach") (Alt (Lit "option") (Lit "method"))));
    Lit "would you like me to";
    Cat (Lit "please ") (Alt (Lit "clarify") (Lit "specify"));
    Cat (Lit "not sure ") (Alt (Lit "what") (Alt (Lit "which") (Lit "how")));
    Cat (Lit "can you provide more ") (Alt (Lit "details") (Lit "information")) ].

Definition isClarificationMessage (output : string) : bool :=
  let textWithoutCodeBlocks := strip_fenced output in
  existsb (fun pattern => test pattern textWithoutCodeBlocks) clarificationPatterns.

(** Whether [trimEnd s] ends with a closing brace. *)
Definition ends_with_brace (s : string) : bool :=
  match string_rev (trimEnd s) with
  | String c _ => Ascii.eqb c "}"
  | EmptyString => false
  end.

(** A match of [/\n\s*\{[\s\S]*\}\s*$/] at the head of [s]. *)
Definition json_tail_here (s : string) : bool :=
  match s with
  | String c rest =>
      Ascii.eqb c "010"
      && match trimStart rest with
         | String b body => Ascii.eqb b "{" && ends_with_brace body
         | EmptyString => false
         end
  | EmptyString => false
  end.

(** [s.replace(/\n\s*\{[\s\S]*\}\s*$/g, '')]: the leftmost match runs to
    the end of the string. *)
Fixpoint drop_json_tail (s : string) : string :=
  if json_tail_here s then ""
  else match s with
       | EmptyString => ""
       | String c s' => String c (drop_json_tail s')
       end.

Definition extractClarificationMessage (output : string) : string :=
  let cleanedOutput := strip_fenced output in
  let cleanedOutput := drop_json_tail cleanedOutput in
  trim cleanedOutput.

(** The capture of [output.match(/```json\s*([\s\S]*?)\s*```/)], up to the
    white space at its ends, which the caller trims: the text between the
    first opening fence and the first closing fence behind it. *)
Definition fenced_json (output : string) : option string :=
  match after_first fence_open output with
  | Some body =>
      match split_first fence_close body with
      | Some (inside, _) => Some inside
      | None => None
      end
  | None => None
  end.

(** The text [parseClaudeCodeOutput] hands to [JSON.parse]. *)
Definition jsonString (output : string) : string :=
  trim (match fenced_json output with
        | Some inside => inside
        | None => output
        end).

(** ** Process runner: results, registry and effects *)

Inductive ErrorCode :=
| COMMAND_NOT_FOUND
| TIMEOUT
| PARSE_ERROR
| VALIDATION_ERROR
| PROHIBITED_NODE_TYPE
| UNKNOWN_ERROR.

Module ErrorInfo.
Record t := mk {
  code : ErrorCode;
  message : string;
  details : option string;
}.
End ErrorInfo.

Module ClaudeCodeExecutionResult.
Record t := mk {
  success : bool;
  output : option string;
  error : option ErrorInfo.t;
  executionTimeMs : Z;
}.
End ClaudeCodeExecutionResult.

Inductive Signal := SIGTERM | SIGKILL.

(** A spawned subprocess, known by its process id. *)
Record ChildProcess := { pid : N }.

(** A value of the [activeProcesses] map. *)
Module ActiveProcess.
Record t := mk {
  process : ChildProcess;
  startTime : Z;
}.
End ActiveProcess.

(** The module-level [activeProcesses] map: requestId to process and start
    time. *)
Abbreviation Registry := (gmap string ActiveProcess.t).

Inductive LogLevel := INFO | WARN | ERROR.

(** The closure [cancelGeneration] and [cancelRefinement] hand to
    [setTimeout]: kill with SIGKILL unless [childProcess.killed], then log
    [message]. *)
Inductive Callback :=
| ForceKill (childProcess : ChildProcess) (message : string).

Inductive Effect :=
| Log (level : LogLevel) (message : string)
| Kill (childProcess : ChildProcess) (signal : Signal)
| SetTimeout (callback : Callback) (ms : Z).

(** What a scheduled callback does when its timer fires; [killed] is the
    [killed] flag of the process object at that time. *)
Definition runCallback (killed : bool) (cb : Callback) : list Effect :=
  match cb with
  | ForceKill childProcess message =>
      if negb killed then [Kill childProcess SIGKILL; Log WARN message] else []
  end.

Module CancelResult.
Record t := mk {
  cancelled : bool;
  executionTimeMs : option Z;
}.
End CancelResult.

(** [now] is the value of [Date.now()] during the call. *)
Definition cancelGeneration (now : Z) (requestId : string) (activeProcesses : Registry)
  : CancelResult.t * Registry * list Effect :=
  match activeProcesses !! requestId with
  | None =>
      (CancelResult.mk false None, activeProcesses,
       [Log WARN ("No active generation found for requestId: " +:+ requestId)])
  | Some activeGen =>
      let childProcess := ActiveProcess.process activeGen in
      let executionTimeMs := (now - ActiveProcess.startTime activeGen)%Z in
      (CancelResult.mk true (Some executionTimeMs),
       delete requestId activeProcesses,
       [Log INFO ("Cancelling generation for requestId: " +:+ requestId);
        Kill childProcess SIGTERM;
        SetTimeout
          (ForceKill childProcess ("Forcefully killed process for requestId: " +:+ requestId))
          500])
  end.

Definition cancelRefinement (now : Z) (requestId : string) (activeProcesses : Registry)
  : CancelResult.t * Registry * list Effect :=
  match activeProcesses !! requestId with
  | None =>
      (CancelResult.mk false None, activeProcesses,
       [Log WARN ("No active refinement found for requestId: " +:+ requestId)])
  | Some activeGen =>
      let childProcess := ActiveProcess.process activeGen in
      let executionTimeMs := (now - ActiveProcess.startTime activeGen)%Z in
      (CancelResult.mk true (Some executionTimeMs),
       delete requestId activeProcesses,
       [Log INFO ("Cancelling refinement for requestId: " +:+ requestId);
        Kill childProcess SIGTERM;
        SetTimeout
          (ForceKill childProcess
             ("Forcefully killed refinement process for requestId: " +:+ requestId))
          500])
  end.

(** What a caller can observe of an effect besides the log: signals and
    timers, a timer's callback up to its log message. *)
Definition observable (e : Effect) : option (ChildProcess * Signal + ChildProcess * Z) :=
  match e with
  | Log _ _ => None
  | Kill childProcess signal => Some (inl (childProcess, signal))
  | SetTimeout (ForceKill childProcess _) ms => Some (inr (childProcess, ms))
  end.

Definition signals_and_timers (effects : list Effect)
  : list (ChildProcess * Signal + ChildProcess * Z) :=
  omap observable effects.

(** ** Process runner: one call of [executeClaudeCodeCLI] *)

(** The constants of one call: its arguments, [startTime] and the spawned
    process. *)
Module Call.
Record t := mk {
  timeoutMs : Z;
  requestId : option string;
  startTime : Z;
  childProcess : ChildProcess;
}.
End Call.

(** The variables the handlers of one call share, and the registry. *)
Module State.
Record t := mk {
  stdout : string;
  stderr : string;
  timedOut : bool;
  (** the timeout is armed: it has neither fired nor been cleared *)
  timerPending : bool;
  (** the arguments of the calls of [resolve], oldest first *)
  resolved : list ClaudeCodeExecutionResult.t;
  (** the signals the handlers sent to [childProcess], oldest first *)
  sent : list Signal;
  activeProcesses : Registry;
}.
End State.

(** [if (requestId)]: given, and not the empty string. *)
Definition given (requestId : option string) : option string :=
  match requestId with
  | Some id => if String.eqb id "" then None else Some id
  | None => None
  end.

Definition register (c : Call.t) (activeProcesses : Registry) : Registry :=
  match given (Call.requestId c) with
  | Some id => <[id := ActiveProcess.mk (Call.childProcess c) (Call.startTime c)]> activeProcesses
  | None => activeProcesses
  end.

Definition unregister (c : Call.t) (activeProcesses : Registry) : Registry :=
  match given (Call.requestId c) with
  | Some id => delete id activeProcesses
  | None => activeProcesses
  end.

(** The state when the promise executor returns: process spawned and
    registered, timeout armed. *)
Definition spawned (c : Call.t) (activeProcesses : Registry) : State.t :=
  State.mk "" "" false true [] [] (register c activeProcesses).

(** A promise takes the value of the first call of [resolve]. *)
Definition settled (s : State.t) : option ClaudeCodeExecutionResult.t :=
  head (State.resolved s).

Definition timeoutResult (c : Call.t) (now : Z) : ClaudeCodeExecutionResult.t :=
  ClaudeCodeExecutionResult.mk false None
    (Some (ErrorInfo.mk TIMEOUT
       ("AI generation timed out after " +:+ string_of_Z (Call.timeoutMs c / 1000)
        +:+ " seconds. Try simplifying your description.")
       (Some ("Timeout after " +:+ string_of_Z (Call.timeoutMs c) +:+ "ms"))))
    (now - Call.startTime c).

(** The callback of [setTimeout(..., timeoutMs)]. *)
Definition onTimeout (c : Call.t) (now : Z) (s : State.t) : State.t :=
  State.mk (State.stdout s) (State.stderr s)
    true
    false
    (State.resolved s ++ [timeoutResult c now])
    (State.sent s ++ [SIGTERM])
    (unregister c (State.activeProcesses s)).

Definition onStdout (chunk : string) (s : State.t) : State.t :=
  State.mk (State.stdout s +:+ chunk) (State.stderr s) (State.timedOut s)
    (State.timerPending s) (State.resolved s) (State.sent s) (State.activeProcesses s).

Definition onStderr (chunk : string) (s : State.t) : State.t :=
  State.mk (State.stdout s) (State.stderr s +:+ chunk) (State.timedOut s)
    (State.timerPending s) (State.resolved s) (State.sent s) (State.activeProcesses s).

(** A [NodeJS.ErrnoException]. *)
Module Errno.
Record t := mk {
  code : option string;
  message : string;
}.
End Errno.

Definition errorResult (c : Call.t) (now : Z) (err : Errno.t) : ClaudeCodeExecutionResult.t :=
  match Errno.code err with
  | Some "ENOENT" =>
      ClaudeCodeExecutionResult.mk false None
        (Some (ErrorInfo.mk COMMAND_NOT_FOUND
           "Cannot connect to Claude Code - please ensure it is installed and running"
           (Some (Errno.message err))))
        (now - Call.startTime c)
  | _ =>
      ClaudeCodeExecutionResult.mk false None
        (Some (ErrorInfo.mk UNKNOWN_ERROR
           "An unexpected error occurred. Please try again."
           (Some (Errno.message err))))
        (now - Call.startTime c)
  end.

(** The handler of the process's [error] event. *)
Definition onError (c : Call.t) (now : Z) (err : Errno.t) (s : State.t) : State.t :=
  State.mk (State.stdout s) (State.stderr s) (State.timedOut s)
    false
    (if State.timedOut s then State.resolved s
     else State.resolved s ++ [errorResult c now err])
    (State.sent s)
    (unregister c (State.activeProcesses s)).

(** [`${code}`] for an exit code, [null] when a signal ended the process. *)
Definition exitCodeText (code : option Z) : string :=
  match code with
  | Some n => string_of_Z n
  | None => "null"
  end.

Definition exitResult (c : Call.t) (now : Z) (code : option Z) (s : State.t)
  : ClaudeCodeExecutionResult.t :=
  match code with
  | Some 0%Z =>
      ClaudeCodeExecutionResult.mk true (Some (trim (State.stdout s))) None
        (now - Call.startTime c)
  | _ =>
      ClaudeCodeExecutionResult.mk false None
        (Some (ErrorInfo.mk UNKNOWN_ERROR
           "Generation failed - please try again or rephrase your description"
           (Some ("Exit code: " +:+ exitCodeText code +:+ ", stderr: " +:+ State.stderr s))))
        (now - Call.startTime c)
  end.

(** The handler of the process's [exit] event. *)
Definition onExit (c : Call.t) (now : Z) (code : option Z) (s : State.t) : State.t :=
  State.mk (State.stdout s) (State.stderr s) (State.timedOut s)
    false
    (if State.timedOut s then State.resolved s
     else State.resolved s ++ [exitResult c now code s])
    (State.sent s)
    (unregister c (State.activeProcesses s)).

(** What can happen to a call once its executor has returned. [Cancel] is
    a caller running [cancelGeneration] on the shared registry. *)
Inductive Event :=
| TimerFires
| StdoutData (chunk : string)
| StderrData (chunk : string)
| ProcessError (err : Errno.t)
| ProcessExit (code : option Z)
| Cancel (requestId : string).

(** One event, handled to completion at time [now]. The timer only fires
    while it is armed. *)
Inductive step (c : Call.t) : State.t -> Z * Event -> State.t -> Prop :=
| step_timeout now s :
    State.timerPending s = true ->
    step c s (now, TimerFires) (onTimeout c now s)
| step_stdout now chunk s :
    step c s (now, StdoutData chunk) (onStdout chunk s)
| step_stderr now chunk s :
    step c s (now, StderrData chunk) (onStderr chunk s)
| step_error now err s :
    step c s (now, ProcessError err) (onError c now err s)
| step_exit now code s :
    step c s (now, ProcessExit code) (onExit c now code s)
| step_cancel now requestId s :
    step c s (now, Cancel requestId)
      (State.mk (State.stdout s) (State.stderr s) (State.timedOut s)
         (State.timerPending s) (State.resolved s) (State.sent s)
         (cancelGeneration now requestId (State.activeProcesses s)).1.2).

Inductive steps (c : Call.t) : State.t -> list (Z * Event) -> State.t -> Prop :=
| steps_nil s : steps c s [] s
| steps_cons s e s' tr s'' :
    step c s e s' -> steps c s' tr s'' -> steps c s (e :: tr) s''.

(** ** Reference resolver *)

(** Modelled from the spec: the declaration of [SkillReference]
    (shared/types/messages) is not among the sources; the design document
    gives a catalogue entry a name, a description, a scope (personal or
    project), a resolved path and a validation status among valid, missing
    and unresolved. *)
Inductive Scope := personal | project.

Inductive ValidationStatus := valid | missing | unresolved.

Module SkillReference.
Record t := mk {
  name : string;
  description : string;
  scope : Scope;
  skillPath : string;
  validationStatus : ValidationStatus;
}.
End SkillReference.

(** The string a scope is at run time. *)
Definition scope_text (s : Scope) : string :=
  match s with
  | personal => "personal"
  | project => "project"
  end.

(** The string a validation status is at run time. *)
Definition status_text (s : ValidationStatus) : string :=
  match s with
  | valid => "valid"
  | missing => "missing"
  | unresolved => "unresolved"
  end.

(** [s === v] for a string [s] and a property read [v]. *)
Definition is_string (s : string) (v : option json) : bool :=
  match v with
  | Some (JStr s') => String.eqb s s'
  | _ => false
  end.

(** The predicate handed to [availableSkills.find]. *)
Definition same_skill (skillData : object) (skill : SkillReference.t) : bool :=
  is_string (SkillReference.name skill) (prop "name" skillData)
  && is_string (scope_text (SkillReference.scope skill)) (prop "scope" skillData).

(** The function [resolveSkillPaths] maps over the nodes. *)
Definition resolveNode (availableSkills : list SkillReference.t) (node : WorkflowNode.t)
  : WorkflowNode.t :=
  if negb (String.eqb (WorkflowNode.type node) "skill") then node
  else
    let skillData := WorkflowNode.data node in
    match find (same_skill skillData) availableSkills with
    | Some matchedSkill =>
        WorkflowNode.mk (WorkflowNode.id node) (WorkflowNode.type node)
          (WorkflowNode.position node)
          (with_prop "validationStatus"
             (JStr (status_text (SkillReference.validationStatus matchedSkill)))
             (with_prop "skillPath" (JStr (SkillReference.skillPath matchedSkill)) skillData))
    | None =>
        WorkflowNode.mk (WorkflowNode.id node) (WorkflowNode.type node)
          (WorkflowNode.position node)
          (with_prop "validationStatus" (JStr "missing") skillData)
    end.

Definition resolveSkillPaths (workflow : Workflow.t) (availableSkills : list SkillReference.t)
  : Workflow.t :=
  let resolvedNodes := map (resolveNode availableSkills) (Workflow.nodes workflow) in
  Workflow.mk (Workflow.id workflow) (Workflow.name workflow) resolvedNodes
    (Workflow.connections workflow).

(** ** Orchestrators *)

(** What an awaited call of an external collaborator does. *)
Inductive outcome (A : Type) :=
| Returned (a : A)
| Thrown (message : string).
Arguments Returned {A} a.
Arguments Thrown {A} message.

(** The result of [loadWorkflowSchema]. *)
Module SchemaResult.
Record t := mk {
  success : bool;
  schema : option json;
  error : option string;
}.
End SchemaResult.

(** The result of [scanAllSkills]. *)
Module Skills.
Record t := mk {
  personal : list SkillReference.t;
  project : list SkillReference.t;
}.
End Skills.

(** The value [JSON.parse] returns, read through the unchecked casts
    [as Workflow] and [as InnerWorkflow]: the fields the orchestrators test
    may be missing, the others have their declared types. *)
Module Parsed.
Record t := mk {
  id : option string;
  name : string;
  nodes : option (list WorkflowNode.t);
  connections : option (list Connection.t);
}.
End Parsed.

(** The result of [validateAIGeneratedWorkflow]: the messages of its
    errors. *)
Module Validation.
Record t := mk {
  valid : bool;
  errors : list string;
}.
End Validation.

(** The collaborators of one orchestrator call. The prompt, built from the
    current workflow, the conversation history, the user message, the
    schema and the skills [filterSkillsByRelevance] keeps, only feeds the
    subprocess: [executeClaudeCodeCLI] stands for the result of the awaited
    run on that prompt, which never rejects. [JSON_parse] is [None] where
    [JSON.parse] throws or returns a falsy value. [startTime] and [endTime]
    are the two readings of [Date.now()]. *)
Module Env.
Record t := mk {
  loadWorkflowSchema : outcome SchemaResult.t;
  scanAllSkills : outcome Skills.t;
  executeClaudeCodeCLI : ClaudeCodeExecutionResult.t;
  JSON_parse : string -> option Parsed.t;
  validateAIGeneratedWorkflow : Workflow.t -> Validation.t;
  startTime : Z;
  endTime : Z;
}.
End Env.

Definition parseClaudeCodeOutput (env : Env.t) (output : string) : option Parsed.t :=
  Env.JSON_parse env (jsonString output).

Module RefinementResult.
Record t := mk {
  success : bool;
  refinedWorkflow : option Workflow.t;
  clarificationMessage : option string;
  error : option ErrorInfo.t;
  executionTimeMs : Z;
}.
Definition failure (e : ErrorInfo.t) (executionTimeMs : Z) : t :=
  mk false None None (Some e) executionTimeMs.
Definition clarification (text : string) (executionTimeMs : Z) : t :=
  mk true None (Some text) None executionTimeMs.
End RefinementResult.

Module InnerWorkflow.
Record t := mk {
  nodes : list WorkflowNode.t;
  connections : list Connection.t;
}.
End InnerWorkflow.

Module SubAgentFlowRefinementResult.
Record t := mk {
  success : bool;
  refinedInnerWorkflow : option InnerWorkflow.t;
  clarificationMessage : option string;
  error : option ErrorInfo.t;
  executionTimeMs : Z;
}.
Definition failure (e : ErrorInfo.t) (executionTimeMs : Z) : t :=
  mk false None None (Some e) executionTimeMs.
Definition clarification (text : string) (executionTimeMs : Z) : t :=
  mk true None (Some text) None executionTimeMs.
End SubAgentFlowRefinementResult.

(** [!!x] for an optional object. *)
Definition present {A : Type} (x : option A) : bool :=
  match x with
  | Some _ => true
  | None => false
  end.

(** Step 1 of both orchestrators: the schema, and the skills when
    [useSkills]. [inl] is the [details] of the schema failure they return,
    [inr] the available skills; [Thrown] is a rejection, which their
    [catch] receives. When both loads reject, [Promise.all] rejects with
    whichever rejected first; the model takes the schema's, and no
    property below depends on which message it is. *)
Definition loadContext (env : Env.t) (useSkills : bool)
  : outcome (option string + list SkillReference.t) :=
  match Env.loadWorkflowSchema env with
  | Thrown m => Thrown m
  | Returned schemaResult =>
      let loaded := SchemaResult.success schemaResult && present (SchemaResult.schema schemaResult) in
      if useSkills then
        match Env.scanAllSkills env with
        | Thrown m => Thrown m
        | Returned skillsResult =>
            if negb loaded then Returned (inl (SchemaResult.error schemaResult))
            else Returned (inr (Skills.personal skillsResult ++ Skills.project skillsResult)%list)
        end
      else if negb loaded then Returned (inl (SchemaResult.error schemaResult))
      else Returned (inr [])
  end.

(** [cliResult.error ?? { code: 'UNKNOWN_ERROR', ... }] *)
Definition cliError (cliResult : ClaudeCodeExecutionResult.t) : ErrorInfo.t :=
  match ClaudeCodeExecutionResult.error cliResult with
  | Some e => e
  | None => ErrorInfo.mk UNKNOWN_ERROR "Unknown error occurred during CLI execution" None
  end.

(** The output of a run that passes [!cliResult.success || !cliResult.output]. *)
Definition cliOutput (cliResult : ClaudeCodeExecutionResult.t) : option string :=
  if ClaudeCodeExecutionResult.success cliResult
  then given (ClaudeCodeExecutionResult.output cliResult)
  else None.

Definition schemaError (details : option string) : ErrorInfo.t :=
  ErrorInfo.mk UNKNOWN_ERROR "Failed to load workflow schema" details.

(** The error of the [catch] block. *)
Definition unexpectedError (message : string) : ErrorInfo.t :=
  ErrorInfo.mk UNKNOWN_ERROR "An unexpected error occurred during refinement" (Some message).

Definition unparsable : ErrorInfo.t :=
  ErrorInfo.mk PARSE_ERROR
    "Failed to parse AI response. Please try again or rephrase your request"
    (Some "Failed to parse JSON from Claude Code output").

Definition refineWorkflow (env : Env.t) (useSkills : bool) : RefinementResult.t :=
  let elapsed := (Env.endTime env - Env.startTime env)%Z in
  match loadContext env useSkills with
  | Thrown m => RefinementResult.failure (unexpectedError m) elapsed
  | Returned (inl details) => RefinementResult.failure (schemaError details) elapsed
  | Returned (inr availableSkills) =>
      let cliResult := Env.executeClaudeCodeCLI env in
      let cliTime := ClaudeCodeExecutionResult.executionTimeMs cliResult in
      match cliOutput cliResult with
      | None => RefinementResult.failure (cliError cliResult) cliTime
      | Some output =>
          if isClarificationMessage output then
            RefinementResult.clarification (extractClarificationMessage output) cliTime
          else
            match parseClaudeCodeOutput env output with
            | None => RefinementResult.failure unparsable cliTime
            | Some parsed =>
                match given (Parsed.id parsed), Parsed.nodes parsed, Parsed.connections parsed with
                | Some id, Some nodes, Some connections =>
                    let refinedWorkflow := Workflow.mk id (Parsed.name parsed) nodes connections in
                    let refinedWorkflow :=
                      if useSkills then resolveSkillPaths refinedWorkflow availableSkills
                      else refinedWorkflow in
                    let validation := Env.validateAIGeneratedWorkflow env refinedWorkflow in
                    if negb (Validation.valid validation) then
                      RefinementResult.failure
                        (ErrorInfo.mk VALIDATION_ERROR
                           "Refined workflow failed validation - please try again"
                           (Some (join "; " (Validation.errors validation))))
                        cliTime
                    else RefinementResult.mk true (Some refinedWorkflow) None None elapsed
                | _, _, _ =>
                    RefinementResult.failure
                      (ErrorInfo.mk PARSE_ERROR
                         "Refinement failed - AI output does not match Workflow format"
                         (Some "Missing required workflow fields (id, nodes, or connections)"))
                      cliTime
                end
            end
      end
  end.

Definition SUBAGENTFLOW_PROHIBITED_NODE_TYPES : list string :=
  ["subAgent"; "subAgentFlow"; "askUserQuestion"].

Definition SUBAGENTFLOW_MAX_NODES : nat := 30.

(** [array.includes(x)] on strings. *)
Definition includes (l : list string) (x : string) : bool := existsb (String.eqb x) l.

Definition is_prohibited (node : WorkflowNode.t) : bool :=
  includes SUBAGENTFLOW_PROHIBITED_NODE_TYPES (WorkflowNode.type node).

(** [`${node.type} (${node.id})`] *)
Definition prohibitedEntry (node : WorkflowNode.t) : string :=
  WorkflowNode.type node +:+ " (" +:+ WorkflowNode.id node +:+ ")".

Module NodeValidation.
Record t := mk {
  valid : bool;
  prohibitedNodes : list string;
}.
End NodeValidation.

Definition validateSubAgentFlowNodes (innerWorkflow : InnerWorkflow.t) : NodeValidation.t :=
  let prohibitedNodes :=
    map prohibitedEntry (List.filter is_prohibited (InnerWorkflow.nodes innerWorkflow)) in
  NodeValidation.mk (length prohibitedNodes =? 0)%nat prohibitedNodes.

Definition prohibitedError (nodeValidation : NodeValidation.t) : ErrorInfo.t :=
  ErrorInfo.mk PROHIBITED_NODE_TYPE
    "Sub-Agent Flow cannot contain SubAgent, SubAgentFlow, or AskUserQuestion nodes"
    (Some ("Prohibited nodes found: "
           +:+ join ", " (NodeValidation.prohibitedNodes nodeValidation))).

Definition tooManyNodes (count : nat) : ErrorInfo.t :=
  ErrorInfo.mk VALIDATION_ERROR
    ("Sub-Agent Flow cannot exceed "
     +:+ string_of_Z (Z.of_nat SUBAGENTFLOW_MAX_NODES) +:+ " nodes")
    (Some ("Current count: " +:+ string_of_Z (Z.of_nat count))).

Definition refineSubAgentFlow (env : Env.t) (useSkills : bool)
  : SubAgentFlowRefinementResult.t :=
  let elapsed := (Env.endTime env - Env.startTime env)%Z in
  match loadContext env useSkills with
  | Thrown m => SubAgentFlowRefinementResult.failure (unexpectedError m) elapsed
  | Returned (inl details) => SubAgentFlowRefinementResult.failure (schemaError details) elapsed
  | Returned (inr availableSkills) =>
      let cliResult := Env.executeClaudeCodeCLI env in
      let cliTime := ClaudeCodeExecutionResult.executionTimeMs cliResult in
      match cliOutput cliResult with
      | None => SubAgentFlowRefinementResult.failure (cliError cliResult) cliTime
      | Some output =>
          if isClarificationMessage output then
            SubAgentFlowRefinementResult.clarification
              (extractClarificationMessage output) cliTime
          else
            match parseClaudeCodeOutput env output with
            | None => SubAgentFlowRefinementResult.failure unparsable cliTime
            | Some parsed =>
                match Parsed.nodes parsed, Parsed.connections parsed with
                | Some nodes, Some connections =>
                    let refinedInnerWorkflow := InnerWorkflow.mk nodes connections in
                    let nodeValidation := validateSubAgentFlowNodes refinedInnerWorkflow in
                    if negb (NodeValidation.valid nodeValidation) then
                      SubAgentFlowRefinementResult.failure
                        (prohibitedError nodeValidation) cliTime
                    else if (SUBAGENTFLOW_MAX_NODES <? length nodes)%nat then
                      SubAgentFlowRefinementResult.failure
                        (tooManyNodes (length nodes)) cliTime
                    else
                      let resolvedNodes :=
                        if useSkills then
                          Workflow.nodes
                            (resolveSkillPaths
                               (Workflow.mk "temp" "temp" nodes connections) availableSkills)
                        else nodes in
                      SubAgentFlowRefinementResult.mk true
                        (Some (InnerWorkflow.mk resolvedNodes connections)) None None elapsed
                | _, _ =>
                    SubAgentFlowRefinementResult.failure
                      (ErrorInfo.mk PARSE_ERROR
                         "Refinement failed - AI output does not match expected format"
                         (Some "Missing required fields (nodes or connections)"))
                      cliTime
                end
            end
      end
  end.

(** ** What the properties speak of *)

(** A proposed node that is the canvas node. *)
Definition same_node (n : Node.t) (w : WorkflowNode.t) : Prop :=
  Node.id n = WorkflowNode.id w
  /\ Node.type n = Some (WorkflowNode.type w)
  /\ Node.position n = WorkflowNode.position w
  /\ Node.data n = WorkflowNode.data w.

(** A proposed connection that is the canvas edge. *)
Definition same_edge (e : Edge.t) (c : Connection.t) : Prop :=
  Edge.source e = Connection.from c
  /\ nullish (Edge.sourceHandle e) = Connection.fromPort c
  /\ Edge.target e = Connection.to c
  /\ nullish (Edge.targetHandle e) = Connection.toPort c.

(** The proposed workflow has the nodes and the connections of the
    canvas. *)
Definition same_graph (currentNodes : list Node.t) (currentEdges : list Edge.t)
    (incomingWorkflow : Workflow.t) : Prop :=
  Forall2 same_node currentNodes (Workflow.nodes incomingWorkflow)
  /\ Forall2 same_edge currentEdges (Workflow.connections incomingWorkflow).

(** The ids of a list of node changes. *)
Definition changed_ids (l : list NodeChange.t) : list string := map NodeChange.id l.

(** The callbacks a list of effects schedules, each with its delay. *)
Definition scheduled (effects : list Effect) : list (Callback * Z) :=
  omap (fun e => match e with SetTimeout cb ms => Some (cb, ms) | _ => None end) effects.

(** What a trace of events writes to stderr, in order. *)
Fixpoint stderr_of (tr : list (Z * Event)) : string :=
  match tr with
  | [] => ""
  | (_, StderrData chunk) :: rest => chunk +:+ stderr_of rest
  | _ :: rest => stderr_of rest
  end.

(** While the timeout is armed, nothing has resolved the promise. *)
Definition pending_inv (s : State.t) : Prop :=
  State.timerPending s = true -> State.resolved s = [] /\ State.timedOut s = false.

(** Once the timeout has fired: the latch is set, the timer is spent, the
    promise holds the timeout result only, and the request id is not in
    the registry. *)
Definition timed_out_inv (c : Call.t) (r : ClaudeCodeExecutionResult.t) (s : State.t) : Prop :=
  State.timedOut s = true
  /\ State.timerPending s = false
  /\ State.resolved s = [r]
  /\ forall id, given (Call.requestId c) = Some id -> State.activeProcesses s !! id = None.

(** The node's data names this catalogue entry: same name, same scope. *)
Definition names_skill (skillData : object) (skill : SkillReference.t) : Prop :=
  prop "name" skillData = Some (JStr (SkillReference.name skill))
  /\ prop "scope" skillData = Some (JStr (scope_text (SkillReference.scope skill))).

(** [skill] is the first entry of the catalogue the data names. *)
Definition first_named (skillData : object) (availableSkills : list SkillReference.t)
    (skill : SkillReference.t) : Prop :=
  exists earlier later,
    availableSkills = (earlier ++ skill :: later)%list
    /\ names_skill skillData skill
    /\ Forall (fun s => ~ names_skill skillData s) earlier.

(** What [resolveSkillPaths] does to one node. *)
Definition resolved_as (availableSkills : list SkillReference.t)
    (node node' : WorkflowNode.t) : Prop :=
  (WorkflowNode.type node <> "skill" -> node' = node)
  /\ (WorkflowNode.type node = "skill" ->
      WorkflowNode.id node' = WorkflowNode.id node
      /\ WorkflowNode.type node' = WorkflowNode.type node
      /\ WorkflowNode.position node' = WorkflowNode.position node
      /\ (forall skill,
             first_named (WorkflowNode.data node) availableSkills skill ->
             prop "skillPath" (WorkflowNode.data node')
             = Some (JStr (SkillReference.skillPath skill))
             /\ prop "validationStatus" (WorkflowNode.data node')
                = Some (JStr (status_text (SkillReference.validationStatus skill))))
      /\ (Forall (fun s => ~ names_skill (WorkflowNode.data node) s) availableSkills ->
          prop "validationStatus" (WorkflowNode.data node') = Some (JStr "missing")
          /\ prop "skillPath" (WorkflowNode.data node')
             = prop "skillPath" (WorkflowNode.data node))
      /\ (forall k, k <> "skillPath" -> k <> "validationStatus" ->
                    prop k (WorkflowNode.data node') = prop k (WorkflowNode.data node))).

(** [env] with other implementations of [JSON.parse] and of the semantic
    validator. *)
Definition with_parser (env : Env.t) (parse : string -> option Parsed.t)
    (validate : Workflow.t -> Validation.t) : Env.t :=
  Env.mk (Env.loadWorkflowSchema env) (Env.scanAllSkills env)
    (Env.executeClaudeCodeCLI env) parse validate (Env.startTime env) (Env.endTime env).

(** ** Example inputs *)

(** A catalogue with one skill in both scopes; the project entry is marked
    missing. *)
Definition ex_catalogue : list SkillReference.t :=
  [ SkillReference.mk "deploy" "Deploys the site" personal
      "/home/u/.claude/skills/deploy/SKILL.md" valid;
    SkillReference.mk "deploy" "Deploys the site" project
      "/ws/.claude/skills/deploy/SKILL.md" missing ].

(** A skill node as the model writes it: no path, status valid. *)
Definition ex_skill_node : WorkflowNode.t :=
  WorkflowNode.mk "skill-1" "skill" (650, 200)%Z
    [("name", JStr "deploy"); ("scope", JStr "project");
     ("validationStatus", JStr "valid"); ("outputPorts", JNum 1)].

(** A line feed. *)
Definition newline : string := String "010"%char "".

(** A parsed workflow that passes every check of [refineWorkflow]. *)
Definition ex_parsed : Parsed.t :=
  Parsed.mk (Some "wf-1") "Deploy"
    (Some [ WorkflowNode.mk "start-1" "start" (100, 200)%Z [];
            WorkflowNode.mk "end-1" "end" (450, 200)%Z [] ])
    (Some [ Connection.mk "start-1" "end-1" "out" "in" ]).

(** Prose that asks which approach to take, then a fenced workflow. *)
Definition ex_output : string :=
  "Which approach do you prefer?" +:+ newline
  +:+ "```json" +:+ newline +:+ "{ ... }" +:+ newline +:+ "```".

(** Collaborators that all succeed: the run prints [output], and
    [JSON.parse] accepts every text and yields [parsed]. *)
Definition ex_env (output : string) (parsed : Parsed.t) : Env.t :=
  Env.mk
    (Returned (SchemaResult.mk true (Some (JObj [])) None))
    (Returned (Skills.mk [] ex_catalogue))
    (ClaudeCodeExecutionResult.mk true (Some output) None 1234)
    (fun _ => Some parsed)
    (fun _ => Validation.mk true [])
    1000 2500.

(** A parsed fragment with one prohibited node between two permitted
    ones. *)
Definition ex_fragment : Parsed.t :=
  Parsed.mk None ""
    (Some [ WorkflowNode.mk "start-1" "start" (100, 200)%Z [];
            WorkflowNode.mk "ask-1" "askUserQuestion" (350, 200)%Z [];
            WorkflowNode.mk "end-1" "end" (700, 200)%Z [] ])
    (Some []).

(** A canvas of two nodes and one edge, and the workflow that has the same
    graph under a given name. *)
Definition ex_data : object :=
  [("description", JStr "Ask the model"); ("prompt", JStr "Hi")].

Definition ex_nodes : list Node.t :=
  [ Node.mk "start-1" (Some "start") (100, 200)%Z [];
    Node.mk "prompt-1" (Some "prompt") (350, 200)%Z ex_data ].

Definition ex_edges : list Edge.t := [ Edge.mk "start-1" None "prompt-1" (Some "in") ].

Definition ex_workflow (name : string) : Workflow.t :=
  Workflow.mk "wf-1" name
    [ WorkflowNode.mk "start-1" "start" (100, 200)%Z [];
      WorkflowNode.mk "prompt-1" "prompt" (350, 200)%Z ex_data ]
    [ Connection.mk "start-1" "prompt-1" "" "in" ].

(** The same nodes, moved and retyped, with the same data. *)
Definition ex_moved : Workflow.t :=
  Workflow.mk "wf-1" "A"
    [ WorkflowNode.mk "start-1" "start" (0, 0)%Z [];
      WorkflowNode.mk "prompt-1" "skill" (900, 50)%Z ex_data ]
    [ Connection.mk "start-1" "prompt-1" "" "in" ].

(** A call with a 50 ms timeout, started at time 1000 while another
    request is live. *)
Definition ex_call : Call.t := Call.mk 50 (Some "req-1") 1000 {| pid := 4242 |}.

Definition ex_registry : Registry :=
  <["req-0" := ActiveProcess.mk {| pid := 4000 |} 900]> ∅.

(** 300 characters of error output. *)
Definition ex_long_stderr : string := string_of_list_ascii (repeat "x"%char 300).

(** ** Claude CLI path detection *)

(** What the detection observes of the machine: [existsSync] is
    [fs.existsSync], and [runs command] tells whether the awaited
    [spawn(command, ['--version'], { timeout: 5000 })] resolves. *)
Module Machine.
Record t := mk {
  existsSync : string -> bool;
  runs : string -> bool;
}.
End Machine.

(** [CLAUDE_KNOWN_PATHS]; [localBin] and [npmGlobal] stand for the two
    paths joined from [os.homedir()]. *)
Definition CLAUDE_KNOWN_PATHS (localBin npmGlobal : string) : list string :=
  [ localBin; "/opt/homebrew/bin/claude"; "/usr/local/bin/claude"; npmGlobal ].

Definition findClaudeCliInKnownPaths (machine : Machine.t) (knownPaths : list string)
  : option string :=
  find (Machine.existsSync machine) knownPaths.

(** The module variable [cachedClaudePath]: [None] is [undefined] (not
    checked yet), [Some None] is [null] (not found), [Some (Some p)] a
    path. *)
Definition PathCache := option (option string).

(** The result of one call of [getClaudeCliPath]: the path it returns, the
    cache it leaves, and the commands it ran with [--version], in order. *)
Module Lookup.
Record t := mk {
  path : option string;
  cache : PathCache;
  probed : list string;
}.
End Lookup.

(** Step 2 of [getClaudeCliPath]: the lookup through PATH, after the
    probes made so far. *)
Definition lookupInPATH (machine : Machine.t) (probed : list string) : Lookup.t :=
  if Machine.runs machine "claude"
  then Lookup.mk (Some "claude") (Some (Some "claude")) (probed ++ ["claude"])%list
  else Lookup.mk None (Some None) (probed ++ ["claude"])%list.

Definition getClaudeCliPath (machine : Machine.t) (knownPaths : list string)
    (cachedClaudePath : PathCache) : Lookup.t :=
  match cachedClaudePath with
  | Some cached => Lookup.mk cached cachedClaudePath []
  | None =>
      match given (findClaudeCliInKnownPaths machine knownPaths) with
      | Some knownPath =>
          if Machine.runs machine knownPath
          then Lookup.mk (Some knownPath) (Some (Some knownPath)) [knownPath]
          else lookupInPATH machine [knownPath]
      | None => lookupInPATH machine []
      end
  end.

Definition clearClaudeCliPathCache : PathCache := None.

(** [getClaudeSpawnCommand]: the command and its arguments, and the cache
    the lookup leaves. *)
Definition getClaudeSpawnCommand (machine : Machine.t) (knownPaths : list string)
    (cachedClaudePath : PathCache) (args : list string)
  : string * list string * PathCache :=
  let lookup := getClaudeCliPath machine knownPaths cachedClaudePath in
  match given (Lookup.path lookup) with
  | Some claudePath => (claudePath, args, Lookup.cache lookup)
  | None => ("npx", "claude" :: args, Lookup.cache lookup)
  end.

(** ** Prompt builders *)

(** [JSON.stringify(v, null, 2)]: members one per line, each level two
    spaces deeper than [indent]; an empty array or object stays closed. *)
Fixpoint JSON_stringify_indented (v : json) (indent : string) {struct v} : string :=
  match v with
  | JArr ((_ :: _) as items) =>
      "[" +:+ newline
      +:+ join ("," +:+ newline)
            (map (fun item => indent +:+ "  " +:+ JSON_stringify_indented item (indent +:+ "  "))
               items)
      +:+ newline +:+ indent +:+ "]"
  | JObj ((_ :: _) as props) =>
      "{" +:+ newline
      +:+ join ("," +:+ newline)
            (map (fun '(k, item) =>
                    indent +:+ "  " +:+ quote k +:+ ": "
                    +:+ JSON_stringify_indented item (indent +:+ "  "))
               props)
      +:+ newline +:+ indent +:+ "}"
  | _ => JSON_stringify v
  end.

(** [s.toUpperCase()] on ASCII text, which the sender tags are. *)
Definition upper_char (c : ascii) : ascii :=
  let n := N_of_ascii c in
  if ((97 <=? n) && (n <=? 122))%N then ascii_of_N (n - 32) else c.

Fixpoint toUpperCase (s : string) : string :=
  match s with
  | EmptyString => ""
  | String c rest => String (upper_char c) (toUpperCase rest)
  end.

(** Modelled from the spec: the declarations of [ConversationHistory] and
    of its messages (shared/types/workflow-definition) are not among the
    sources; of a message the prompt builders read the sender tag and the
    content, of the history the messages. *)
Module Message.
Record t := mk {
  sender : string;
  content : string;
}.
End Message.

Module ConversationHistory.
Record t := mk {
  messages : list Message.t;
  currentIteration : nat;
}.
End ConversationHistory.

(** [array.slice(-n)]: the last [n] elements, all of them when there are
    fewer. *)
Definition slice_last {A : Type} (n : nat) (l : list A) : list A :=
  skipn (length l - n) l.

(** A double quote, as a string. *)
Definition dq : string := String dquote "".

(** The [conversationContext] of both prompt builders. *)
Definition conversationContext (conversationHistory : ConversationHistory.t) : string :=
  let recentMessages := slice_last 6 (ConversationHistory.messages conversationHistory) in
  if (0 <? length recentMessages)%nat then
    join newline
      [ "**Conversation History** (last " +:+ string_of_Z (Z.of_nat (length recentMessages))
        +:+ " messages):";
        join newline
          (map (fun msg =>
                  "[" +:+ toUpperCase (Message.sender msg) +:+ "]: " +:+ Message.content msg)
             recentMessages);
        "" ]
  else "**Conversation History**: (This is the first message)" +:+ newline.

(** The array both builders serialise into the skills section: name,
    description and scope of each skill that passed the relevance
    filter. *)
Definition skillsJSON (filteredSkills : list SkillReference.t) : json :=
  JArr (map (fun s =>
               JObj [ ("name", JStr (SkillReference.name s));
                      ("description", JStr (SkillReference.description s));
                      ("scope", JStr (scope_text (SkillReference.scope s))) ])
          filteredSkills).

(** The [skillsSection] of both prompt builders. *)
Definition skillsSection (filteredSkills : list SkillReference.t) : string :=
  if (0 <? length filteredSkills)%nat then
    join newline
      [ "";
        "";
        "**Available Skills** (use when user description matches their purpose):";
        JSON_stringify_indented (skillsJSON filteredSkills) "";
        "";
        "**Instructions for Using Skills**:";
        "- Use a Skill node when the user's description matches a Skill's documented purpose";
        "- Copy the name, description, and scope exactly from the Available Skills list above";
        "- Set validationStatus to " +:+ dq +:+ "valid" +:+ dq +:+ " and outputPorts to 1";
        "- Do NOT include skillPath in your response (the system will resolve it automatically)";
        "- If both personal and project Skills match, prefer the project Skill";
        "";
        "" ]
  else "".

(** [currentWorkflow] and [schema] are the JSON values the builder
    serialises; each string of the list is one line of the template. *)
Definition constructRefinementPrompt (currentWorkflow : json)
    (conversationHistory : ConversationHistory.t) (userMessage : string) (schema : json)
    (filteredSkills : list SkillReference.t) : string :=
  join newline
    [ "You are an expert workflow designer for Claude Code Workflow Studio.";
      "";
      "**Task**: Refine the existing workflow based on user's feedback.";
      "";
      "**Current Workflow**:";
      JSON_stringify_indented currentWorkflow "";
      "";
      conversationContext conversationHistory;
      "**User's Refinement Request**:";
      userMessage;
      "";
      "**Refinement Guidelines**:";
      "1. Preserve existing nodes unless explicitly requested to remove";
      "2. Add new nodes ONLY if user asks for new functionality";
      "3. Modify node properties (labels, descriptions, prompts) based on feedback";
      "4. Maintain workflow connectivity and validity";
      "5. Respect node IDs - do not regenerate IDs for unchanged nodes";
      "6. Update only what the user requested - minimize unnecessary changes";
      "";
      "**Node Positioning Guidelines**:";
      "1. Horizontal spacing between regular nodes: Use 300px (e.g., x: 350, 650, 950, 1250, 1550)";
      "2. Spacing after Start node: Use 250px (e.g., Start at x: 100, next at x: 350)";
      "3. Spacing before End node: Use 350px (e.g., previous at x: 1550, End at x: 1900)";
      "4. Vertical spacing: Use 150px between nodes on different branches";
      "5. When adding new nodes, calculate positions based on existing node positions and connections";
      "6. Preserve existing node positions unless repositioning is explicitly requested";
      "7. For branch nodes: offset vertically by 150px from the main path (e.g., y: 300 for main, y: 150/450 for branches)";
      "";
      "**Skill Node Constraints**:";
      "- Skill nodes MUST have exactly 1 output port (outputPorts: 1)";
      "- If branching is needed after Skill execution, add an ifElse or switch node after the Skill node";
      "- Never modify Skill node's outputPorts field";
      "";
      "**Branching Node Selection**:";
      "- Use ifElse node for 2-way conditional branching (true/false)";
      "- Use switch node for 3+ way branching or multiple conditions";
      "- Each branch output should connect to exactly one downstream node - never create serial connections from different branch outputs";
      skillsSection filteredSkills;
      "**Workflow Schema** (reference for valid node types and structure):";
      JSON_stringify_indented schema "";
      "";
      "**Output Format**: Output ONLY valid JSON matching the Workflow interface. Do not include markdown code blocks or explanations." ].

Definition constructSubAgentFlowRefinementPrompt (innerWorkflow : json)
    (conversationHistory : ConversationHistory.t) (userMessage : string) (schema : json)
    (filteredSkills : list SkillReference.t) : string :=
  join newline
    [ "You are an expert workflow designer for Claude Code Workflow Studio.";
      "";
      "**Task**: Refine a Sub-Agent Flow based on user's feedback.";
      "";
      "**IMPORTANT - Sub-Agent Flow Constraints**:";
      "Sub-Agent Flows have strict constraints that MUST be followed:";
      "1. **Prohibited Node Types**: You MUST NOT use the following node types:";
      "   - subAgent (Claude Code constraint for sequential execution)";
      "   - subAgentFlow (no nesting allowed)";
      "   - askUserQuestion (user interaction not supported in sub-agent context)";
      "2. **Allowed Node Types**: start, end, prompt, ifElse, switch, skill, mcp";
      "3. **Maximum Nodes**: " +:+ string_of_Z (Z.of_nat SUBAGENTFLOW_MAX_NODES) +:+ " nodes maximum";
      "4. **Must have exactly one Start node and at least one End node**";
      "";
      "**Current Sub-Agent Flow**:";
      JSON_stringify_indented innerWorkflow "";
      "";
      conversationContext conversationHistory;
      "**User's Refinement Request**:";
      userMessage;
      "";
      "**Refinement Guidelines**:";
      "1. Preserve existing nodes unless explicitly requested to remove";
      "2. Add new nodes ONLY if user asks for new functionality";
      "3. Modify node properties (labels, descriptions, prompts) based on feedback";
      "4. Maintain workflow connectivity and validity";
      "5. Respect node IDs - do not regenerate IDs for unchanged nodes";
      "6. Update only what the user requested - minimize unnecessary changes";
      "7. **NEVER add subAgent, subAgentFlow, or askUserQuestion nodes**";
      "";
      "**Node Positioning Guidelines**:";
      "1. Horizontal spacing between regular nodes: Use 300px (e.g., x: 350, 650, 950, 1250, 1550)";
      "2. Spacing after Start node: Use 250px (e.g., Start at x: 100, next at x: 350)";
      "3. Spacing before End node: Use 350px (e.g., previous at x: 1550, End at x: 1900)";
      "4. Vertical spacing: Use 150px between nodes on different branches";
      "5. When adding new nodes, calculate positions based on existing node positions and connections";
      "6. Preserve existing node positions unless repositioning is explicitly requested";
      "7. For branch nodes: offset vertically by 150px from the main path";
      "";
      "**Skill Node Constraints**:";
      "- Skill nodes MUST have exactly 1 output port (outputPorts: 1)";
      "- If branching is needed after Skill execution, add an ifElse or switch node after the Skill node";
      "- Never modify Skill node's outputPorts field";
      "";
      "**Branching Node Selection**:";
      "- Use ifElse node for 2-way conditional branching (true/false)";
      "- Use switch node for 3+ way branching or multiple conditions";
      "- Each branch output should connect to exactly one downstream node";
      skillsSection filteredSkills;
      "**Workflow Schema** (reference for valid node types and structure):";
      JSON_stringify_indented schema "";
      "";
      "**Output Format**: Output ONLY valid JSON with " +:+ dq +:+ "nodes" +:+ dq +:+ " and " +:+ dq +:+ "connections" +:+ dq +:+ " arrays. Do not include markdown code blocks or explanations. Example:";
      "{";
      "  " +:+ dq +:+ "nodes" +:+ dq +:+ ": [...],";
      "  " +:+ dq +:+ "connections" +:+ dq +:+ ": [...]";
      "}" ].

(** ** What the further properties speak of *)

(** What a trace of events writes to stdout, in order. *)
Fixpoint stdout_of (tr : list (Z * Event)) : string :=
  match tr with
  | [] => ""
  | (_, StdoutData chunk) :: rest => chunk +:+ stdout_of rest
  | _ :: rest => stdout_of rest
  end.

(** The events whose handlers may call [resolve]: the timeout, and the
    process's error and exit. *)
Definition terminal (e : Event) : bool :=
  match e with
  | TimerFires | ProcessError _ | ProcessExit _ => true
  | StdoutData _ | StderrData _ | Cancel _ => false
  end.

(** An event that is not terminal: output, or a cancel request. *)
Definition quiet (e : Z * Event) : Prop := terminal (snd e) = false.

(** The value the handler of a terminal event passes to [resolve] when no
    timeout came before, given the output captured so far. *)
Definition resolution (c : Call.t) (now : Z) (e : Event) (stdout stderr : string)
  : option ClaudeCodeExecutionResult.t :=
  match e with
  | TimerFires => Some (timeoutResult c now)
  | ProcessError err => Some (errorResult c now err)
  | ProcessExit code =>
      Some (exitResult c now code (State.mk stdout stderr false false [] [] ∅))
  | StdoutData _ | StderrData _ | Cancel _ => None
  end.

(** A result as the runner's callers expect it: either success with an
    output and no error, or failure with no output and one of the three
    error codes of the runner, with details. *)
Definition runner_result (r : ClaudeCodeExecutionResult.t) : Prop :=
  (ClaudeCodeExecutionResult.success r = true
   /\ ClaudeCodeExecutionResult.output r <> None
   /\ ClaudeCodeExecutionResult.error r = None)
  \/ (ClaudeCodeExecutionResult.success r = false
      /\ ClaudeCodeExecutionResult.output r = None
      /\ exists code message details,
           ClaudeCodeExecutionResult.error r
           = Some (ErrorInfo.mk code message (Some details))
           /\ In code [TIMEOUT; COMMAND_NOT_FOUND; UNKNOWN_ERROR]).

(** A trace holds a terminal event. *)
Definition ended (tr : list (Z * Event)) : Prop := Exists (fun e => terminal (snd e) = true) tr.

(** The call is over for the registry: its id is not registered and its
    timer is not armed. *)
Definition released (c : Call.t) (s : State.t) : Prop :=
  State.timerPending s = false
  /\ forall id, given (Call.requestId c) = Some id -> State.activeProcesses s !! id = None.

(** No event of the trace cancels [id]. *)
Definition never_cancels (id : string) (tr : list (Z * Event)) : Prop :=
  Forall (fun e => snd e <> Cancel id) tr.

(** [env] with another outcome of the skill scan. *)
Definition with_skills (env : Env.t) (scan : outcome Skills.t) : Env.t :=
  Env.mk (Env.loadWorkflowSchema env) scan (Env.executeClaudeCodeCLI env)
    (Env.JSON_parse env) (Env.validateAIGeneratedWorkflow env)
    (Env.startTime env) (Env.endTime env).

(** The PARSE_ERROR of [refineWorkflow] for a parsed value that lacks a
    required field. *)
Definition missingFields : ErrorInfo.t :=
  ErrorInfo.mk PARSE_ERROR
    "Refinement failed - AI output does not match Workflow format"
    (Some "Missing required workflow fields (id, nodes, or connections)").

(** A text without a backtick: no fence can start or end in it. *)
Fixpoint backtick_free (s : string) : bool :=
  match s with
  | EmptyString => true
  | String c rest => negb (Ascii.eqb c "`") && backtick_free rest
  end.

(** Two texts that differ in the case of ASCII letters only. *)
Fixpoint same_letters (a b : string) : bool :=
  match a, b with
  | EmptyString, EmptyString => true
  | String x a', String y b' => Ascii.eqb (fold_case x) (fold_case y) && same_letters a' b'
  | _, _ => false
  end.

(** ** Further example inputs *)

(** The canvas edges of [ex_edges], one of them twice and with an explicit
    empty handle where [ex_edges] has none. *)
Definition ex_edges_again : list Edge.t :=
  [ Edge.mk "start-1" (Some "") "prompt-1" (Some "in");
    Edge.mk "start-1" None "prompt-1" (Some "in") ].

(** A parsed fragment of 31 permitted nodes. *)
Definition ex_crowd : Parsed.t :=
  Parsed.mk None ""
    (Some (repeat (WorkflowNode.mk "p" "prompt" (0, 0)%Z []) 31))
    (Some []).

(** A run that times out after 50 ms, as the orchestrators see it. *)
Definition ex_timeout_env : Env.t :=
  Env.mk
    (Returned (SchemaResult.mk true (Some (JObj [])) None))
    (Returned (Skills.mk [] ex_catalogue))
    (timeoutResult ex_call 1050)
    (fun _ => Some ex_parsed)
    (fun _ => Validation.mk true [])
    1000 2500.

(** A run that printed a blank line and exited with code 0. *)
Definition ex_blank_env : Env.t :=
  Env.mk
    (Returned (SchemaResult.mk true (Some (JObj [])) None))
    (Returned (Skills.mk [] ex_catalogue))
    (exitResult ex_call 1030 (Some 0%Z)
       (onStdout ("  " +:+ newline) (spawned ex_call ex_registry)))
    (fun _ => Some ex_parsed)
    (fun _ => Validation.mk true [])
    1000 2500.

(** A workflow as raw JSON, as the prompt asks for it, whose only node is
    described with the word UNCLEAR. *)
Definition ex_raw_json : string :=
  "{ id: wf-1, nodes: [ { description: " +:+ "Retry when the status is UNCLEAR"
  +:+ " } ], connections: [] }".

(** A history of seven messages, one more than the prompt takes. *)
Definition ex_older : list Message.t := [ Message.mk "user" "Start with a review step" ].

Definition ex_recent : list Message.t :=
  [ Message.mk "ai" "Which reviewer do you prefer?";
    Message.mk "user" "A code reviewer";
    Message.mk "ai" "Added the reviewer";
    Message.mk "user" "Add a deploy step";
    Message.mk "ai" "Added the deploy step";
    Message.mk "user" "Rename the workflow" ].

(** ** The classifier, in the words of the design document *)

(** [needle] occurs in [s] between [before] and [rest], and no occurrence
    starts earlier. *)
Definition first_occurrence (needle before rest s : string) : Prop :=
  s = before +:+ needle +:+ rest
  /\ forall before' rest',
       s = before' +:+ needle +:+ rest' -> String.length before <= String.length before'.

(** [s] starts with a fenced JSON block and [rest] follows the block: the
    opening fence, then the text up to the first closing fence. *)
Definition block_in_front (s rest : string) : Prop :=
  exists inside behind,
    s = fence_open +:+ behind /\ first_occurrence fence_close inside rest behind.

(** [text] is [s] with its fenced JSON blocks removed: reading from the
    left, a block in front is dropped whole, any other character is
    kept. *)
Inductive without_fenced_blocks : string -> string -> Prop :=
| without_end : without_fenced_blocks "" ""
| without_block s rest text :
    block_in_front s rest ->
    without_fenced_blocks rest text ->
    without_fenced_blocks s text
| without_keep c s text :
    (forall rest, ~ block_in_front (String c s) rest) ->
    without_fenced_blocks s text ->
    without_fenced_blocks (String c s) (String c text).

(** One or more white-space characters. *)
Inductive white_space : string -> Prop :=
| white_space_one w : In w whitespace -> white_space w
| white_space_more w s : In w whitespace -> white_space s -> white_space (w +:+ s).

(** [m] is a text the pattern [r] stands for, letters in either case. *)
Inductive matches : regex -> string -> Prop :=
| matches_lit text m : same_letters text m = true -> matches (Lit text) m
| matches_spaces m : white_space m -> matches Spaces m
| matches_cat r1 r2 m1 m2 : matches r1 m1 -> matches r2 m2 -> matches (Cat r1 r2) (m1 +:+ m2)
| matches_alt_l r1 r2 m : matches r1 m -> matches (Alt r1 r2) m
| matches_alt_r r1 r2 m : matches r2 m -> matches (Alt r1 r2) m
| matches_opt_none r : matches (Opt r) ""
| matches_opt_some r m : matches r m -> matches (Opt r) m.

(** The pattern matches somewhere in [text]. *)
Definition found (r : regex) (text : string) : Prop :=
  exists before m after, text = before +:+ m +:+ after /\ matches r m.

(** What the design document calls a clarification: one of the patterns
    matches the output without its fenced JSON blocks. *)
Definition asks_for_clarification (output : string) : Prop :=
  exists pattern text,
    In pattern clarificationPatterns
    /\ without_fenced_blocks output text
    /\ found pattern text.

(** * Properties *)

(** ** Strings *)

Lemma string_length_app (a b : string) :
  String.length (a +:+ b) = String.length a + String.length b.
Proof. induction a as [|ch a IH]; simpl; [reflexivity | rewrite IH; reflexivity]. Qed.

Lemma string_app_assoc (a b c : string) : (a +:+ b) +:+ c = a +:+ (b +:+ c).
Proof.
  induction a as [|ch a IH]; [reflexivity|].
  change (String ch ((a +:+ b) +:+ c) = String ch (a +:+ (b +:+ c))).
  rewrite IH. reflexivity.
Qed.

Lemma string_app_nil_r (a : string) : a +:+ "" = a.
Proof.
  induction a as [|ch a IH]; [reflexivity|].
  change (String ch (a +:+ "") = String ch a). rewrite IH. reflexivity.
Qed.

(** ** Insertion-ordered maps and sets *)

Section JsMapFacts.
Context {V : Type}.
Implicit Types (m : JsMap.t V) (k : string) (v : V).

Lemma JsMap_get_set k k' v m :
  JsMap.get k' (JsMap.set k v m) = if String.eqb k k' then Some v else JsMap.get k' m.
Proof.
  induction m as [|[k0 v0] m IH]; simpl.
  - rewrite String.eqb_sym. reflexivity.
  - destruct (String.eqb_spec k0 k) as [->|Hne]; simpl.
    + destruct (String.eqb k k'); reflexivity.
    + destruct (String.eqb_spec k0 k') as [->|Hne'].
      * destruct (String.eqb_spec k k'); [congruence | reflexivity].
      * exact IH.
Qed.

Lemma JsMap_has_keys k m : JsMap.has k m = true <-> In k (JsMap.keys m).
Proof.
  unfold JsMap.has. induction m as [|[k0 v0] m IH]; simpl.
  - split; [discriminate | tauto].
  - destruct (String.eqb_spec k0 k) as [->|Hne].
    + split; auto.
    + rewrite IH. split; [auto | intros [H|H]; [congruence | exact H]].
Qed.

Lemma JsMap_keys_set k v m :
  JsMap.keys (JsMap.set k v m)
  = if JsMap.has k m then JsMap.keys m else (JsMap.keys m ++ [k])%list.
Proof.
  unfold JsMap.has. induction m as [|[k0 v0] m IH]; simpl; [reflexivity|].
  destruct (String.eqb_spec k0 k) as [->|Hne]; simpl; [reflexivity|].
  rewrite IH. destruct (JsMap.get k m); reflexivity.
Qed.

Lemma JsMap_NoDup_set k v m :
  List.NoDup (JsMap.keys m) -> List.NoDup (JsMap.keys (JsMap.set k v m)).
Proof.
  intros Hnd. rewrite JsMap_keys_set.
  destruct (JsMap.has k m) eqn:Hhas; [exact Hnd|].
  apply NoDup_rev in Hnd. rewrite <- (rev_involutive (_ ++ _)).
  apply NoDup_rev. rewrite rev_app_distr. simpl. constructor; [|exact Hnd].
  rewrite <- in_rev. intros Hin. apply JsMap_has_keys in Hin. congruence.
Qed.

Lemma JsMap_get_In k v m : JsMap.get k m = Some v -> In (k, v) m.
Proof.
  induction m as [|[k0 v0] m IH]; simpl; [discriminate|].
  destruct (String.eqb_spec k0 k) as [->|Hne].
  - intros [= ->]. left; reflexivity.
  - intros H. right. auto.
Qed.

Lemma JsMap_In_get k v m :
  List.NoDup (JsMap.keys m) -> In (k, v) m -> JsMap.get k m = Some v.
Proof.
  induction m as [|[k0 v0] m IH]; simpl; [tauto|].
  intros Hnd [Heq|Hin].
  - injection Heq as -> ->. rewrite String.eqb_refl. reflexivity.
  - inversion Hnd as [|? ? Hnot Hnd']; subst.
    destruct (String.eqb_spec k0 k) as [->|Hne].
    + exfalso. apply Hnot. change (In (fst (k, v)) (map fst m)). apply in_map. exact Hin.
    + auto.
Qed.
End JsMapFacts.

(** Maps built by a loop of [set] calls from the empty map. *)
Section Built.
Context {A V : Type} (key : A -> string) (val : A -> V).

Implicit Types (l : list A) (acc : JsMap.t V).

Lemma built_NoDup l acc :
  List.NoDup (JsMap.keys acc) ->
  List.NoDup (JsMap.keys (fold_left (fun m x => JsMap.set (key x) (val x) m) l acc)).
Proof.
  revert acc. induction l as [|x l IH]; intros acc Hnd; simpl; [exact Hnd|].
  apply IH. apply JsMap_NoDup_set. exact Hnd.
Qed.

Lemma built_has k l acc :
  JsMap.has k (fold_left (fun m x => JsMap.set (key x) (val x) m) l acc) = true
  <-> In k (map key l) \/ JsMap.has k acc = true.
Proof.
  revert acc. induction l as [|x l IH]; intros acc; simpl.
  - tauto.
  - rewrite IH. unfold JsMap.has. rewrite JsMap_get_set.
    destruct (String.eqb_spec (key x) k) as [->|Hne].
    + split; auto.
    + split; [intros [H|H]; auto | intros [[H|H]|H]; auto; congruence].
Qed.
End Built.

Lemma JsSet_has_In k (s : JsSet.t) : JsSet.has k s = true <-> In k s.
Proof.
  unfold JsSet.has. rewrite existsb_exists. split.
  - intros (x & Hin & Heq). apply String.eqb_eq in Heq. subst. exact Hin.
  - intros Hin. exists k. split; [exact Hin | apply String.eqb_refl].
Qed.

Lemma JsSet_of_list_In_acc k l (acc : JsSet.t) :
  In k (fold_left (fun s x => JsSet.add x s) l acc) <-> In k l \/ In k acc.
Proof.
  revert acc. induction l as [|x l IH]; intros acc; simpl.
  - tauto.
  - rewrite IH. unfold JsSet.add. destruct (JsSet.has x acc) eqn:Hhas.
    + apply JsSet_has_In in Hhas. split; [intros [H|H]; auto | intros [[<-|H]|H]; auto].
    + rewrite in_app_iff. simpl. tauto.
Qed.

Lemma JsSet_of_list_In k l : In k (JsSet.of_list l) <-> In k l.
Proof. unfold JsSet.of_list. rewrite JsSet_of_list_In_acc. simpl. tauto. Qed.

Lemma filter_none {A} (p : A -> bool) (l : list A) :
  (forall x, In x l -> p x = false) -> List.filter p l = [].
Proof.
  induction l as [|a l IH]; simpl; intros H; [reflexivity|].
  rewrite (H a) by auto. apply IH. auto.
Qed.

(** ** The diff engine *)

Lemma currentNodeMap_NoDup nodes : List.NoDup (JsMap.keys (currentNodeMap nodes)).
Proof. apply (built_NoDup Node.id (fun n => n)). constructor. Qed.

Lemma incomingNodeMap_NoDup wf : List.NoDup (JsMap.keys (incomingNodeMap wf)).
Proof.
  unfold incomingNodeMap.
  apply (built_NoDup WorkflowNode.id
           (fun node => Incoming.mk (WorkflowNode.id node) (WorkflowNode.type node)
              (or_else (description (WorkflowNode.data node)) (WorkflowNode.id node))
              (JSON_stringify (JObj (WorkflowNode.data node))))).
  constructor.
Qed.

Lemma currentNodeMap_has id nodes :
  JsMap.has id (currentNodeMap nodes) = true <-> In id (map Node.id nodes).
Proof.
  unfold currentNodeMap.
  rewrite (built_has Node.id (fun n => n)). unfold JsMap.has. simpl.
  split; [intros [H|H]; [exact H | discriminate] | auto].
Qed.

Lemma incomingNodeMap_has id wf :
  JsMap.has id (incomingNodeMap wf) = true <-> In id (map WorkflowNode.id (Workflow.nodes wf)).
Proof.
  unfold incomingNodeMap.
  rewrite (built_has WorkflowNode.id
           (fun node => Incoming.mk (WorkflowNode.id node) (WorkflowNode.type node)
              (or_else (description (WorkflowNode.data node)) (WorkflowNode.id node))
              (JSON_stringify (JObj (WorkflowNode.data node))))).
  unfold JsMap.has. simpl.
  split; [intros [H|H]; [exact H | discriminate] | auto].
Qed.

Lemma In_keys_has {V} k (v : V) (m : JsMap.t V) : In (k, v) m -> JsMap.has k m = true.
Proof.
  intros Hin. apply JsMap_has_keys. change (In (fst (k, v)) (map fst m)).
  apply in_map. exact Hin.
Qed.

(** The three node lists are empty when both sides have the same ids and
    every shared id has the same serialised data; the two connection counts
    are zero when both sides have the same edge keys. *)
Lemma diff_nodes_unchanged currentNodes currentEdges currentName wf :
  (forall id, In id (map Node.id currentNodes)
              <-> In id (map WorkflowNode.id (Workflow.nodes wf))) ->
  (forall id n w,
      JsMap.get id (currentNodeMap currentNodes) = Some n ->
      JsMap.get id (incomingNodeMap wf) = Some w ->
      JSON_stringify (JObj (Node.data n)) = Incoming.data w) ->
  let d := computeWorkflowDiff currentNodes currentEdges currentName wf in
  addedNodes d = [] /\ removedNodes d = [] /\ modifiedNodes d = [].
Proof.
  intros Hids Hdata d. subst d. unfold computeWorkflowDiff.
  cbn [addedNodes removedNodes modifiedNodes]. repeat split.
  - rewrite filter_none; [reflexivity|]. intros [k v] Hin. cbn [fst].
    apply In_keys_has in Hin. apply incomingNodeMap_has in Hin.
    apply Hids in Hin. apply currentNodeMap_has in Hin. rewrite Hin. reflexivity.
  - rewrite filter_none; [reflexivity|]. intros [k v] Hin. cbn [fst].
    apply In_keys_has in Hin. apply currentNodeMap_has in Hin.
    apply Hids in Hin. apply incomingNodeMap_has in Hin. rewrite Hin. reflexivity.
  - rewrite filter_none; [reflexivity|]. intros [k v] Hin.
    unfold data_changed. cbn [fst snd].
    destruct (JsMap.get k (currentNodeMap currentNodes)) as [n|] eqn:Hget; [|reflexivity].
    apply (JsMap_In_get _ _ _ (incomingNodeMap_NoDup wf)) in Hin.
    rewrite (Hdata _ _ _ Hget Hin). rewrite String.eqb_refl. reflexivity.
Qed.

Lemma diff_connections_unchanged currentNodes currentEdges currentName wf :
  (forall key, In key (map makeEdgeKey currentEdges)
               <-> In key (map makeWorkflowEdgeKey (Workflow.connections wf))) ->
  let d := computeWorkflowDiff currentNodes currentEdges currentName wf in
  addedConnections d = 0 /\ removedConnections d = 0.
Proof.
  intros Hkeys d. subst d. unfold computeWorkflowDiff.
  cbn [addedConnections removedConnections]. split.
  - rewrite filter_none; [reflexivity|]. intros k Hin.
    apply JsSet_of_list_In, Hkeys, JsSet_of_list_In, JsSet_has_In in Hin.
    rewrite Hin. reflexivity.
  - rewrite filter_none; [reflexivity|]. intros k Hin.
    apply JsSet_of_list_In, Hkeys, JsSet_of_list_In, JsSet_has_In in Hin.
    rewrite Hin. reflexivity.
Qed.

Lemma totalChanges_sum currentNodes currentEdges currentName wf :
  let d := computeWorkflowDiff currentNodes currentEdges currentName wf in
  totalChanges d
  = (match nameChange d with Some _ => 1 | None => 0 end)
    + length (addedNodes d) + length (removedNodes d) + length (modifiedNodes d)
    + addedConnections d + removedConnections d.
Proof. reflexivity. Qed.

(** Two maps built in step, from lists that pair up. *)
Lemma built_paired {A B VA VB : Type} (R : VA -> VB -> Prop)
    (ka : A -> string) (va : A -> VA) (kb : B -> string) (vb : B -> VB)
    (la : list A) (lb : list B) (acca : JsMap.t VA) (accb : JsMap.t VB) :
  Forall2 (fun a b => ka a = kb b /\ R (va a) (vb b)) la lb ->
  (forall k x y, JsMap.get k acca = Some x -> JsMap.get k accb = Some y -> R x y) ->
  forall k x y,
    JsMap.get k (fold_left (fun m a => JsMap.set (ka a) (va a) m) la acca) = Some x ->
    JsMap.get k (fold_left (fun m b => JsMap.set (kb b) (vb b) m) lb accb) = Some y ->
    R x y.
Proof.
  intros Hall. revert acca accb.
  induction Hall as [|a b la lb [Hk Hv] _ IH]; intros acca accb Hacc; simpl.
  - exact Hacc.
  - apply IH. intros k x y. rewrite !JsMap_get_set, Hk.
    destruct (String.eqb (kb b) k).
    + intros [= <-] [= <-]. exact Hv.
    + apply Hacc.
Qed.

Lemma same_graph_ids currentNodes currentEdges wf :
  same_graph currentNodes currentEdges wf ->
  map Node.id currentNodes = map WorkflowNode.id (Workflow.nodes wf).
Proof.
  intros [Hn _]. induction Hn as [|n w ? ? (Hid & _) _ IH]; simpl; [reflexivity|].
  rewrite Hid, IH. reflexivity.
Qed.

Lemma same_graph_data currentNodes currentEdges wf id n w :
  same_graph currentNodes currentEdges wf ->
  JsMap.get id (currentNodeMap currentNodes) = Some n ->
  JsMap.get id (incomingNodeMap wf) = Some w ->
  JSON_stringify (JObj (Node.data n)) = Incoming.data w.
Proof.
  intros [Hn _]. unfold currentNodeMap, incomingNodeMap.
  apply (built_paired (fun n w => JSON_stringify (JObj (Node.data n)) = Incoming.data w)
           Node.id (fun n => n) WorkflowNode.id
           (fun node => Incoming.mk (WorkflowNode.id node) (WorkflowNode.type node)
              (or_else (description (WorkflowNode.data node)) (WorkflowNode.id node))
              (JSON_stringify (JObj (WorkflowNode.data node))))).
  - eapply Forall2_impl; [exact Hn|]. intros a b (Hid & _ & _ & Hd). simpl.
    rewrite Hd. split; [exact Hid | reflexivity].
  - intros k x y Hx. discriminate Hx.
Qed.

Lemma same_edge_key e c : same_edge e c -> makeEdgeKey e = makeWorkflowEdgeKey c.
Proof.
  intros (Hs & Hsh & Ht & Hth). unfold makeEdgeKey, makeWorkflowEdgeKey.
  rewrite Hs, Hsh, Ht, Hth. reflexivity.
Qed.

Lemma same_graph_keys currentNodes currentEdges wf :
  same_graph currentNodes currentEdges wf ->
  map makeEdgeKey currentEdges = map makeWorkflowEdgeKey (Workflow.connections wf).
Proof.
  intros [_ He]. induction He as [|e c ? ? H _ IH]; simpl; [reflexivity|].
  rewrite (same_edge_key _ _ H), IH. reflexivity.
Qed.

Lemma same_graph_unchanged currentNodes currentEdges currentName wf :
  same_graph currentNodes currentEdges wf ->
  let d := computeWorkflowDiff currentNodes currentEdges currentName wf in
  addedNodes d = [] /\ removedNodes d = [] /\ modifiedNodes d = []
  /\ addedConnections d = 0 /\ removedConnections d = 0.
Proof.
  intros Hg d.
  destruct (diff_nodes_unchanged currentNodes currentEdges currentName wf) as (Ha & Hr & Hm).
  - intros id. rewrite (same_graph_ids _ _ _ Hg). tauto.
  - intros id n w. apply (same_graph_data _ _ _ _ _ _ Hg).
  - destruct (diff_connections_unchanged currentNodes currentEdges currentName wf) as (Hac & Hrc).
    + intros key. rewrite (same_graph_keys _ _ _ Hg). tauto.
    + auto.
Qed.

Lemma ex_same_graph name : same_graph ex_nodes ex_edges (ex_workflow name).
Proof. split; repeat constructor. Qed.

(** C1: when the proposed workflow has the nodes, the connections and the
    name of the canvas, the diff reports no change at all. *)
Theorem diff_identical currentNodes currentEdges currentName incomingWorkflow :
  same_graph currentNodes currentEdges incomingWorkflow ->
  currentName = Workflow.name incomingWorkflow ->
  let d := computeWorkflowDiff currentNodes currentEdges currentName incomingWorkflow in
  totalChanges d = 0
  /\ addedNodes d = [] /\ removedNodes d = [] /\ modifiedNodes d = []
  /\ addedConnections d = 0 /\ removedConnections d = 0
  /\ nameChange d = None.
Proof.
  intros Hg Hname d.
  destruct (same_graph_unchanged _ _ currentName _ Hg) as (Ha & Hr & Hm & Hac & Hrc).
  fold d in Ha, Hr, Hm, Hac, Hrc.
  assert (Hn : nameChange d = None).
  { subst d. unfold computeWorkflowDiff. cbn [nameChange].
    rewrite Hname, String.eqb_refl. reflexivity. }
  repeat split; try assumption.
  unfold d at 1. rewrite totalChanges_sum. fold d.
  rewrite Hn, Ha, Hr, Hm, Hac, Hrc. reflexivity.
Qed.

Lemma diff_identical_witness :
  let d := computeWorkflowDiff ex_nodes ex_edges "A" (ex_workflow "A") in
  totalChanges d = 0
  /\ addedNodes d = [] /\ removedNodes d = [] /\ modifiedNodes d = []
  /\ addedConnections d = 0 /\ removedConnections d = 0
  /\ nameChange d = None.
Proof.
  apply (diff_identical ex_nodes ex_edges "A" (ex_workflow "A")).
  - apply ex_same_graph.
  - reflexivity.
Defined.

(** C7: a rename with the same nodes and connections is reported as the
    pair of names and counts as the only change; in general the total is
    one for a name change plus the sizes of the three node lists plus the
    two connection counts. *)
Theorem diff_rename currentNodes currentEdges currentName incomingWorkflow :
  same_graph currentNodes currentEdges incomingWorkflow ->
  currentName <> Workflow.name incomingWorkflow ->
  let d := computeWorkflowDiff currentNodes currentEdges currentName incomingWorkflow in
  nameChange d = Some {| nc_from := currentName; nc_to := Workflow.name incomingWorkflow |}
  /\ totalChanges d = 1
  /\ totalChanges d
     = (match nameChange d with Some _ => 1 | None => 0 end)
       + length (addedNodes d) + length (removedNodes d) + length (modifiedNodes d)
       + addedConnections d + removedConnections d.
Proof.
  intros Hg Hname d.
  destruct (same_graph_unchanged _ _ currentName _ Hg) as (Ha & Hr & Hm & Hac & Hrc).
  fold d in Ha, Hr, Hm, Hac, Hrc.
  assert (Hn : nameChange d
               = Some {| nc_from := currentName; nc_to := Workflow.name incomingWorkflow |}).
  { subst d. unfold computeWorkflowDiff. cbn [nameChange].
    destruct (String.eqb_spec currentName (Workflow.name incomingWorkflow)); [contradiction|].
    reflexivity. }
  split; [exact Hn|]. split.
  - unfold d at 1. rewrite totalChanges_sum. fold d.
    rewrite Hn, Ha, Hr, Hm, Hac, Hrc. reflexivity.
  - apply totalChanges_sum.
Qed.

Lemma diff_rename_witness :
  let d := computeWorkflowDiff ex_nodes ex_edges "A" (ex_workflow "B") in
  nameChange d = Some {| nc_from := "A"; nc_to := "B" |} /\ totalChanges d = 1.
Proof.
  destruct (diff_rename ex_nodes ex_edges "A" (ex_workflow "B")) as (Hn & Ht & _).
  - apply ex_same_graph.
  - discriminate.
  - split; [exact Hn | exact Ht].
Defined.

(** C8: the canvas counts as a new workflow exactly when it has at most
    two nodes, each of type start or end, and no edge. *)
Theorem isNewWorkflow_iff currentNodes currentEdges currentName incomingWorkflow :
  isNewWorkflow (computeWorkflowDiff currentNodes currentEdges currentName incomingWorkflow)
  = true
  <-> length currentNodes <= 2
      /\ Forall (fun n => Node.type n = Some "start" \/ Node.type n = Some "end") currentNodes
      /\ length currentEdges = 0.
Proof.
  unfold computeWorkflowDiff. cbn [isNewWorkflow].
  rewrite !andb_true_iff, Nat.leb_le, Nat.eqb_eq, forallb_forall, List.Forall_forall.
  assert (Htype : forall n,
            type_is n "start" || type_is n "end" = true
            <-> Node.type n = Some "start" \/ Node.type n = Some "end").
  { intros n. unfold type_is. rewrite orb_true_iff.
    destruct (Node.type n) as [t|].
    - rewrite !String.eqb_eq. split; intros [H|H]; [left|right|left|right]; congruence.
    - split; intros [H|H]; discriminate. }
  split.
  - intros [[Hl Hf] He]. repeat split; [exact Hl | | exact He].
    intros n Hin. apply Htype, Hf, Hin.
  - intros (Hl & Hf & He). repeat split; [exact Hl | | exact He].
    intros n Hin. apply Htype, Hf, Hin.
Qed.

(** The entry a map built by a loop holds for a key comes from an element
    of the list with that key. *)
Lemma built_get {A V : Type} (key : A -> string) (val : A -> V) k v l (acc : JsMap.t V) :
  JsMap.get k (fold_left (fun m x => JsMap.set (key x) (val x) m) l acc) = Some v ->
  (exists x, In x l /\ key x = k /\ val x = v) \/ JsMap.get k acc = Some v.
Proof.
  revert acc. induction l as [|a l IH]; intros acc; simpl; [auto|].
  intros H. apply IH in H. destruct H as [(x & Hin & Hk & Hv)|H].
  - left. exists x. auto.
  - rewrite JsMap_get_set in H. destruct (String.eqb_spec (key a) k) as [Hk|Hk].
    + injection H as <-. left. exists a. auto.
    + right. exact H.
Qed.

(** The value [currentNodeMap] holds for an id is a canvas node with that
    id. *)
Lemma currentNodeMap_get id n currentNodes :
  JsMap.get id (currentNodeMap currentNodes) = Some n ->
  In n currentNodes /\ Node.id n = id.
Proof.
  intros H. apply (built_get Node.id (fun n => n)) in H.
  destruct H as [(x & Hin & Hk & <-)|H]; [auto | discriminate].
Qed.

(** The value [incomingNodeMap] holds for an id carries the serialised
    data of a proposed node with that id. *)
Lemma incomingNodeMap_get id w wf :
  JsMap.get id (incomingNodeMap wf) = Some w ->
  exists node, In node (Workflow.nodes wf) /\ WorkflowNode.id node = id
               /\ Incoming.data w = JSON_stringify (JObj (WorkflowNode.data node)).
Proof.
  intros H. unfold incomingNodeMap in H.
  apply (built_get WorkflowNode.id
           (fun node => Incoming.mk (WorkflowNode.id node) (WorkflowNode.type node)
              (or_else (description (WorkflowNode.data node)) (WorkflowNode.id node))
              (JSON_stringify (JObj (WorkflowNode.data node))))) in H.
  destruct H as [(x & Hin & Hk & <-)|H]; [|discriminate].
  exists x. auto.
Qed.

Lemma changed_ids_entries {V} (name type : V -> string) (entries : list (string * V)) :
  changed_ids (map (fun '(id, node) => NodeChange.mk id (name node) (type node)) entries)
  = map fst entries.
Proof.
  unfold changed_ids. rewrite map_map. apply map_ext. intros [k v]. reflexivity.
Qed.

Lemma In_fst_filter {V} (p : string * V -> bool) k (m : JsMap.t V) v :
  List.NoDup (JsMap.keys m) -> JsMap.get k m = Some v ->
  (In k (map fst (List.filter p m)) <-> p (k, v) = true).
Proof.
  intros Hnd Hget. rewrite in_map_iff. split.
  - intros ([k' v'] & Hk & Hin). simpl in Hk. subst k'.
    apply filter_In in Hin. destruct Hin as [Hin Hp].
    apply (JsMap_In_get _ _ _ Hnd) in Hin. congruence.
  - intros Hp. exists (k, v). split; [reflexivity|].
    apply filter_In. split; [apply JsMap_get_In; exact Hget | exact Hp].
Qed.

(** C9: a node id that both sides hold is listed as modified exactly when
    the serialised data of the two sides differ, and is never listed as
    added or removed; so when both sides hold the same ids with the same
    serialised data, whatever the types and positions, the three node lists
    are empty and only the name and the connections count. *)
Theorem modified_iff_data_differs currentNodes currentEdges currentName incomingWorkflow :
  let d := computeWorkflowDiff currentNodes currentEdges currentName incomingWorkflow in
  (forall id n w,
      JsMap.get id (currentNodeMap currentNodes) = Some n ->
      JsMap.get id (incomingNodeMap incomingWorkflow) = Some w ->
      (In id (changed_ids (modifiedNodes d))
       <-> JSON_stringify (JObj (Node.data n)) <> Incoming.data w)
      /\ ~ In id (changed_ids (addedNodes d))
      /\ ~ In id (changed_ids (removedNodes d)))
  /\ ((forall id, In id (map Node.id currentNodes)
                  <-> In id (map WorkflowNode.id (Workflow.nodes incomingWorkflow))) ->
      (forall id n w,
          JsMap.get id (currentNodeMap currentNodes) = Some n ->
          JsMap.get id (incomingNodeMap incomingWorkflow) = Some w ->
          JSON_stringify (JObj (Node.data n)) = Incoming.data w) ->
      addedNodes d = [] /\ removedNodes d = [] /\ modifiedNodes d = []
      /\ totalChanges d
         = (match nameChange d with Some _ => 1 | None => 0 end)
           + addedConnections d + removedConnections d).
Proof.
  intros d. split.
  - intros id n w Hn Hw. subst d. unfold computeWorkflowDiff.
    cbn [modifiedNodes addedNodes removedNodes].
    rewrite !changed_ids_entries.
    rewrite (In_fst_filter _ _ _ _ (incomingNodeMap_NoDup _) Hw).
    rewrite (In_fst_filter _ _ _ _ (incomingNodeMap_NoDup _) Hw).
    rewrite (In_fst_filter _ _ _ _ (currentNodeMap_NoDup _) Hn).
    cbn [fst]. unfold data_changed, JsMap.has. cbn [fst snd]. rewrite Hn, Hw.
    repeat split; try discriminate.
    + intros H Heq. rewrite Heq, String.eqb_refl in H. discriminate.
    + intros H. destruct (String.eqb_spec (JSON_stringify (JObj (Node.data n)))
                            (Incoming.data w)); [contradiction | reflexivity].
  - intros Hids Hdata.
    destruct (diff_nodes_unchanged currentNodes currentEdges currentName incomingWorkflow
                Hids Hdata) as (Ha & Hr & Hm).
    fold d in Ha, Hr, Hm. repeat split; try assumption.
    unfold d at 1. rewrite totalChanges_sum. fold d. rewrite Ha, Hr, Hm. simpl.
    rewrite !Nat.add_0_r. reflexivity.
Qed.

Lemma modified_iff_data_differs_witness :
  let d := computeWorkflowDiff ex_nodes ex_edges "A" ex_moved in
  ~ In "prompt-1" (changed_ids (modifiedNodes d))
  /\ ~ In "prompt-1" (changed_ids (addedNodes d))
  /\ ~ In "prompt-1" (changed_ids (removedNodes d))
  /\ totalChanges d = 0.
Proof.
  destruct (modified_iff_data_differs ex_nodes ex_edges "A" ex_moved) as [Hshared Hsame].
  destruct (Hshared "prompt-1"
              (Node.mk "prompt-1" (Some "prompt") (350, 200)%Z ex_data)
              (Incoming.mk "prompt-1" "skill" "Ask the model"
                 (JSON_stringify (JObj ex_data))))
    as (Hm & Ha & Hr); [reflexivity | reflexivity |].
  split; [|split; [exact Ha | split; [exact Hr | reflexivity]]].
  intros Hin. apply Hm in Hin. apply Hin. reflexivity.
Defined.

(** ** The process runner *)

Lemma steps_app c s l1 l2 s' :
  steps c s (l1 ++ l2) s' -> exists s1, steps c s l1 s1 /\ steps c s1 l2 s'.
Proof.
  revert s. induction l1 as [|e l1 IH]; intros s H; simpl in H.
  - exists s. split; [constructor | exact H].
  - inversion H as [|? ? s0 ? ? Hstep Hrest]; subst.
    destruct (IH _ Hrest) as (s1 & H1 & H2).
    exists s1. split; [econstructor; eassumption | exact H2].
Qed.

Lemma step_pending c s e s' : step c s e s' -> pending_inv s -> pending_inv s'.
Proof.
  intros Hstep Hinv. destruct Hstep; unfold pending_inv in *; simpl; try discriminate; auto.
Qed.

Lemma steps_pending c s tr s' : steps c s tr s' -> pending_inv s -> pending_inv s'.
Proof.
  induction 1 as [|s e s1 tr s2 Hstep _ IH]; intros Hinv; [exact Hinv|].
  apply IH. eapply step_pending; eassumption.
Qed.

Lemma cancelGeneration_registry now requestId (reg : Registry) id :
  reg !! id = None -> (cancelGeneration now requestId reg).1.2 !! id = None.
Proof.
  intros Hnone. unfold cancelGeneration. destruct (reg !! requestId); simpl; [|exact Hnone].
  rewrite lookup_delete. destruct (decide (requestId = id)); [reflexivity | exact Hnone].
Qed.

Lemma unregister_lookup c (reg : Registry) id :
  given (Call.requestId c) = Some id -> unregister c reg !! id = None.
Proof. intros Hid. unfold unregister. rewrite Hid. apply lookup_delete_eq. Qed.

Lemma step_timed_out c r s e s' :
  step c s e s' -> timed_out_inv c r s -> timed_out_inv c r s'.
Proof.
  intros Hstep (Hto & Htp & Hres & Hreg).
  destruct Hstep; unfold timed_out_inv; simpl.
  - congruence.
  - auto.
  - auto.
  - rewrite Hto. repeat split; auto. intros id Hid. apply unregister_lookup, Hid.
  - rewrite Hto. repeat split; auto. intros id Hid. apply unregister_lookup, Hid.
  - repeat split; auto. intros id Hid. apply cancelGeneration_registry. auto.
Qed.

Lemma steps_timed_out c r s tr s' :
  steps c s tr s' -> timed_out_inv c r s -> timed_out_inv c r s'.
Proof.
  induction 1 as [|s e s1 tr s2 Hstep _ IH]; intros Hinv; [exact Hinv|].
  apply IH. eapply step_timed_out; eassumption.
Qed.

Lemma spawned_pending c reg : pending_inv (spawned c reg).
Proof. intros _. split; reflexivity. Qed.

(** C5: when the timeout fires, the promise is resolved once, with the
    TIMEOUT error; whatever the process does afterwards (output, error,
    exit) and whatever is cancelled, no other call of resolve follows, and
    cancelling the call's request id finds no entry. *)
Theorem timeout_wins c (reg : Registry) before now after s' id now' :
  steps c (spawned c reg) (before ++ (now, TimerFires) :: after) s' ->
  given (Call.requestId c) = Some id ->
  State.resolved s' = [timeoutResult c now]
  /\ settled s' = Some (timeoutResult c now)
  /\ (ErrorInfo.code <$> ClaudeCodeExecutionResult.error (timeoutResult c now)) = Some TIMEOUT
  /\ (cancelGeneration now' id (State.activeProcesses s')).1.1 = CancelResult.mk false None.
Proof.
  intros Hsteps Hid.
  apply steps_app in Hsteps. destruct Hsteps as (s1 & Hbefore & Hrest).
  inversion Hrest as [|? ? s2 ? ? Hfire Hafter]; subst.
  inversion Hfire as [? ? Harmed| | | | |]; subst.
  destruct (steps_pending _ _ _ _ Hbefore (spawned_pending c reg) Harmed) as [Hnone Hlatch].
  assert (Hinv : timed_out_inv c (timeoutResult c now) (onTimeout c now s1)).
  { unfold timed_out_inv, onTimeout; simpl. rewrite Hnone. repeat split.
    intros id' Hid'. apply unregister_lookup, Hid'. }
  destruct (steps_timed_out _ _ _ _ _ Hafter Hinv) as (_ & _ & Hres & Hreg).
  unfold settled. rewrite Hres. repeat split.
  unfold cancelGeneration. rewrite (Hreg _ Hid). reflexivity.
Qed.

Lemma timeout_wins_witness :
  let s' := onExit ex_call 1075 None
              (onTimeout ex_call 1050 (onStdout "partial" (spawned ex_call ex_registry))) in
  State.resolved s' = [timeoutResult ex_call 1050]
  /\ settled s' = Some (timeoutResult ex_call 1050)
  /\ (ErrorInfo.code <$> ClaudeCodeExecutionResult.error (timeoutResult ex_call 1050))
     = Some TIMEOUT
  /\ (cancelGeneration 1080 "req-1" (State.activeProcesses s')).1.1
     = CancelResult.mk false None.
Proof.
  apply (timeout_wins ex_call ex_registry [(1010%Z, StdoutData "partial")] 1050
           [(1075%Z, ProcessExit None)] _ "req-1" 1080).
  - eapply steps_cons; [apply step_stdout|].
    eapply steps_cons; [apply step_timeout; reflexivity|].
    eapply steps_cons; [apply step_exit|].
    apply steps_nil.
  - reflexivity.
Defined.

(** The [stderr] variable holds all the process has written to stderr. *)
Lemma steps_stderr c s tr s' :
  steps c s tr s' -> State.stderr s' = State.stderr s +:+ stderr_of tr.
Proof.
  induction 1 as [s|s e s1 tr s2 Hstep _ IH]; simpl.
  - symmetry. apply string_app_nil_r.
  - rewrite IH. destruct Hstep; simpl; try reflexivity. apply string_app_assoc.
Qed.

(** C6, as the code has it: a non-zero exit code before any timeout makes
    the exit handler resolve with success false and UNKNOWN_ERROR, and the
    details hold the exit code and the whole of the captured stderr,
    whatever its length; this is the promise's value unless an error event
    resolved it first. *)
Theorem nonzero_exit_reports_stderr c now code s :
  code <> 0%Z ->
  State.timedOut s = false ->
  let r := exitResult c now (Some code) s in
  let details := "Exit code: " +:+ string_of_Z code +:+ ", stderr: " +:+ State.stderr s in
  State.resolved (onExit c now (Some code) s) = (State.resolved s ++ [r])%list
  /\ (State.resolved s = [] -> settled (onExit c now (Some code) s) = Some r)
  /\ ClaudeCodeExecutionResult.success r = false
  /\ ClaudeCodeExecutionResult.error r
     = Some (ErrorInfo.mk UNKNOWN_ERROR
               "Generation failed - please try again or rephrase your description"
               (Some details))
  /\ String.length details
     = String.length ("Exit code: " +:+ string_of_Z code +:+ ", stderr: ")
       + String.length (State.stderr s).
Proof.
  intros Hcode Hlatch r details.
  assert (Hr : r = ClaudeCodeExecutionResult.mk false None
                     (Some (ErrorInfo.mk UNKNOWN_ERROR
                        "Generation failed - please try again or rephrase your description"
                        (Some details)))
                     (now - Call.startTime c)).
  { subst r details. unfold exitResult. destruct code; [contradiction | reflexivity..]. }
  split; [|split; [|split; [|split]]].
  - unfold onExit. cbn [State.resolved]. rewrite Hlatch. reflexivity.
  - intros Hnone. unfold settled, onExit. cbn [State.resolved].
    rewrite Hlatch, Hnone. reflexivity.
  - rewrite Hr. reflexivity.
  - rewrite Hr. reflexivity.
  - subst details.
    change ("Exit code: " +:+ string_of_Z code +:+ ", stderr: " +:+ State.stderr s)
      with ("Exit code: " +:+ (string_of_Z code +:+ (", stderr: " +:+ State.stderr s))).
    rewrite !string_length_app. simpl. lia.
Qed.

Lemma nonzero_exit_reports_stderr_witness :
  let s := onStderr "boom" (spawned ex_call ex_registry) in
  settled (onExit ex_call 1020 (Some 2%Z) s)
  = Some (ClaudeCodeExecutionResult.mk false None
            (Some (ErrorInfo.mk UNKNOWN_ERROR
                     "Generation failed - please try again or rephrase your description"
                     (Some "Exit code: 2, stderr: boom")))
            20).
Proof.
  destruct (nonzero_exit_reports_stderr ex_call 1020 2
              (onStderr "boom" (spawned ex_call ex_registry)))
    as (_ & Hsettled & _); [discriminate | reflexivity |].
  simpl. rewrite Hsettled; reflexivity.
Defined.

(** C6 as stated fails: with 300 characters on stderr, the details hold all
    300, not a prefix of 200 (the bound of the log line) or of any other
    length. *)
Lemma nonzero_exit_details_unbounded :
  let s := onStderr ex_long_stderr (spawned ex_call ex_registry) in
  let r := exitResult ex_call 1020 (Some 1%Z) s in
  String.length ex_long_stderr = 300
  /\ (ErrorInfo.details <$> ClaudeCodeExecutionResult.error r)
     = Some (Some ("Exit code: 1, stderr: " +:+ ex_long_stderr))
  /\ (ErrorInfo.details <$> ClaudeCodeExecutionResult.error r)
     <> Some (Some ("Exit code: 1, stderr: " +:+ String.substring 0 200 ex_long_stderr)).
Proof.
  split; [reflexivity|]. split; [reflexivity|].
  vm_compute. discriminate.
Qed.

Lemma runCallback_signals killed childProcess m1 m2 :
  signals_and_timers (runCallback killed (ForceKill childProcess m1))
  = signals_and_timers (runCallback killed (ForceKill childProcess m2)).
Proof. destruct killed; reflexivity. Qed.

(** C10: on every registry and request id, [cancelGeneration] and
    [cancelRefinement] return the same result, leave the same registry and
    send the same signals and schedule the same timers (they differ in
    their log messages only): nothing but [cancelled: false] for an id that
    is not registered; for a registered one SIGTERM at once, the entry
    deleted, [cancelled: true] with the elapsed time, and one callback
    scheduled after 500 ms which, when it fires, sends SIGKILL to the same
    process if the process is not marked killed and does nothing if it
    is. *)
Theorem cancel_equivalent now requestId (activeProcesses : Registry) :
  let g := cancelGeneration now requestId activeProcesses in
  let r := cancelRefinement now requestId activeProcesses in
  g.1.1 = r.1.1
  /\ g.1.2 = r.1.2
  /\ signals_and_timers g.2 = signals_and_timers r.2
  /\ Forall2 (fun a b =>
                a.2 = b.2
                /\ forall killed,
                     signals_and_timers (runCallback killed a.1)
                     = signals_and_timers (runCallback killed b.1))
             (scheduled g.2) (scheduled r.2)
  /\ match activeProcesses !! requestId with
     | None =>
         g.1.1 = CancelResult.mk false None
         /\ g.1.2 = activeProcesses
         /\ signals_and_timers g.2 = []
     | Some activeGen =>
         g.1.1 = CancelResult.mk true (Some (now - ActiveProcess.startTime activeGen)%Z)
         /\ g.1.2 = delete requestId activeProcesses
         /\ g.1.2 !! requestId = None
         /\ signals_and_timers g.2
            = [inl (ActiveProcess.process activeGen, SIGTERM);
               inr (ActiveProcess.process activeGen, 500%Z)]
         /\ exists callback_g callback_r,
              scheduled g.2 = [(callback_g, 500%Z)]
              /\ scheduled r.2 = [(callback_r, 500%Z)]
              /\ runCallback false callback_g
                 = [Kill (ActiveProcess.process activeGen) SIGKILL;
                    Log WARN ("Forcefully killed process for requestId: " +:+ requestId)]
              /\ runCallback false callback_r
                 = [Kill (ActiveProcess.process activeGen) SIGKILL;
                    Log WARN
                      ("Forcefully killed refinement process for requestId: " +:+ requestId)]
              /\ runCallback true callback_g = []
              /\ runCallback true callback_r = []
     end.
Proof.
  intros g r. subst g r. unfold cancelGeneration, cancelRefinement.
  destruct (activeProcesses !! requestId) as [activeGen|]; simpl.
  - split; [reflexivity|]. split; [reflexivity|]. split; [reflexivity|].
    split; [repeat constructor; intros killed; apply runCallback_signals|].
    split; [reflexivity|]. split; [reflexivity|]. split; [apply lookup_delete_eq|].
    split; [reflexivity|].
    eexists _, _. repeat split; reflexivity.
  - repeat split. constructor.
Qed.

(** ** The reference resolver *)

Lemma prop_with_prop k k' v (o : object) :
  prop k' (with_prop k v o) = if String.eqb k k' then Some v else prop k' o.
Proof. exact (JsMap_get_set k k' v o). Qed.

Lemma is_string_iff s v : is_string s v = true <-> v = Some (JStr s).
Proof.
  unfold is_string. destruct v as [[| | |s'| |]|]; try (split; discriminate).
  rewrite String.eqb_eq. split; [intros ->; reflexivity | intros [= ->]; reflexivity].
Qed.

Lemma same_skill_iff skillData skill :
  same_skill skillData skill = true <-> names_skill skillData skill.
Proof. unfold same_skill, names_skill. rewrite andb_true_iff, !is_string_iff. tauto. Qed.

Lemma find_first_named skillData availableSkills skill :
  first_named skillData availableSkills skill ->
  find (same_skill skillData) availableSkills = Some skill.
Proof.
  intros (earlier & later & -> & Hnames & Hearlier).
  induction Hearlier as [|s earlier Hs _ IH]; simpl.
  - apply same_skill_iff in Hnames. rewrite Hnames. reflexivity.
  - destruct (same_skill skillData s) eqn:Hsame; [|exact IH].
    apply same_skill_iff in Hsame. contradiction.
Qed.

Lemma find_none_named skillData availableSkills :
  Forall (fun s => ~ names_skill skillData s) availableSkills ->
  find (same_skill skillData) availableSkills = None.
Proof.
  induction 1 as [|s l Hs _ IH]; simpl; [reflexivity|].
  destruct (same_skill skillData s) eqn:Hsame; [|exact IH].
  apply same_skill_iff in Hsame. contradiction.
Qed.

Lemma first_named_or_none skillData availableSkills :
  (exists skill, first_named skillData availableSkills skill)
  \/ Forall (fun s => ~ names_skill skillData s) availableSkills.
Proof.
  induction availableSkills as [|s l IH].
  - right. constructor.
  - destruct (same_skill skillData s) eqn:Hsame.
    + left. exists s, [], l. apply same_skill_iff in Hsame.
      split; [reflexivity | split; [exact Hsame | constructor]].
    + assert (Hno : ~ names_skill skillData s).
      { intros H. apply same_skill_iff in H. congruence. }
      destruct IH as [(skill & earlier & later & -> & Hn & He)|Hall].
      * left. exists skill, (s :: earlier), later.
        split; [reflexivity | split; [exact Hn | constructor; assumption]].
      * right. constructor; assumption.
Qed.

Lemma resolveNode_spec availableSkills node :
  resolved_as availableSkills node (resolveNode availableSkills node).
Proof.
  unfold resolved_as, resolveNode. split.
  - intros Hty. destruct (String.eqb_spec (WorkflowNode.type node) "skill"); [contradiction|].
    reflexivity.
  - intros Hty. rewrite Hty. cbn [String.eqb Ascii.eqb Bool.eqb negb].
    change (negb ("skill" =? "skill")) with false. cbv iota.
    destruct (find (same_skill (WorkflowNode.data node)) availableSkills) as [m|] eqn:Hfind;
      cbn [WorkflowNode.id WorkflowNode.type WorkflowNode.position WorkflowNode.data].
    + repeat split; auto.
      * apply find_first_named in H. rewrite Hfind in H. injection H as ->.
        rewrite !prop_with_prop. reflexivity.
      * apply find_first_named in H. rewrite Hfind in H. injection H as ->.
        rewrite !prop_with_prop. reflexivity.
      * apply find_none_named in H. congruence.
      * apply find_none_named in H. congruence.
      * intros k Hk1 Hk2. rewrite !prop_with_prop.
        destruct (String.eqb_spec "validationStatus" k); [congruence|].
        destruct (String.eqb_spec "skillPath" k); [congruence|]. reflexivity.
    + repeat split; auto.
      * apply find_first_named in H. congruence.
      * apply find_first_named in H. congruence.
      * rewrite prop_with_prop. reflexivity.
      * rewrite prop_with_prop. reflexivity.
      * intros k Hk1 Hk2. rewrite !prop_with_prop.
        destruct (String.eqb_spec "validationStatus" k); [congruence|]. reflexivity.
Qed.

(** C3, as the code has it: the resolver returns the workflow with every
    node that is not of type skill unchanged; a skill node takes the path
    and the validation status of the first catalogue entry with its name
    and scope, whatever that status is; when no entry has them its status
    becomes missing and its path stays as it was; every other field of its
    data is kept. There is no failure result. *)
Theorem resolver_stamps workflow availableSkills :
  let resolved := resolveSkillPaths workflow availableSkills in
  Workflow.id resolved = Workflow.id workflow
  /\ Workflow.name resolved = Workflow.name workflow
  /\ Workflow.connections resolved = Workflow.connections workflow
  /\ Forall2 (resolved_as availableSkills) (Workflow.nodes workflow) (Workflow.nodes resolved)
  /\ forall node, In node (Workflow.nodes workflow) ->
       (exists skill, first_named (WorkflowNode.data node) availableSkills skill)
       \/ Forall (fun s => ~ names_skill (WorkflowNode.data node) s) availableSkills.
Proof.
  intros resolved. subst resolved. unfold resolveSkillPaths.
  cbn [Workflow.id Workflow.name Workflow.connections Workflow.nodes].
  repeat split.
  - induction (Workflow.nodes workflow) as [|node l IH]; simpl; constructor.
    + apply resolveNode_spec.
    + exact IH.
  - intros node _. apply first_named_or_none.
Qed.

(** C3 as stated fails: the entry with the node's name and scope has status
    missing, and the node is stamped with missing, not with valid. *)
Lemma resolver_copies_status :
  let node' := resolveNode ex_catalogue ex_skill_node in
  find (same_skill (WorkflowNode.data ex_skill_node)) ex_catalogue
  = Some (SkillReference.mk "deploy" "Deploys the site" project
            "/ws/.claude/skills/deploy/SKILL.md" missing)
  /\ prop "skillPath" (WorkflowNode.data node')
     = Some (JStr "/ws/.claude/skills/deploy/SKILL.md")
  /\ prop "validationStatus" (WorkflowNode.data node') = Some (JStr "missing")
  /\ prop "validationStatus" (WorkflowNode.data node') <> Some (JStr "valid").
Proof. repeat split. discriminate. Qed.

(** ** Text: the bounded loops run to their end *)

Lemma strip_prefix_length p s rest :
  strip_prefix p s = Some rest -> String.length s = String.length p + String.length rest.
Proof.
  revert s. induction p as [|a p IH]; intros s; simpl.
  - intros [= ->]. reflexivity.
  - destruct s as [|b s]; [discriminate|].
    destruct (Ascii.eqb a b); [|discriminate].
    intros H. apply IH in H. simpl. rewrite H. reflexivity.
Qed.

Lemma strip_any_shorter table s rest :
  Forall (fun p => p <> "") table ->
  strip_any table s = Some rest -> String.length rest < String.length s.
Proof.
  induction 1 as [|p table Hp _ IH]; simpl; [discriminate|].
  destruct (strip_prefix p s) as [s'|] eqn:Hs; [|exact IH].
  intros [= ->]. apply strip_prefix_length in Hs.
  destruct p; [contradiction|]. simpl in Hs. lia.
Qed.

Lemma whitespace_nonempty : Forall (fun p => p <> "") whitespace.
Proof. repeat constructor; discriminate. Qed.

Lemma whitespace_rev_nonempty : Forall (fun p => p <> "") (map string_rev whitespace).
Proof. repeat constructor; discriminate. Qed.

Lemma strip_ws_shorter s rest :
  strip_ws s = Some rest -> String.length rest < String.length s.
Proof. apply strip_any_shorter, whitespace_nonempty. Qed.

(** [trimStart] stops because no white space is left, not because the
    fuel is spent: more fuel changes nothing. *)
Lemma trimStart_fuel_enough n m s :
  String.length s <= n -> String.length s <= m ->
  trimStart_fuel n s = trimStart_fuel m s.
Proof.
  revert m s. induction n as [|n IH]; intros m s Hn Hm.
  - destruct s; [|simpl in Hn; lia]. destruct m; reflexivity.
  - destruct m as [|m].
    + destruct s; [reflexivity | simpl in Hm; lia].
    + simpl. destruct (strip_ws s) as [rest|] eqn:Hs; [|reflexivity].
      apply strip_ws_shorter in Hs. apply IH; lia.
Qed.

Lemma trimEnd_fuel_enough n m s :
  String.length s <= n -> String.length s <= m ->
  trimEnd_fuel n s = trimEnd_fuel m s.
Proof.
  revert m s. induction n as [|n IH]; intros m s Hn Hm.
  - destruct s; [|simpl in Hn; lia]. destruct m; reflexivity.
  - destruct m as [|m].
    + destruct s; [reflexivity | simpl in Hm; lia].
    + cbn [trimEnd_fuel].
      destruct (strip_any (map string_rev whitespace) s) as [rest|] eqn:Hs;
        [|reflexivity].
      apply (strip_any_shorter _ _ _ whitespace_rev_nonempty) in Hs. apply IH; lia.
Qed.

Lemma spaces_fuel_enough n m s :
  String.length s <= n -> String.length s <= m ->
  spaces_fuel n s = spaces_fuel m s.
Proof.
  revert m s. induction n as [|n IH]; intros m s Hn Hm.
  - destruct s; [|simpl in Hn; lia]. destruct m; reflexivity.
  - destruct m as [|m].
    + destruct s; [reflexivity | simpl in Hm; lia].
    + simpl. destruct (strip_ws s) as [rest|] eqn:Hs; [|reflexivity].
      apply strip_ws_shorter in Hs. f_equal. apply IH; lia.
Qed.

Lemma after_first_length needle s rest :
  after_first needle s = Some rest -> String.length rest <= String.length s.
Proof.
  induction s as [|c s IH]; simpl.
  - destruct (strip_prefix needle "") as [r|] eqn:Hs; [|discriminate].
    intros [= ->]. apply strip_prefix_length in Hs. simpl in Hs. lia.
  - destruct (strip_prefix needle (String c s)) as [r|] eqn:Hs.
    + intros [= ->]. apply strip_prefix_length in Hs. simpl in Hs. lia.
    + intros H. apply IH in H. lia.
Qed.

Lemma fenced_block_shorter s rest :
  fenced_block s = Some rest -> String.length rest < String.length s.
Proof.
  unfold fenced_block. destruct (strip_prefix fence_open s) as [body|] eqn:Hs; [|discriminate].
  intros H. apply after_first_length in H. apply strip_prefix_length in Hs.
  simpl in Hs. lia.
Qed.

(** The scan of [strip_fenced] reaches the end of the text: more fuel
    changes nothing. *)
Lemma strip_fenced_fuel_enough n m s :
  String.length s < n -> String.length s < m ->
  strip_fenced_fuel n s = strip_fenced_fuel m s.
Proof.
  revert m s. induction n as [|n IH]; intros m s Hn Hm; [lia|].
  destruct m as [|m]; [lia|]. simpl.
  destruct (fenced_block s) as [rest|] eqn:Hs.
  - apply fenced_block_shorter in Hs. apply IH; lia.
  - destruct s as [|c s]; [reflexivity|]. simpl in Hn, Hm. f_equal. apply IH; lia.
Qed.

(** ** The classifier against its description *)

Lemma strip_prefix_spec p s rest : strip_prefix p s = Some rest <-> s = p +:+ rest.
Proof.
  revert s. induction p as [|a p IH]; intros s; cbn [strip_prefix].
  - change ("" +:+ rest) with rest. split; [intros [= ->] | intros ->]; reflexivity.
  - change (String a p +:+ rest) with (String a (p +:+ rest)).
    destruct s as [|b s]; [split; discriminate|].
    destruct (Ascii.eqb_spec a b) as [->|Hne].
    + rewrite IH. split; [intros -> | intros [= ->]]; reflexivity.
    + split; [discriminate | intros [= <- _]; contradiction].
Qed.

Lemma after_first_spec needle s rest :
  after_first needle s = Some rest <-> exists before, first_occurrence needle before rest s.
Proof.
  unfold first_occurrence. split.
  - revert rest. induction s as [|c s IH]; intros rest; cbn [after_first].
    + destruct (strip_prefix needle "") as [r|] eqn:Hs; [|discriminate].
      intros [= ->]. apply strip_prefix_spec in Hs. exists "". split; [exact Hs|].
      intros; simpl; lia.
    + destruct (strip_prefix needle (String c s)) as [r|] eqn:Hs.
      * intros [= ->]. apply strip_prefix_spec in Hs. exists "". split; [exact Hs|].
        intros; simpl; lia.
      * intros Hafter. destruct (IH _ Hafter) as (before & Heq & Hmin).
        exists (String c before). split; [simpl; rewrite Heq; reflexivity|].
        intros before' rest' Heq'. destruct before' as [|c' before'].
        -- change ("" +:+ needle +:+ rest') with (needle +:+ rest') in Heq'.
           apply strip_prefix_spec in Heq'. congruence.
        -- injection Heq' as _ Heq'. apply Hmin in Heq'. simpl. lia.
  - intros (before & Heq & Hmin). revert s Heq Hmin.
    induction before as [|c before IH]; intros s Heq Hmin.
    + change ("" +:+ needle +:+ rest) with (needle +:+ rest) in Heq.
      apply strip_prefix_spec in Heq.
      destruct s; cbn [after_first]; rewrite Heq; reflexivity.
    + subst s. change (String c before +:+ needle +:+ rest)
        with (String c (before +:+ needle +:+ rest)) in *.
      cbn [after_first].
      destruct (strip_prefix needle (String c (before +:+ needle +:+ rest))) as [r|] eqn:Hs.
      * apply strip_prefix_spec in Hs. specialize (Hmin "" r Hs). simpl in Hmin. lia.
      * apply IH; [reflexivity|]. intros before' rest' Heq'.
        specialize (Hmin (String c before') rest').
        change (String c before' +:+ needle +:+ rest')
          with (String c (before' +:+ needle +:+ rest')) in Hmin.
        rewrite Heq' in Hmin. specialize (Hmin eq_refl). simpl in Hmin. lia.
Qed.

Lemma fenced_block_spec s rest : fenced_block s = Some rest <-> block_in_front s rest.
Proof.
  unfold fenced_block, block_in_front. split.
  - destruct (strip_prefix fence_open s) as [behind|] eqn:Hs; [|discriminate].
    intros Hafter. apply strip_prefix_spec in Hs. apply after_first_spec in Hafter.
    destruct Hafter as (inside & Hfirst). exists inside, behind. auto.
  - intros (inside & behind & Hs & Hfirst). apply strip_prefix_spec in Hs. rewrite Hs.
    apply after_first_spec. exists inside. exact Hfirst.
Qed.

Lemma strip_fenced_fuel_without fuel s :
  String.length s < fuel -> without_fenced_blocks s (strip_fenced_fuel fuel s).
Proof.
  revert s. induction fuel as [|fuel IH]; intros s Hlen; [lia|].
  cbn [strip_fenced_fuel]. destruct (fenced_block s) as [rest|] eqn:Hblock.
  - apply without_block with rest; [apply fenced_block_spec, Hblock|].
    apply IH. apply fenced_block_shorter in Hblock. lia.
  - destruct s as [|c s]; [constructor|].
    apply without_keep.
    + intros rest Hrest. apply fenced_block_spec in Hrest. congruence.
    + apply IH. simpl in Hlen. lia.
Qed.

Lemma without_strip_fenced_fuel s text :
  without_fenced_blocks s text ->
  forall fuel, String.length s < fuel -> strip_fenced_fuel fuel s = text.
Proof.
  induction 1 as [|s rest text Hblock _ IH|c s text Hnone _ IH]; intros fuel Hlen.
  - destruct fuel; [lia|]. reflexivity.
  - destruct fuel as [|fuel]; [lia|]. cbn [strip_fenced_fuel].
    apply fenced_block_spec in Hblock. rewrite Hblock.
    apply IH. apply fenced_block_shorter in Hblock. lia.
  - destruct fuel as [|fuel]; [lia|]. cbn [strip_fenced_fuel].
    destruct (fenced_block (String c s)) as [rest|] eqn:Hblock.
    + apply fenced_block_spec in Hblock. destruct (Hnone _ Hblock).
    + f_equal. apply IH. simpl in Hlen. lia.
Qed.

(** [strip_fenced] removes the fenced blocks, and nothing else does. *)
Lemma strip_fenced_spec s text : without_fenced_blocks s text <-> strip_fenced s = text.
Proof.
  unfold strip_fenced. split.
  - intros H. apply (without_strip_fenced_fuel _ _ H). lia.
  - intros <-. apply strip_fenced_fuel_without. lia.
Qed.

Lemma strip_prefix_ci_spec text s rest :
  strip_prefix_ci text s = Some rest
  <-> exists m, s = m +:+ rest /\ same_letters text m = true.
Proof.
  revert s. induction text as [|a text IH]; intros s; cbn [strip_prefix_ci].
  - split.
    + intros [= ->]. exists "". split; reflexivity.
    + intros (m & -> & Hm). destruct m; [reflexivity | discriminate].
  - destruct s as [|b s].
    + split; [discriminate|]. intros (m & Hs & Hm).
      destruct m; [discriminate Hm | discriminate Hs].
    + destruct (Ascii.eqb (fold_case a) (fold_case b)) eqn:Hab.
      * rewrite IH. split.
        -- intros (m & -> & Hm). exists (String b m). split; [reflexivity|].
           cbn [same_letters]. rewrite Hab. exact Hm.
        -- intros (m & Hs & Hm). destruct m as [|b' m]; [discriminate Hm|].
           injection Hs as <- ->. cbn [same_letters] in Hm. rewrite Hab in Hm.
           exists m. split; [reflexivity | exact Hm].
      * split; [discriminate|]. intros (m & Hs & Hm).
        destruct m as [|b' m]; [discriminate Hm|].
        injection Hs as <- ->. cbn [same_letters] in Hm. rewrite Hab in Hm. discriminate.
Qed.

Lemma strip_any_In table s rest :
  strip_any table s = Some rest -> exists w, In w table /\ s = w +:+ rest.
Proof.
  induction table as [|p table IH]; cbn [strip_any]; [discriminate|].
  destruct (strip_prefix p s) as [s'|] eqn:Hs.
  - intros [= ->]. apply strip_prefix_spec in Hs. exists p. split; [left; reflexivity | exact Hs].
  - intros H. destruct (IH H) as (w & Hin & Heq). exists w. split; [right; exact Hin | exact Heq].
Qed.

(** Two prefixes of one text: one is a prefix of the other. *)
Lemma prefix_comparable a b x y :
  a +:+ x = b +:+ y -> (exists r, b = a +:+ r) \/ (exists r, a = b +:+ r).
Proof.
  revert b. induction a as [|c a IH]; intros b Heq.
  - left. exists b. reflexivity.
  - destruct b as [|d b]; [right; exists (String c a); reflexivity|].
    injection Heq as -> Heq. destruct (IH _ Heq) as [(r & ->)|(r & ->)].
    + left. exists r. reflexivity.
    + right. exists r. reflexivity.
Qed.

(** No white-space character is the beginning of another one. *)
Lemma whitespace_prefix_free p w r :
  In p whitespace -> In w whitespace -> w = p +:+ r -> p = w.
Proof.
  intros Hp Hw Heq.
  assert (Hall : forallb (fun p => forallb (fun w =>
                    match strip_prefix p w with
                    | Some _ => String.eqb p w
                    | None => true
                    end) whitespace) whitespace = true) by (vm_compute; reflexivity).
  rewrite forallb_forall in Hall. specialize (Hall p Hp).
  rewrite forallb_forall in Hall. specialize (Hall w Hw).
  apply strip_prefix_spec in Heq. rewrite Heq in Hall. apply String.eqb_eq, Hall.
Qed.

Lemma strip_ws_spec s rest :
  strip_ws s = Some rest <-> exists w, In w whitespace /\ s = w +:+ rest.
Proof.
  split; [apply strip_any_In|].
  intros (w & Hin & ->). unfold strip_ws.
  assert (Hsub : forall table, (forall p, In p table -> In p whitespace) -> In w table ->
                               strip_any table (w +:+ rest) = Some rest).
  { induction table as [|p table IH]; intros Hsub Hw; [destruct Hw|].
    cbn [strip_any]. destruct (strip_prefix p (w +:+ rest)) as [s'|] eqn:Hs.
    - apply strip_prefix_spec in Hs.
      assert (p = w) as ->.
      { destruct (prefix_comparable _ _ _ _ Hs) as [(r & Hr)|(r & Hr)].
        - symmetry. apply (whitespace_prefix_free w p r); auto. apply Hsub. left. reflexivity.
        - apply (whitespace_prefix_free p w r); auto. apply Hsub. left. reflexivity. }
      apply strip_prefix_spec in Hs.
      pose proof (proj2 (strip_prefix_spec w (w +:+ rest) rest) eq_refl) as Hs'.
      congruence.
    - destruct Hw as [->|Hw].
      + pose proof (proj2 (strip_prefix_spec w (w +:+ rest) rest) eq_refl). congruence.
      + apply IH; [|exact Hw]. intros q Hq. apply Hsub. right. exact Hq. }
  apply Hsub; auto.
Qed.

Lemma whitespace_length w : In w whitespace -> 0 < String.length w.
Proof.
  intros Hin. pose proof whitespace_nonempty as Hall.
  rewrite List.Forall_forall in Hall. specialize (Hall w Hin).
  destruct w; [contradiction | simpl; lia].
Qed.

Lemma spaces_fuel_sound fuel s rest :
  In rest (spaces_fuel fuel s) -> exists m, s = m +:+ rest /\ white_space m.
Proof.
  revert s. induction fuel as [|fuel IH]; intros s; cbn [spaces_fuel]; [intros []|].
  destruct (strip_ws s) as [s'|] eqn:Hs; [|intros []].
  apply strip_ws_spec in Hs. destruct Hs as (w & Hw & ->).
  intros [<-|Hin].
  - exists w. split; [reflexivity | apply white_space_one, Hw].
  - destruct (IH _ Hin) as (m & -> & Hm). exists (w +:+ m).
    split; [rewrite string_app_assoc; reflexivity | apply white_space_more; assumption].
Qed.

Lemma spaces_fuel_complete m :
  white_space m ->
  forall fuel rest, String.length (m +:+ rest) <= fuel -> In rest (spaces_fuel fuel (m +:+ rest)).
Proof.
  induction 1 as [w Hw|w m Hw Hm IH]; intros fuel rest Hlen;
    pose proof (whitespace_length w Hw) as Hpos.
  - rewrite string_length_app in Hlen. destruct fuel as [|fuel]; [lia|].
    cbn [spaces_fuel].
    rewrite (proj2 (strip_ws_spec (w +:+ rest) rest)) by (exists w; auto).
    left. reflexivity.
  - rewrite string_app_assoc in Hlen |- *. rewrite string_length_app in Hlen.
    destruct fuel as [|fuel]; [lia|]. cbn [spaces_fuel].
    rewrite (proj2 (strip_ws_spec (w +:+ m +:+ rest) (m +:+ rest))) by (exists w; auto).
    right. apply IH. lia.
Qed.

(** The matcher finds every way a pattern matches at the head of a text,
    and only those. *)
Lemma residues_spec r s rest :
  In rest (residues r s) <-> exists m, s = m +:+ rest /\ matches r m.
Proof.
  revert s rest. induction r as [text| |r1 IH1 r2 IH2|r1 IH1 r2 IH2|r IH]; intros s rest;
    cbn [residues].
  - destruct (strip_prefix_ci text s) as [rest'|] eqn:Hs.
    + split.
      * intros [<-|[]]. apply strip_prefix_ci_spec in Hs. destruct Hs as (m & -> & Hm).
        exists m. split; [reflexivity | constructor; exact Hm].
      * intros (m & Heq & Hm). inversion Hm; subst.
        assert (strip_prefix_ci text (m +:+ rest) = Some rest) as Hs'
            by (apply strip_prefix_ci_spec; eauto).
        left. congruence.
    + split; [intros []|]. intros (m & Heq & Hm). inversion Hm; subst.
      assert (strip_prefix_ci text (m +:+ rest) = Some rest) as Hs'
          by (apply strip_prefix_ci_spec; eauto).
      congruence.
  - split.
    + intros Hin. destruct (spaces_fuel_sound _ _ _ Hin) as (m & -> & Hm).
      exists m. split; [reflexivity | constructor; exact Hm].
    + intros (m & -> & Hm). inversion Hm; subst. apply spaces_fuel_complete; [assumption | lia].
  - rewrite in_flat_map. split.
    + intros (mid & Hmid & Hrest). apply IH1 in Hmid. apply IH2 in Hrest.
      destruct Hmid as (m1 & -> & Hm1). destruct Hrest as (m2 & -> & Hm2).
      exists (m1 +:+ m2). split; [rewrite string_app_assoc; reflexivity|].
      constructor; assumption.
    + intros (m & -> & Hm). inversion Hm; subst.
      exists (m2 +:+ rest). split.
      * apply IH1. exists m1. split; [rewrite string_app_assoc; reflexivity | assumption].
      * apply IH2. exists m2. split; [reflexivity | assumption].
  - rewrite in_app_iff, IH1, IH2. split.
    + intros [(m & -> & Hm)|(m & -> & Hm)]; exists m; split; try reflexivity.
      * apply matches_alt_l, Hm.
      * apply matches_alt_r, Hm.
    + intros (m & -> & Hm). inversion Hm; subst; [left | right]; exists m; auto.
  - rewrite in_app_iff, IH. split.
    + intros [(m & -> & Hm)|[<-|[]]].
      * exists m. split; [reflexivity | apply matches_opt_some, Hm].
      * exists "". split; [reflexivity | apply matches_opt_none].
    + intros (m & -> & Hm). inversion Hm; subst.
      * right. left. reflexivity.
      * left. exists m. auto.
Qed.

Lemma matches_here_spec r s :
  matches_here r s = true <-> exists m rest, s = m +:+ rest /\ matches r m.
Proof.
  unfold matches_here. split.
  - destruct (residues r s) as [|rest l] eqn:Hres; [discriminate|]. intros _.
    assert (Hin : In rest (residues r s)) by (rewrite Hres; left; reflexivity).
    apply residues_spec in Hin. destruct Hin as (m & Heq & Hm). eauto.
  - intros (m & rest & Heq & Hm).
    assert (Hin : In rest (residues r s)) by (apply residues_spec; eauto).
    destruct (residues r s); [destruct Hin | reflexivity].
Qed.

(** [test] is true exactly when the pattern matches somewhere. *)
Lemma test_spec r s : test r s = true <-> found r s.
Proof.
  unfold found. induction s as [|c s IH].
  - change (test r "") with (matches_here r "" || false).
    rewrite orb_false_r, matches_here_spec. split.
    + intros (m & rest & Heq & Hm). exists "", m, rest. auto.
    + intros (before & m & after & Heq & Hm). destruct before; [|discriminate].
      exists m, after. auto.
  - change (test r (String c s)) with (matches_here r (String c s) || test r s).
    rewrite orb_true_iff, matches_here_spec, IH. split.
    + intros [(m & rest & Heq & Hm)|(before & m & after & -> & Hm)].
      * exists "", m, rest. auto.
      * exists (String c before), m, after. auto.
    + intros (before & m & after & Heq & Hm). destruct before as [|c' before].
      * left. exists m, after. auto.
      * right. injection Heq as <- ->. exists before, m, after. auto.
Qed.

(** The classifier answers what the design document asks of it. *)
Lemma isClarificationMessage_spec output :
  isClarificationMessage output = true <-> asks_for_clarification output.
Proof.
  unfold isClarificationMessage, asks_for_clarification. rewrite existsb_exists. split.
  - intros (pattern & Hin & Htest). exists pattern, (strip_fenced output).
    split; [exact Hin|]. split; [apply strip_fenced_spec; reflexivity | apply test_spec, Htest].
  - intros (pattern & text & Hin & Hwithout & Hfound).
    apply strip_fenced_spec in Hwithout. subst text.
    exists pattern. split; [exact Hin | apply test_spec, Hfound].
Qed.

(** ** The orchestrators *)

(** A joined list shows each of its elements. *)
Lemma join_shows sep x l :
  In x l -> exists before after, join sep l = before +:+ x +:+ after.
Proof.
  induction l as [|y l IH]; [intros []|].
  intros [->|Hin].
  - destruct l as [|z l].
    + exists "", "". simpl. rewrite string_app_nil_r. reflexivity.
    + exists "", (sep +:+ join sep (z :: l)). reflexivity.
  - destruct (IH Hin) as (before & after & Heq).
    destruct l as [|z l]; [destruct Hin|].
    exists (y +:+ sep +:+ before), after.
    change (join sep (y :: z :: l)) with (y +:+ sep +:+ join sep (z :: l)).
    rewrite Heq, !string_app_assoc. reflexivity.
Qed.

Lemma includes_In l x : includes l x = true <-> In x l.
Proof.
  unfold includes. rewrite existsb_exists. split.
  - intros (y & Hin & Heq). apply String.eqb_eq in Heq. subst. exact Hin.
  - intros Hin. exists x. split; [exact Hin | apply String.eqb_refl].
Qed.

(** C2: once the output is parsed into a fragment with nodes and
    connections, one node of a prohibited type is enough for the
    PROHIBITED_NODE_TYPE error, whatever the other nodes are and however
    many there are; its details list the node by type and id. *)
Theorem prohibited_node_rejected env useSkills availableSkills output parsed
    nodes connections node :
  loadContext env useSkills = Returned (inr availableSkills) ->
  cliOutput (Env.executeClaudeCodeCLI env) = Some output ->
  isClarificationMessage output = false ->
  parseClaudeCodeOutput env output = Some parsed ->
  Parsed.nodes parsed = Some nodes ->
  Parsed.connections parsed = Some connections ->
  In node nodes ->
  In (WorkflowNode.type node) SUBAGENTFLOW_PROHIBITED_NODE_TYPES ->
  let listed := map prohibitedEntry (List.filter is_prohibited nodes) in
  let details := "Prohibited nodes found: " +:+ join ", " listed in
  refineSubAgentFlow env useSkills
  = SubAgentFlowRefinementResult.mk false None None
      (Some (ErrorInfo.mk PROHIBITED_NODE_TYPE
               "Sub-Agent Flow cannot contain SubAgent, SubAgentFlow, or AskUserQuestion nodes"
               (Some details)))
      (ClaudeCodeExecutionResult.executionTimeMs (Env.executeClaudeCodeCLI env))
  /\ In (WorkflowNode.type node +:+ " (" +:+ WorkflowNode.id node +:+ ")") listed
  /\ exists before after,
       details
       = before +:+ (WorkflowNode.type node +:+ " (" +:+ WorkflowNode.id node +:+ ")")
         +:+ after.
Proof.
  intros Hctx Hcli Hclar Hparse Hnodes Hconns Hin Hty listed details.
  assert (Hlisted : In (prohibitedEntry node) listed).
  { apply in_map, filter_In. split; [exact Hin | apply includes_In, Hty]. }
  split; [|split].
  - unfold refineSubAgentFlow. rewrite Hctx, Hcli, Hclar, Hparse, Hnodes, Hconns.
    unfold validateSubAgentFlowNodes. cbn [NodeValidation.valid InnerWorkflow.nodes].
    fold listed. destruct listed as [|e l] eqn:Hl; [destruct Hlisted|].
    cbn [length Nat.eqb negb]. unfold SubAgentFlowRefinementResult.failure, prohibitedError.
    cbn [NodeValidation.prohibitedNodes]. reflexivity.
  - exact Hlisted.
  - destruct (join_shows ", " _ _ Hlisted) as (before & after & Heq).
    exists ("Prohibited nodes found: " +:+ before), after.
    subst details. rewrite Heq. symmetry. apply string_app_assoc.
Qed.

Lemma prohibited_node_rejected_witness :
  refineSubAgentFlow (ex_env "{ ... }" ex_fragment) true
  = SubAgentFlowRefinementResult.mk false None None
      (Some (ErrorInfo.mk PROHIBITED_NODE_TYPE
               "Sub-Agent Flow cannot contain SubAgent, SubAgentFlow, or AskUserQuestion nodes"
               (Some "Prohibited nodes found: askUserQuestion (ask-1)")))
      1234.
Proof.
  exact (proj1 (prohibited_node_rejected (ex_env "{ ... }" ex_fragment) true ex_catalogue
                  "{ ... }" ex_fragment
                  [ WorkflowNode.mk "start-1" "start" (100, 200)%Z [];
                    WorkflowNode.mk "ask-1" "askUserQuestion" (350, 200)%Z [];
                    WorkflowNode.mk "end-1" "end" (700, 200)%Z [] ]
                  []
                  (WorkflowNode.mk "ask-1" "askUserQuestion" (350, 200)%Z [])
                  eq_refl eq_refl eq_refl eq_refl eq_refl eq_refl
                  (or_intror (or_introl eq_refl))
                  (or_intror (or_intror (or_introl eq_refl))))).
Defined.

Lemma loadContext_with_parser env parse validate useSkills :
  loadContext (with_parser env parse validate) useSkills = loadContext env useSkills.
Proof. reflexivity. Qed.

(** C4: the classifier answers true exactly when one of the fixed patterns
    matches, letters in either case, somewhere in the output without its
    fenced JSON blocks. When one does, both orchestrators return the
    clarification (the prose of the output) and never consult the JSON
    parser or the validator: the result is the same whatever these would
    have answered, so also when a valid workflow follows the prose. When
    none does, the result carries no clarification. *)
Theorem clarification_preferred env useSkills availableSkills output :
  loadContext env useSkills = Returned (inr availableSkills) ->
  cliOutput (Env.executeClaudeCodeCLI env) = Some output ->
  let cliTime := ClaudeCodeExecutionResult.executionTimeMs (Env.executeClaudeCodeCLI env) in
  (isClarificationMessage output = true <-> asks_for_clarification output)
  /\ (asks_for_clarification output ->
      refineWorkflow env useSkills
      = RefinementResult.mk true None (Some (extractClarificationMessage output)) None cliTime
      /\ refineSubAgentFlow env useSkills
         = SubAgentFlowRefinementResult.mk true None
             (Some (extractClarificationMessage output)) None cliTime
      /\ forall parse validate,
           refineWorkflow (with_parser env parse validate) useSkills
           = refineWorkflow env useSkills
           /\ refineSubAgentFlow (with_parser env parse validate) useSkills
              = refineSubAgentFlow env useSkills)
  /\ (~ asks_for_clarification output ->
      RefinementResult.clarificationMessage (refineWorkflow env useSkills) = None
      /\ SubAgentFlowRefinementResult.clarificationMessage (refineSubAgentFlow env useSkills)
         = None).
Proof.
  intros Hctx Hcli cliTime.
  split; [apply isClarificationMessage_spec|]. split.
  - intros Hasks. apply isClarificationMessage_spec in Hasks. rename Hasks into Hclar.
    assert (Hw : forall e, loadContext e useSkills = Returned (inr availableSkills) ->
                           cliOutput (Env.executeClaudeCodeCLI e) = Some output ->
                           refineWorkflow e useSkills
                           = RefinementResult.mk true None
                               (Some (extractClarificationMessage output)) None
                               (ClaudeCodeExecutionResult.executionTimeMs
                                  (Env.executeClaudeCodeCLI e))).
    { intros e He Hc. unfold refineWorkflow. rewrite He, Hc, Hclar. reflexivity. }
    assert (Hs : forall e, loadContext e useSkills = Returned (inr availableSkills) ->
                           cliOutput (Env.executeClaudeCodeCLI e) = Some output ->
                           refineSubAgentFlow e useSkills
                           = SubAgentFlowRefinementResult.mk true None
                               (Some (extractClarificationMessage output)) None
                               (ClaudeCodeExecutionResult.executionTimeMs
                                  (Env.executeClaudeCodeCLI e))).
    { intros e He Hc. unfold refineSubAgentFlow. rewrite He, Hc, Hclar. reflexivity. }
    split; [apply Hw; assumption|]. split; [apply Hs; assumption|].
    intros parse validate. split.
    + rewrite (Hw env Hctx Hcli).
      rewrite (Hw (with_parser env parse validate) Hctx Hcli). reflexivity.
    + rewrite (Hs env Hctx Hcli).
      rewrite (Hs (with_parser env parse validate) Hctx Hcli). reflexivity.
  - intros Hnot.
    assert (Hclar : isClarificationMessage output = false).
    { destruct (isClarificationMessage output) eqn:Hc; [|reflexivity].
      destruct Hnot. apply isClarificationMessage_spec, Hc. }
    split.
    + unfold refineWorkflow. rewrite Hctx, Hcli, Hclar.
      destruct (parseClaudeCodeOutput env output) as [parsed|]; [|reflexivity].
      destruct (given (Parsed.id parsed)), (Parsed.nodes parsed), (Parsed.connections parsed);
        try reflexivity.
      cbv zeta. destruct (negb _); reflexivity.
    + unfold refineSubAgentFlow. rewrite Hctx, Hcli, Hclar.
      destruct (parseClaudeCodeOutput env output) as [parsed|]; [|reflexivity].
      destruct (Parsed.nodes parsed), (Parsed.connections parsed); try reflexivity.
      cbv zeta. repeat (match goal with |- context [if ?b then _ else _] => destruct b end);
        reflexivity.
Qed.

Lemma clarification_preferred_witness :
  asks_for_clarification ex_output
  /\ refineWorkflow (ex_env ex_output ex_parsed) true
     = RefinementResult.mk true None (Some "Which approach do you prefer?") None 1234.
Proof.
  pose (H := clarification_preferred (ex_env ex_output ex_parsed) true ex_catalogue ex_output
               eq_refl eq_refl).
  split; [exact (proj1 (proj1 H) eq_refl)|].
  exact (proj1 (proj1 (proj2 H) (proj1 (proj1 H) eq_refl))).
Defined.

(** The parser of that example accepts what follows the prose: without the
    question the same collaborators yield the refined workflow. *)
Example workflow_without_question :
  refineWorkflow
    (ex_env ("```json" +:+ newline +:+ "{ ... }" +:+ newline +:+ "```") ex_parsed) true
  = RefinementResult.mk true
      (Some (Workflow.mk "wf-1" "Deploy"
               [ WorkflowNode.mk "start-1" "start" (100, 200)%Z [];
                 WorkflowNode.mk "end-1" "end" (450, 200)%Z [] ]
               [ Connection.mk "start-1" "end-1" "out" "in" ]))
      None None 1500.
Proof. reflexivity. Qed.

(** Clarifying words inside a fenced block do not count; outside they do,
    in any case of letters. *)
Example fenced_words_ignored :
  isClarificationMessage ("```json" +:+ newline +:+ "{ unclear }" +:+ newline +:+ "```")
  = false
  /\ isClarificationMessage "COULD YOU PLEASE   Clarify the target?" = true
  /\ isClarificationMessage "{ unclear }" = true.
Proof. repeat split. Qed.

(** ** The diff engine: what the change lists hold *)

Lemma In_keys_iff {V} k (m : JsMap.t V) :
  In k (JsMap.keys m) <-> exists v, In (k, v) m.
Proof.
  unfold JsMap.keys. rewrite in_map_iff. split.
  - intros ([k' v] & Hk & Hin). simpl in Hk. subst. eauto.
  - intros (v & Hin). exists (k, v). auto.
Qed.

(** The keys a filter on keys lets through. *)
Lemma In_fst_filter_key {V} (p : string -> bool) k (m : JsMap.t V) :
  In k (map fst (List.filter (fun entry => p (fst entry)) m))
  <-> In k (JsMap.keys m) /\ p k = true.
Proof.
  rewrite in_map_iff. split.
  - intros ([k' v] & Hk & Hin). simpl in Hk. subst k'.
    apply filter_In in Hin. destruct Hin as [Hin Hp]. split; [|exact Hp].
    apply In_keys_iff. eauto.
  - intros [Hin Hp]. apply In_keys_iff in Hin. destruct Hin as (v & Hin).
    exists (k, v). split; [reflexivity|]. apply filter_In. auto.
Qed.

Lemma has_false_iff {V} k (m : JsMap.t V) : JsMap.has k m = false <-> ~ In k (JsMap.keys m).
Proof.
  rewrite <- JsMap_has_keys. destruct (JsMap.has k m); split; intros H; congruence.
Qed.

Lemma currentNodeMap_keys id currentNodes :
  In id (JsMap.keys (currentNodeMap currentNodes)) <-> In id (map Node.id currentNodes).
Proof. rewrite <- JsMap_has_keys. apply currentNodeMap_has. Qed.

Lemma incomingNodeMap_keys id wf :
  In id (JsMap.keys (incomingNodeMap wf)) <-> In id (map WorkflowNode.id (Workflow.nodes wf)).
Proof. rewrite <- JsMap_has_keys. apply incomingNodeMap_has. Qed.

Lemma node_lists_ids currentNodes currentEdges currentName incomingWorkflow id :
  let d := computeWorkflowDiff currentNodes currentEdges currentName incomingWorkflow in
  (In id (changed_ids (addedNodes d))
   <-> In id (map WorkflowNode.id (Workflow.nodes incomingWorkflow))
       /\ ~ In id (map Node.id currentNodes))
  /\ (In id (changed_ids (removedNodes d))
      <-> In id (map Node.id currentNodes)
          /\ ~ In id (map WorkflowNode.id (Workflow.nodes incomingWorkflow)))
  /\ (In id (changed_ids (modifiedNodes d))
      -> In id (map Node.id currentNodes)
         /\ In id (map WorkflowNode.id (Workflow.nodes incomingWorkflow))).
Proof.
  intros d. subst d. unfold computeWorkflowDiff.
  cbn [addedNodes removedNodes modifiedNodes]. rewrite !changed_ids_entries.
  split; [|split].
  - rewrite (In_fst_filter_key (fun k => negb (JsMap.has k (currentNodeMap currentNodes)))).
    rewrite negb_true_iff, has_false_iff, incomingNodeMap_keys, currentNodeMap_keys. tauto.
  - rewrite (In_fst_filter_key (fun k => negb (JsMap.has k (incomingNodeMap incomingWorkflow)))).
    rewrite negb_true_iff, has_false_iff, incomingNodeMap_keys, currentNodeMap_keys. tauto.
  - rewrite in_map_iff. intros ([k v] & Hk & Hin). simpl in Hk. subst k.
    apply filter_In in Hin. destruct Hin as [Hin Hp]. split.
    + unfold data_changed in Hp. cbn [fst] in Hp.
      destruct (JsMap.get id (currentNodeMap currentNodes)) eqn:Hget; [|discriminate].
      apply currentNodeMap_keys, JsMap_has_keys. unfold JsMap.has. rewrite Hget. reflexivity.
    + apply incomingNodeMap_keys, In_keys_iff. eauto.
Qed.

(** X1: an id is listed as added exactly when a proposed node has it and no
    canvas node has it, and as removed exactly when a canvas node has it
    and no proposed node has it; an id listed as modified is on both
    sides. *)
Theorem added_removed_iff currentNodes currentEdges currentName incomingWorkflow id :
  let d := computeWorkflowDiff currentNodes currentEdges currentName incomingWorkflow in
  (In id (changed_ids (addedNodes d))
   <-> In id (map WorkflowNode.id (Workflow.nodes incomingWorkflow))
       /\ ~ In id (map Node.id currentNodes))
  /\ (In id (changed_ids (removedNodes d))
      <-> In id (map Node.id currentNodes)
          /\ ~ In id (map WorkflowNode.id (Workflow.nodes incomingWorkflow)))
  /\ (In id (changed_ids (modifiedNodes d))
      -> In id (map Node.id currentNodes)
         /\ In id (map WorkflowNode.id (Workflow.nodes incomingWorkflow))).
Proof. exact (node_lists_ids currentNodes currentEdges currentName incomingWorkflow id). Qed.

Lemma NoDup_fst_filter {V} (p : string * V -> bool) (m : JsMap.t V) :
  List.NoDup (JsMap.keys m) -> List.NoDup (map fst (List.filter p m)).
Proof.
  unfold JsMap.keys. induction m as [|[k v] m IH]; simpl; intros Hnd; [constructor|].
  inversion Hnd as [|? ? Hnot Hnd']; subst.
  destruct (p (k, v)); simpl; [|auto].
  constructor; [|auto].
  intros Hin. apply Hnot. apply in_map_iff in Hin. destruct Hin as (x & Hx & Hin).
  apply filter_In in Hin. apply in_map_iff. exists x. tauto.
Qed.

Lemma NoDup_app_intro {A} (l1 l2 : list A) :
  List.NoDup l1 -> List.NoDup l2 -> (forall x, In x l1 -> ~ In x l2) -> List.NoDup (l1 ++ l2).
Proof.
  induction l1 as [|a l1 IH]; simpl; intros H1 H2 Hd; [exact H2|].
  inversion H1; subst. constructor.
  - rewrite in_app_iff. intros [H|H]; [contradiction|]. apply (Hd a); auto.
  - apply IH; auto.
Qed.

(** X2: no id is listed twice, within one of the three node lists or
    across them, also when the inputs repeat ids; so a node counts at most
    once in the total. *)
Theorem node_changes_distinct currentNodes currentEdges currentName incomingWorkflow :
  let d := computeWorkflowDiff currentNodes currentEdges currentName incomingWorkflow in
  List.NoDup (changed_ids (addedNodes d) ++ changed_ids (removedNodes d)
              ++ changed_ids (modifiedNodes d)).
Proof.
  intros d.
  pose proof (node_lists_ids currentNodes currentEdges currentName incomingWorkflow) as H.
  fold d in H.
  assert (Ha : List.NoDup (changed_ids (addedNodes d))).
  { subst d. unfold computeWorkflowDiff. cbn [addedNodes]. rewrite changed_ids_entries.
    apply NoDup_fst_filter, incomingNodeMap_NoDup. }
  assert (Hr : List.NoDup (changed_ids (removedNodes d))).
  { subst d. unfold computeWorkflowDiff. cbn [removedNodes]. rewrite changed_ids_entries.
    apply NoDup_fst_filter, currentNodeMap_NoDup. }
  assert (Hm : List.NoDup (changed_ids (modifiedNodes d))).
  { subst d. unfold computeWorkflowDiff. cbn [modifiedNodes]. rewrite changed_ids_entries.
    apply NoDup_fst_filter, incomingNodeMap_NoDup. }
  apply NoDup_app_intro; [exact Ha | apply NoDup_app_intro; [exact Hr | exact Hm |] |].
  - intros id Hin Hin'. apply (H id) in Hin. apply (H id) in Hin'. tauto.
  - intros id Hin Hin'. apply (H id) in Hin. apply in_app_iff in Hin'.
    destruct Hin' as [Hin'|Hin']; apply (H id) in Hin'; tauto.
Qed.

Lemma filter_nil_all {A} (p : A -> bool) (l : list A) :
  List.filter p l = [] -> forall x, In x l -> p x = false.
Proof.
  intros Hnil x Hin. destruct (p x) eqn:Hp; [|reflexivity].
  assert (Hx : In x (List.filter p l)) by (apply filter_In; auto).
  rewrite Hnil in Hx. destruct Hx.
Qed.

Lemma length_filter_zero {A} (p : A -> bool) (l : list A) :
  length (List.filter p l) = 0 -> forall x, In x l -> p x = false.
Proof. intros H. apply filter_nil_all. destruct (List.filter p l); [reflexivity | discriminate]. Qed.

Lemma length_zero_nil {A} (l : list A) : length l = 0 <-> l = [].
Proof. destruct l; split; intros H; try reflexivity; discriminate. Qed.

(** X3: the total is zero exactly when nothing the diff looks at differs:
    the names are equal, both sides hold the same node ids with the same
    serialised data, and both sides have the same set of edge keys. *)
Theorem totalChanges_zero_iff currentNodes currentEdges currentName incomingWorkflow :
  totalChanges (computeWorkflowDiff currentNodes currentEdges currentName incomingWorkflow) = 0
  <-> currentName = Workflow.name incomingWorkflow
      /\ (forall id, In id (map Node.id currentNodes)
                     <-> In id (map WorkflowNode.id (Workflow.nodes incomingWorkflow)))
      /\ (forall id n w,
             JsMap.get id (currentNodeMap currentNodes) = Some n ->
             JsMap.get id (incomingNodeMap incomingWorkflow) = Some w ->
             JSON_stringify (JObj (Node.data n)) = Incoming.data w)
      /\ (forall key, In key (map makeEdgeKey currentEdges)
                      <-> In key (map makeWorkflowEdgeKey
                                    (Workflow.connections incomingWorkflow))).
Proof.
  set (d := computeWorkflowDiff currentNodes currentEdges currentName incomingWorkflow).
  split.
  - intros Hzero. unfold d in Hzero. rewrite totalChanges_sum in Hzero. fold d in Hzero.
    assert (Hn : nameChange d = None) by (destruct (nameChange d); [simpl in Hzero; lia | reflexivity]).
    assert (Ha : addedNodes d = []) by (apply length_zero_nil; lia).
    assert (Hr : removedNodes d = []) by (apply length_zero_nil; lia).
    assert (Hm : modifiedNodes d = []) by (apply length_zero_nil; lia).
    assert (Hac : addedConnections d = 0) by lia.
    assert (Hrc : removedConnections d = 0) by lia.
    clear Hzero. subst d. unfold computeWorkflowDiff in *.
    cbn [nameChange addedNodes removedNodes modifiedNodes addedConnections
         removedConnections] in *.
    apply map_eq_nil in Ha, Hr, Hm.
    pose proof (filter_nil_all _ _ Ha) as Ha'.
    pose proof (filter_nil_all _ _ Hr) as Hr'.
    pose proof (filter_nil_all _ _ Hm) as Hm'.
    pose proof (length_filter_zero _ _ Hac) as Hac'.
    pose proof (length_filter_zero _ _ Hrc) as Hrc'.
    clear Ha Hr Hm Hac Hrc.
    split; [|split; [|split]].
    + destruct (String.eqb_spec currentName (Workflow.name incomingWorkflow));
        [assumption | discriminate].
    + intros id. rewrite <- currentNodeMap_keys, <- incomingNodeMap_keys. split.
      * intros Hin. apply In_keys_iff in Hin. destruct Hin as (v & Hin).
        apply Hr' in Hin. cbv beta in Hin. cbn [fst] in Hin. apply negb_false_iff in Hin.
        apply JsMap_has_keys. exact Hin.
      * intros Hin. apply In_keys_iff in Hin. destruct Hin as (v & Hin).
        apply Ha' in Hin. cbv beta in Hin. cbn [fst] in Hin. apply negb_false_iff in Hin.
        apply JsMap_has_keys. exact Hin.
    + intros id n w Hgn Hgw. apply JsMap_get_In in Hgw. apply Hm' in Hgw.
      unfold data_changed in Hgw. cbn [fst snd] in Hgw. rewrite Hgn in Hgw.
      apply negb_false_iff, String.eqb_eq in Hgw. exact Hgw.
    + intros key. split; intros Hin.
      * apply (proj2 (JsSet_of_list_In _ _)) in Hin. apply Hrc' in Hin. cbv beta in Hin.
        apply negb_false_iff in Hin. apply (proj1 (JsSet_has_In _ _)) in Hin.
        apply (proj1 (JsSet_of_list_In _ _)) in Hin. exact Hin.
      * apply (proj2 (JsSet_of_list_In _ _)) in Hin. apply Hac' in Hin. cbv beta in Hin.
        apply negb_false_iff in Hin. apply (proj1 (JsSet_has_In _ _)) in Hin.
        apply (proj1 (JsSet_of_list_In _ _)) in Hin. exact Hin.
  - intros (Hname & Hids & Hdata & Hkeys).
    destruct (diff_nodes_unchanged currentNodes currentEdges currentName incomingWorkflow
                Hids Hdata) as (Ha & Hr & Hm).
    destruct (diff_connections_unchanged currentNodes currentEdges currentName
                incomingWorkflow Hkeys) as (Hac & Hrc).
    fold d in Ha, Hr, Hm, Hac, Hrc.
    assert (Hn : nameChange d = None).
    { subst d. unfold computeWorkflowDiff. cbn [nameChange].
      rewrite Hname, String.eqb_refl. reflexivity. }
    unfold d at 1. rewrite totalChanges_sum. fold d.
    rewrite Hn, Ha, Hr, Hm, Hac, Hrc. reflexivity.
Qed.

(** ** The diff engine: connections *)

Lemma JsSet_add_NoDup k (s : JsSet.t) : List.NoDup s -> List.NoDup (JsSet.add k s).
Proof.
  intros Hnd. unfold JsSet.add. destruct (JsSet.has k s) eqn:Hhas; [exact Hnd|].
  apply NoDup_app_intro; [exact Hnd | repeat constructor; intros [] |].
  intros x Hin [<-|[]]. apply JsSet_has_In in Hin. congruence.
Qed.

Lemma JsSet_of_list_NoDup l : List.NoDup (JsSet.of_list l).
Proof.
  unfold JsSet.of_list. generalize (@List.NoDup_nil string).
  generalize (@nil string) as acc. induction l as [|x l IH]; intros acc Hnd; simpl.
  - exact Hnd.
  - apply IH, JsSet_add_NoDup, Hnd.
Qed.

Lemma JsSet_has_same (s1 s2 : JsSet.t) k :
  (forall x, In x s1 <-> In x s2) -> JsSet.has k s1 = JsSet.has k s2.
Proof.
  intros Hsame. destruct (JsSet.has k s1) eqn:H1, (JsSet.has k s2) eqn:H2; try reflexivity.
  - apply JsSet_has_In, Hsame, JsSet_has_In in H1. congruence.
  - apply JsSet_has_In, Hsame, JsSet_has_In in H2. congruence.
Qed.

Lemma Permutation_filter_length {A} (p : A -> bool) (l l' : list A) :
  Permutation l l' -> length (List.filter p l) = length (List.filter p l').
Proof.
  induction 1 as [|x l l' _ IH|x y l|l l' l'' _ IH1 _ IH2]; simpl.
  - reflexivity.
  - destruct (p x); simpl; rewrite IH; reflexivity.
  - destruct (p x), (p y); reflexivity.
  - rewrite IH1. exact IH2.
Qed.

(** How many keys of one set are missing from another depends on the two
    sets only. *)
Lemma missing_keys_as_sets (a1 a2 b1 b2 : list string) :
  (forall k, In k a1 <-> In k a2) ->
  (forall k, In k b1 <-> In k b2) ->
  length (List.filter (fun key => negb (JsSet.has key (JsSet.of_list b1))) (JsSet.of_list a1))
  = length (List.filter (fun key => negb (JsSet.has key (JsSet.of_list b2)))
              (JsSet.of_list a2)).
Proof.
  intros Ha Hb.
  rewrite (filter_ext _ (fun key => negb (JsSet.has key (JsSet.of_list b2)))).
  - apply Permutation_filter_length.
    apply Stdlib.Sorting.Permutation.NoDup_Permutation; try apply JsSet_of_list_NoDup.
    intros k. rewrite !JsSet_of_list_In. apply Ha.
  - intros k. f_equal. apply JsSet_has_same. intros x. rewrite !JsSet_of_list_In. apply Hb.
Qed.

(** X4: connections are compared as sets of keys: canvas edges and proposed
    connections may be repeated, reordered, or written with an absent
    handle instead of an empty port, and the summary stays the same. *)
Theorem diff_connections_as_sets currentNodes edges1 edges2 currentName
    id name nodes connections1 connections2 :
  (forall key, In key (map makeEdgeKey edges1) <-> In key (map makeEdgeKey edges2)) ->
  (forall key, In key (map makeWorkflowEdgeKey connections1)
               <-> In key (map makeWorkflowEdgeKey connections2)) ->
  computeWorkflowDiff currentNodes edges1 currentName
    (Workflow.mk id name nodes connections1)
  = computeWorkflowDiff currentNodes edges2 currentName
      (Workflow.mk id name nodes connections2).
Proof.
  intros He Hc. unfold computeWorkflowDiff. cbn [Workflow.name Workflow.connections].
  assert (Hlen : (length edges1 =? 0)%nat = (length edges2 =? 0)%nat).
  { destruct edges1 as [|e1 l1], edges2 as [|e2 l2]; try reflexivity.
    - exfalso. apply (He (makeEdgeKey e2)). left. reflexivity.
    - exfalso. apply (He (makeEdgeKey e1)). left. reflexivity. }
  rewrite Hlen.
  rewrite (missing_keys_as_sets _ _ _ _ Hc He).
  rewrite (missing_keys_as_sets _ _ _ _ He Hc).
  reflexivity.
Qed.

Lemma diff_connections_as_sets_witness :
  computeWorkflowDiff ex_nodes ex_edges "A" (ex_workflow "B")
  = computeWorkflowDiff ex_nodes ex_edges_again "A" (ex_workflow "B").
Proof.
  apply (diff_connections_as_sets ex_nodes ex_edges ex_edges_again "A" "wf-1" "B").
  - intros key. simpl. tauto.
  - intros key. tauto.
Defined.

Lemma string_app_inj_r (a b c : string) : a +:+ b = a +:+ c -> b = c.
Proof. induction a as [|ch a IH]; simpl; intros H; [exact H | injection H; auto]. Qed.

(** X5: the edge key does not separate a node id from a handle: text may
    move across the first colon. A canvas edge from [a] at handle [b:c] and
    a proposed connection from [a:b] at port [c], to the same target, have
    the same key, so the diff counts no connection change between them. *)
Theorem edge_key_collision currentNodes currentName incomingWorkflow a b c target handle :
  Workflow.connections incomingWorkflow
  = [ Connection.mk (a +:+ ":" +:+ b) target c (nullish handle) ] ->
  let edge := Edge.mk a (Some (b +:+ ":" +:+ c)) target handle in
  let d := computeWorkflowDiff currentNodes [edge] currentName incomingWorkflow in
  Edge.source edge <> a +:+ ":" +:+ b
  /\ addedConnections d = 0 /\ removedConnections d = 0.
Proof.
  intros Hconns edge d. split.
  - simpl. intros Heq. rewrite <- (string_app_nil_r a) in Heq at 1.
    apply string_app_inj_r in Heq. discriminate.
  - apply diff_connections_unchanged. rewrite Hconns. intros key. simpl.
    unfold makeEdgeKey, makeWorkflowEdgeKey. simpl.
    rewrite !string_app_assoc. tauto.
Qed.

Lemma edge_key_collision_witness :
  let d := computeWorkflowDiff [] [Edge.mk "a" (Some "b:c") "t" None] "A"
             (Workflow.mk "wf" "A" [] [Connection.mk "a:b" "t" "c" ""]) in
  addedConnections d = 0 /\ removedConnections d = 0.
Proof.
  exact (proj2 (edge_key_collision [] "A" (Workflow.mk "wf" "A" [] [Connection.mk "a:b" "t" "c" ""])
                  "a" "b" "c" "t" None eq_refl)).
Defined.

(** ** The process runner: the first terminal event *)

(** No handler removes a call of [resolve]. *)
Lemma step_resolved c s e s' :
  step c s e s' -> exists more, State.resolved s' = (State.resolved s ++ more)%list.
Proof.
  intros Hstep. destruct Hstep; simpl.
  - eauto.
  - exists []. rewrite app_nil_r. reflexivity.
  - exists []. rewrite app_nil_r. reflexivity.
  - destruct (State.timedOut s); [exists []; rewrite app_nil_r; reflexivity | eauto].
  - destruct (State.timedOut s); [exists []; rewrite app_nil_r; reflexivity | eauto].
  - exists []. rewrite app_nil_r. reflexivity.
Qed.

Lemma steps_settled c s tr s' r :
  steps c s tr s' -> settled s = Some r -> settled s' = Some r.
Proof.
  induction 1 as [|s e s1 tr s2 Hstep _ IH]; intros Hr; [exact Hr|].
  apply IH. destruct (step_resolved _ _ _ _ Hstep) as (more & Hmore).
  unfold settled in *. rewrite Hmore. destruct (State.resolved s); [discriminate | exact Hr].
Qed.

(** Before any terminal event the call is as it started, but for the
    captured output and what was cancelled. *)
Lemma steps_quiet c s tr s' :
  steps c s tr s' -> Forall quiet tr ->
  State.timedOut s' = State.timedOut s
  /\ State.timerPending s' = State.timerPending s
  /\ State.resolved s' = State.resolved s
  /\ State.stdout s' = State.stdout s +:+ stdout_of tr
  /\ State.stderr s' = State.stderr s +:+ stderr_of tr.
Proof.
  induction 1 as [s|s e s1 tr s2 Hstep _ IH]; intros Hq.
  - simpl. rewrite !string_app_nil_r. auto.
  - inversion Hq as [|? ? He Hq']; subst. destruct (IH Hq') as (H1 & H2 & H3 & H4 & H5).
    rewrite H1, H2, H3, H4, H5. clear IH H1 H2 H3 H4 H5.
    destruct Hstep; simpl; try discriminate He; rewrite ?string_app_assoc; auto.
Qed.

Lemma exitResult_texts c now code s :
  exitResult c now code s
  = exitResult c now code (State.mk (State.stdout s) (State.stderr s) false false [] [] ∅).
Proof. reflexivity. Qed.

(** The first terminal event decides. *)
Lemma first_terminal c reg pre now e post s' :
  steps c (spawned c reg) (pre ++ (now, e) :: post) s' ->
  Forall quiet pre ->
  terminal e = true ->
  settled s' = resolution c now e (stdout_of pre) (stderr_of pre).
Proof.
  intros Hsteps Hq Hterm.
  apply steps_app in Hsteps. destruct Hsteps as (s1 & Hpre & Hrest).
  destruct (steps_quiet _ _ _ _ Hpre Hq) as (Hto & Htp & Hres & Hout & Herr).
  simpl in Hto, Htp, Hres, Hout, Herr.
  inversion Hrest as [|? ? s2 ? ? Hstep Hafter]; subst.
  destruct e; try discriminate Hterm; simpl;
    apply (steps_settled _ _ _ _ _ Hafter); unfold settled;
    inversion Hstep; subst; simpl.
  - rewrite Hres. reflexivity.
  - rewrite Hto, Hres. reflexivity.
  - rewrite Hto, Hres. simpl. rewrite exitResult_texts, Hout, Herr. reflexivity.
Qed.

(** X6: the promise takes the value of the first terminal event (timeout,
    process error or process exit) that follows the start; output and
    cancel requests before it do not resolve, and nothing after it
    changes the value. *)
Theorem first_terminal_event_wins c (reg : Registry) pre now e post s' :
  steps c (spawned c reg) (pre ++ (now, e) :: post) s' ->
  Forall quiet pre ->
  terminal e = true ->
  settled s' = resolution c now e (stdout_of pre) (stderr_of pre)
  /\ settled s' <> None.
Proof.
  intros Hsteps Hq Hterm. rewrite (first_terminal _ _ _ _ _ _ _ Hsteps Hq Hterm).
  split; [reflexivity|]. destruct e; try discriminate Hterm; discriminate.
Qed.

Lemma first_terminal_event_wins_witness :
  settled (onExit ex_call 1030 (Some 0%Z)
             (onError ex_call 1020 (Errno.mk (Some "ENOENT") "spawn claude ENOENT")
                (onStdout "partial" (spawned ex_call ex_registry))))
  = Some (errorResult ex_call 1020 (Errno.mk (Some "ENOENT") "spawn claude ENOENT")).
Proof.
  refine (proj1 (first_terminal_event_wins ex_call ex_registry
                   [(1010%Z, StdoutData "partial")] 1020
                   (ProcessError (Errno.mk (Some "ENOENT") "spawn claude ENOENT"))
                   [(1030%Z, ProcessExit (Some 0%Z))] _ _ _ eq_refl)).
  - eapply steps_cons; [apply step_stdout|].
    eapply steps_cons; [apply step_error|].
    eapply steps_cons; [apply step_exit|].
    apply steps_nil.
  - repeat constructor.
Defined.

(** X7: when the process exits with code 0 before any other terminal event,
    the call succeeds with all the stdout chunks, concatenated in order of
    arrival and trimmed; what came on stderr is dropped. *)
Theorem exit_zero_returns_stdout c (reg : Registry) pre now post s' :
  steps c (spawned c reg) (pre ++ (now, ProcessExit (Some 0%Z)) :: post) s' ->
  Forall quiet pre ->
  settled s'
  = Some (ClaudeCodeExecutionResult.mk true (Some (trim (stdout_of pre))) None
            (now - Call.startTime c)).
Proof.
  intros Hsteps Hq. rewrite (first_terminal _ _ _ _ _ _ _ Hsteps Hq eq_refl). reflexivity.
Qed.

Lemma exit_zero_returns_stdout_witness :
  settled (onExit ex_call 1030 (Some 0%Z)
             (onStdout (" 1]}" +:+ newline)
                (onStderr "warning"
                   (onStdout "{[" (spawned ex_call ex_registry)))))
  = Some (ClaudeCodeExecutionResult.mk true (Some "{[ 1]}") None 30).
Proof.
  refine (exit_zero_returns_stdout ex_call ex_registry
            [(1010%Z, StdoutData "{["); (1015%Z, StderrData "warning");
             (1020%Z, StdoutData (" 1]}" +:+ newline))] 1030 [] _ _ _).
  - eapply steps_cons; [apply step_stdout|].
    eapply steps_cons; [apply step_stderr|].
    eapply steps_cons; [apply step_stdout|].
    eapply steps_cons; [apply step_exit|].
    apply steps_nil.
  - repeat constructor.
Defined.

(** X8: a process ended by a signal (exit code [null]), as after a cancel,
    is reported like a failed run: UNKNOWN_ERROR with [Exit code: null] and
    the captured stderr in the details. *)
Theorem signal_exit_is_unknown_error c (reg : Registry) pre now post s' :
  steps c (spawned c reg) (pre ++ (now, ProcessExit None) :: post) s' ->
  Forall quiet pre ->
  settled s'
  = Some (ClaudeCodeExecutionResult.mk false None
            (Some (ErrorInfo.mk UNKNOWN_ERROR
                     "Generation failed - please try again or rephrase your description"
                     (Some ("Exit code: null, stderr: " +:+ stderr_of pre))))
            (now - Call.startTime c)).
Proof.
  intros Hsteps Hq. rewrite (first_terminal _ _ _ _ _ _ _ Hsteps Hq eq_refl). reflexivity.
Qed.

Lemma signal_exit_is_unknown_error_witness :
  settled (onExit ex_call 1030 None
             (State.mk "" "" false true [] []
                (cancelGeneration 1020 "req-1"
                   (State.activeProcesses (spawned ex_call ex_registry))).1.2))
  = Some (ClaudeCodeExecutionResult.mk false None
            (Some (ErrorInfo.mk UNKNOWN_ERROR
                     "Generation failed - please try again or rephrase your description"
                     (Some "Exit code: null, stderr: ")))
            30).
Proof.
  refine (signal_exit_is_unknown_error ex_call ex_registry
            [(1020%Z, Cancel "req-1")] 1030 [] _ _ _).
  - eapply steps_cons; [apply step_cancel|].
    eapply steps_cons; [apply step_exit|].
    apply steps_nil.
  - repeat constructor.
Defined.

(** ** The process runner: the registry and the results *)

Lemma step_released c s e s' : step c s e s' -> released c s -> released c s'.
Proof.
  intros Hstep [Htp Hreg]. destruct Hstep; unfold released; simpl.
  - congruence.
  - auto.
  - auto.
  - split; [reflexivity|]. intros id Hid. apply unregister_lookup, Hid.
  - split; [reflexivity|]. intros id Hid. apply unregister_lookup, Hid.
  - split; [exact Htp|]. intros id Hid. apply cancelGeneration_registry. auto.
Qed.

Lemma steps_released c s tr s' : steps c s tr s' -> released c s -> released c s'.
Proof.
  induction 1 as [|s e s1 tr s2 Hstep _ IH]; intros Hinv; [exact Hinv|].
  apply IH. eapply step_released; eassumption.
Qed.

Lemma step_terminal_released c s now e s' :
  step c s (now, e) s' -> terminal e = true -> released c s'.
Proof.
  intros Hstep Hterm. inversion Hstep; subst; try discriminate Hterm;
    (split; [reflexivity|]); intros id Hid; simpl; apply unregister_lookup, Hid.
Qed.

(** X9: every terminal transition unregisters: from any state of a call,
    once a trace holds a timeout, a process error or a process exit, the
    call's request id is not in the registry and its timer is not armed,
    whatever follows. *)
Theorem terminal_event_unregisters c s tr s' id :
  steps c s tr s' ->
  ended tr ->
  given (Call.requestId c) = Some id ->
  State.activeProcesses s' !! id = None /\ State.timerPending s' = false.
Proof.
  intros Hsteps Hended Hid.
  assert (Hrel : released c s').
  { induction Hsteps as [|s e s1 tr s2 Hstep Hrest IH]; [inversion Hended|].
    inversion Hended as [? ? Hterm|? ? Hlater]; subst.
    - destruct e as [now e]. apply (steps_released _ _ _ _ Hrest).
      eapply step_terminal_released; eassumption.
    - apply IH, Hlater. }
  destruct Hrel as [Htp Hreg]. auto.
Qed.

Lemma terminal_event_unregisters_witness :
  State.activeProcesses
    (onStdout "late"
       (onError ex_call 1020 (Errno.mk None "EPIPE") (spawned ex_call ex_registry)))
  !! "req-1" = None.
Proof.
  refine (proj1 (terminal_event_unregisters ex_call (spawned ex_call ex_registry)
                   [(1020%Z, ProcessError (Errno.mk None "EPIPE"));
                    (1021%Z, StdoutData "late")] _ "req-1" _ _ eq_refl)).
  - eapply steps_cons; [apply step_error|].
    eapply steps_cons; [apply step_stdout|].
    apply steps_nil.
  - left. reflexivity.
Defined.

Lemma unregister_other c (reg : Registry) id :
  given (Call.requestId c) <> Some id -> unregister c reg !! id = reg !! id.
Proof.
  intros Hid. unfold unregister. destruct (given (Call.requestId c)) as [own|]; [|reflexivity].
  apply lookup_delete_ne. congruence.
Qed.

Lemma cancelGeneration_other now requestId (reg : Registry) id :
  requestId <> id -> (cancelGeneration now requestId reg).1.2 !! id = reg !! id.
Proof.
  intros Hne. unfold cancelGeneration. destruct (reg !! requestId); simpl; [|reflexivity].
  apply lookup_delete_ne, Hne.
Qed.

(** X10: a call leaves the other requests alone: the registry entry of an
    id that is not the call's own is the same after any events of the
    call, unless a caller cancels that id. *)
Theorem other_requests_untouched c s tr s' id :
  steps c s tr s' ->
  given (Call.requestId c) <> Some id ->
  never_cancels id tr ->
  State.activeProcesses s' !! id = State.activeProcesses s !! id.
Proof.
  induction 1 as [|s e s1 tr s2 Hstep _ IH]; intros Hid Hnc; [reflexivity|].
  inversion Hnc as [|? ? He Hnc']; subst. rewrite (IH Hid Hnc'). clear IH.
  destruct Hstep; simpl; try reflexivity; try (apply unregister_other, Hid).
  apply cancelGeneration_other. simpl in He. congruence.
Qed.

Lemma other_requests_untouched_witness :
  State.activeProcesses
    (onExit ex_call 1030 (Some 1%Z) (onTimeout ex_call 1050 (spawned ex_call ex_registry)))
  !! "req-0" = Some (ActiveProcess.mk {| pid := 4000 |} 900).
Proof.
  rewrite (other_requests_untouched ex_call (spawned ex_call ex_registry)
             [(1050%Z, TimerFires); (1030%Z, ProcessExit (Some 1%Z))] _ "req-0").
  - reflexivity.
  - eapply steps_cons; [apply step_timeout; reflexivity|].
    eapply steps_cons; [apply step_exit|].
    apply steps_nil.
  - discriminate.
  - repeat constructor; discriminate.
Defined.

Lemma timeoutResult_runner c now : runner_result (timeoutResult c now).
Proof. right. repeat split. do 3 eexists. split; [reflexivity|]. left. reflexivity. Qed.

Lemma errorResult_runner c now err : runner_result (errorResult c now err).
Proof.
  right. unfold errorResult.
  destruct (Errno.code err) as [code|].
  - destruct (String.eqb_spec code "ENOENT") as [->|Hne].
    + repeat split. do 3 eexists. split; [reflexivity|]. right. left. reflexivity.
    + assert (H : forall A (x y : A),
                 match code with "ENOENT" => x | _ => y end = y).
      { intros A x y.
        repeat (destruct code as [|[[] [] [] [] [] [] [] []] code]; try reflexivity).
        contradiction. }
      rewrite H. repeat split. do 3 eexists. split; [reflexivity|]. right. right. left.
      reflexivity.
  - repeat split. do 3 eexists. split; [reflexivity|]. right. right. left. reflexivity.
Qed.

Lemma exitResult_runner c now code s : runner_result (exitResult c now code s).
Proof.
  unfold exitResult. destruct code as [[| |]|].
  - left. repeat split. discriminate.
  - right. repeat split. do 3 eexists. split; [reflexivity|]. right. right. left. reflexivity.
  - right. repeat split. do 3 eexists. split; [reflexivity|]. right. right. left. reflexivity.
  - right. repeat split. do 3 eexists. split; [reflexivity|]. right. right. left. reflexivity.
Qed.

Lemma step_runner c s e s' :
  step c s e s' -> Forall runner_result (State.resolved s) ->
  Forall runner_result (State.resolved s').
Proof.
  intros Hstep Hall. destruct Hstep; simpl; try exact Hall.
  - apply Forall_app. split; [exact Hall|]. constructor; [apply timeoutResult_runner | constructor].
  - destruct (State.timedOut s); [exact Hall|].
    apply Forall_app. split; [exact Hall|]. constructor; [apply errorResult_runner | constructor].
  - destruct (State.timedOut s); [exact Hall|].
    apply Forall_app. split; [exact Hall|]. constructor; [apply exitResult_runner | constructor].
Qed.

Lemma steps_runner c s tr s' :
  steps c s tr s' -> Forall runner_result (State.resolved s) ->
  Forall runner_result (State.resolved s').
Proof.
  induction 1 as [|s e s1 tr s2 Hstep _ IH]; intros Hall; [exact Hall|].
  apply IH. eapply step_runner; eassumption.
Qed.

(** X11: whatever happens to a call, every value its handlers pass to
    [resolve] is either a success with an output and no error, or a
    failure with no output and an error whose code is TIMEOUT,
    COMMAND_NOT_FOUND or UNKNOWN_ERROR and whose details are present. *)
Theorem runner_results_well_formed c (reg : Registry) tr s' :
  steps c (spawned c reg) tr s' ->
  Forall runner_result (State.resolved s').
Proof.
  intros Hsteps. apply (steps_runner _ _ _ _ Hsteps). constructor.
Qed.

Lemma runner_results_well_formed_witness :
  Forall runner_result
    (State.resolved
       (onExit ex_call 1030 (Some 0%Z)
          (onError ex_call 1020 (Errno.mk (Some "EACCES") "denied")
             (spawned ex_call ex_registry)))).
Proof.
  apply (runner_results_well_formed ex_call ex_registry
           [(1020%Z, ProcessError (Errno.mk (Some "EACCES") "denied"));
            (1030%Z, ProcessExit (Some 0%Z))]).
  eapply steps_cons; [apply step_error|].
  eapply steps_cons; [apply step_exit|].
  apply steps_nil.
Defined.

(** ** Cancellation *)

(** X12: a call started with a request id can be cancelled under that id:
    the cancel reports the time since the call's start, signals the call's
    own process (not one registered under the same id before), removes the
    entry and leaves every other entry as it was before the call. *)
Theorem cancel_reaches_started_call c (reg : Registry) id now :
  given (Call.requestId c) = Some id ->
  let res := cancelGeneration now id (State.activeProcesses (spawned c reg)) in
  res.1.1 = CancelResult.mk true (Some (now - Call.startTime c)%Z)
  /\ signals_and_timers res.2
     = [inl (Call.childProcess c, SIGTERM); inr (Call.childProcess c, 500%Z)]
  /\ res.1.2 !! id = None
  /\ forall other, other <> id -> res.1.2 !! other = reg !! other.
Proof.
  intros Hid res. subst res. unfold spawned, register. cbn [State.activeProcesses].
  rewrite Hid. unfold cancelGeneration. rewrite lookup_insert_eq. simpl.
  repeat split.
  - apply lookup_delete_eq.
  - intros other Hne. rewrite lookup_delete_ne by congruence.
    apply lookup_insert_ne. congruence.
Qed.

Lemma cancel_reaches_started_call_witness :
  (cancelGeneration 1040 "req-1" (State.activeProcesses (spawned ex_call ex_registry))).1.1
  = CancelResult.mk true (Some 40%Z).
Proof.
  exact (proj1 (cancel_reaches_started_call ex_call ex_registry "req-1" 1040 eq_refl)).
Defined.

(** X13: cancelling is idempotent and local: a second cancel of the same id
    finds nothing, reports [cancelled: false], sends no signal and leaves
    the registry as the first left it; the first leaves every other id's
    entry untouched. *)
Theorem cancel_twice now now' requestId (activeProcesses : Registry) :
  let first := cancelGeneration now requestId activeProcesses in
  let second := cancelGeneration now' requestId first.1.2 in
  second.1.1 = CancelResult.mk false None
  /\ second.1.2 = first.1.2
  /\ signals_and_timers second.2 = []
  /\ forall other, other <> requestId -> first.1.2 !! other = activeProcesses !! other.
Proof.
  intros first second.
  assert (Hgone : first.1.2 !! requestId = None).
  { subst first. unfold cancelGeneration.
    destruct (activeProcesses !! requestId) eqn:Hl; simpl; [apply lookup_delete_eq | exact Hl]. }
  subst second. unfold cancelGeneration at 1 2 3. rewrite Hgone. simpl.
  repeat split. intros other Hne. apply cancelGeneration_other. congruence.
Qed.

(** ** The reference resolver: idempotence and frame *)

Lemma with_prop_same k v (o : object) : prop k o = Some v -> with_prop k v o = o.
Proof.
  induction o as [|[k0 v0] o IH]; simpl; [discriminate|].
  destruct (String.eqb k0 k).
  - intros [= ->]. reflexivity.
  - intros H. rewrite (IH H). reflexivity.
Qed.

Lemma same_skill_with_prop k v skillData skill :
  k <> "name" -> k <> "scope" ->
  same_skill (with_prop k v skillData) skill = same_skill skillData skill.
Proof.
  intros Hn Hs. unfold same_skill. rewrite !prop_with_prop.
  destruct (String.eqb_spec k "name"); [contradiction|].
  destruct (String.eqb_spec k "scope"); [contradiction|]. reflexivity.
Qed.

Lemma find_ext {A} (p q : A -> bool) (l : list A) :
  (forall x, p x = q x) -> find p l = find q l.
Proof.
  intros H. induction l as [|a l IH]; simpl; [reflexivity|]. rewrite H, IH. reflexivity.
Qed.

Lemma resolveNode_twice availableSkills node :
  resolveNode availableSkills (resolveNode availableSkills node)
  = resolveNode availableSkills node.
Proof.
  unfold resolveNode at 2.
  destruct (negb (WorkflowNode.type node =? "skill")) eqn:Hty.
  - unfold resolveNode. rewrite Hty. reflexivity.
  - destruct (find (same_skill (WorkflowNode.data node)) availableSkills) as [m|] eqn:Hfind.
    + unfold resolveNode. cbn [WorkflowNode.id WorkflowNode.type WorkflowNode.position
                               WorkflowNode.data]. rewrite Hty.
      rewrite (find_ext _ (same_skill (WorkflowNode.data node))).
      * rewrite Hfind. f_equal.
        rewrite (with_prop_same "skillPath").
        -- apply with_prop_same. rewrite prop_with_prop. reflexivity.
        -- rewrite !prop_with_prop. reflexivity.
      * intros skill. rewrite !same_skill_with_prop by discriminate. reflexivity.
    + unfold resolveNode. cbn [WorkflowNode.id WorkflowNode.type WorkflowNode.position
                               WorkflowNode.data]. rewrite Hty.
      rewrite (find_ext _ (same_skill (WorkflowNode.data node))).
      * rewrite Hfind. f_equal. apply with_prop_same. rewrite prop_with_prop. reflexivity.
      * intros skill. rewrite !same_skill_with_prop by discriminate. reflexivity.
Qed.

(** X14: resolving is idempotent: resolving an already resolved workflow
    against the same catalogue changes nothing. *)
Theorem resolveSkillPaths_idempotent workflow availableSkills :
  resolveSkillPaths (resolveSkillPaths workflow availableSkills) availableSkills
  = resolveSkillPaths workflow availableSkills.
Proof.
  unfold resolveSkillPaths.
  cbn [Workflow.id Workflow.name Workflow.nodes Workflow.connections].
  f_equal. rewrite map_map. apply map_ext. intros node. apply resolveNode_twice.
Qed.

Lemma resolveNode_frame availableSkills node :
  WorkflowNode.id (resolveNode availableSkills node) = WorkflowNode.id node
  /\ WorkflowNode.type (resolveNode availableSkills node) = WorkflowNode.type node
  /\ WorkflowNode.position (resolveNode availableSkills node) = WorkflowNode.position node.
Proof.
  unfold resolveNode. destruct (negb (WorkflowNode.type node =? "skill")); [auto|].
  destruct (find _ availableSkills); auto.
Qed.

Lemma resolved_nodes_frame availableSkills nodes :
  map WorkflowNode.id (map (resolveNode availableSkills) nodes) = map WorkflowNode.id nodes
  /\ map WorkflowNode.type (map (resolveNode availableSkills) nodes)
     = map WorkflowNode.type nodes
  /\ map WorkflowNode.position (map (resolveNode availableSkills) nodes)
     = map WorkflowNode.position nodes.
Proof.
  rewrite !map_map. repeat split; apply map_ext; intros node; apply resolveNode_frame.
Qed.

(** X15: the resolver keeps the shape of the graph: the nodes come back in
    the same order with the same ids, types and positions, and the
    connections are the same, so every connection still names the nodes it
    named; a workflow without skill nodes comes back as it was. *)
Theorem resolveSkillPaths_keeps_graph workflow availableSkills :
  let resolved := resolveSkillPaths workflow availableSkills in
  map WorkflowNode.id (Workflow.nodes resolved) = map WorkflowNode.id (Workflow.nodes workflow)
  /\ map WorkflowNode.type (Workflow.nodes resolved)
     = map WorkflowNode.type (Workflow.nodes workflow)
  /\ map WorkflowNode.position (Workflow.nodes resolved)
     = map WorkflowNode.position (Workflow.nodes workflow)
  /\ Workflow.connections resolved = Workflow.connections workflow
  /\ (Forall (fun node => WorkflowNode.type node <> "skill") (Workflow.nodes workflow) ->
      resolved = workflow).
Proof.
  intros resolved. subst resolved. unfold resolveSkillPaths.
  cbn [Workflow.nodes Workflow.connections].
  destruct (resolved_nodes_frame availableSkills (Workflow.nodes workflow)) as (Hi & Ht & Hp).
  split; [exact Hi|]. split; [exact Ht|]. split; [exact Hp|]. split; [reflexivity|].
  intros Hnone. clear Hi Ht Hp.
  destruct workflow as [id name nodes connections]. simpl in *. f_equal.
  induction Hnone as [|node l Hty _ IH]; simpl; [reflexivity|].
  rewrite IH. f_equal. unfold resolveNode.
  destruct (String.eqb_spec (WorkflowNode.type node) "skill"); [contradiction | reflexivity].
Qed.

Lemma resolveSkillPaths_keeps_graph_witness :
  resolveSkillPaths (ex_workflow "A") ex_catalogue = ex_workflow "A".
Proof.
  apply (resolveSkillPaths_keeps_graph (ex_workflow "A") ex_catalogue).
  repeat constructor; discriminate.
Defined.

(** ** The orchestrators: what a result holds *)

(** X16: the result of [refineWorkflow] is always one of three shapes: a
    failure with an error and nothing else; a clarification alone; or a
    workflow alone, and then the workflow has a non-empty id and the
    validator accepted it. *)
Theorem refineWorkflow_result_shape env useSkills :
  let r := refineWorkflow env useSkills in
  (RefinementResult.success r = false
   /\ RefinementResult.error r <> None
   /\ RefinementResult.refinedWorkflow r = None
   /\ RefinementResult.clarificationMessage r = None)
  \/ (RefinementResult.success r = true
      /\ RefinementResult.error r = None
      /\ RefinementResult.refinedWorkflow r = None
      /\ RefinementResult.clarificationMessage r <> None)
  \/ (RefinementResult.success r = true
      /\ RefinementResult.error r = None
      /\ RefinementResult.clarificationMessage r = None
      /\ exists workflow,
           RefinementResult.refinedWorkflow r = Some workflow
           /\ Workflow.id workflow <> ""
           /\ Validation.valid (Env.validateAIGeneratedWorkflow env workflow) = true).
Proof.
  intros r. subst r. unfold refineWorkflow.
  destruct (loadContext env useSkills) as [[details|availableSkills]|m];
    try (left; repeat split; discriminate).
  destruct (cliOutput (Env.executeClaudeCodeCLI env)) as [output|];
    [|left; repeat split; discriminate].
  destruct (isClarificationMessage output); [right; left; repeat split; discriminate|].
  destruct (parseClaudeCodeOutput env output) as [parsed|];
    [|left; repeat split; discriminate].
  destruct (given (Parsed.id parsed)) as [id|] eqn:Hid;
    [|left; repeat split; discriminate].
  destruct (Parsed.nodes parsed) as [nodes|]; [|left; repeat split; discriminate].
  destruct (Parsed.connections parsed) as [connections|];
    [|left; repeat split; discriminate].
  match goal with
  | |- context [Env.validateAIGeneratedWorkflow env ?w] =>
      destruct (Validation.valid (Env.validateAIGeneratedWorkflow env w)) eqn:Hvalid
  end; cbn [negb]; [|left; repeat split; discriminate].
  right. right. repeat split. eexists. split; [reflexivity|]. split; [|exact Hvalid].
  assert (Hne : id <> "").
  { unfold given in Hid. destruct (Parsed.id parsed) as [i|]; [|discriminate].
    destruct (String.eqb_spec i ""); [discriminate|]. congruence. }
  destruct useSkills; exact Hne.
Qed.

Lemma not_prohibited_types (l1 l2 : list WorkflowNode.t) :
  map WorkflowNode.type l1 = map WorkflowNode.type l2 ->
  List.filter is_prohibited l2 = [] -> List.filter is_prohibited l1 = [].
Proof.
  revert l2. induction l1 as [|a l1 IH]; intros [|b l2] Hmap Hnone;
    try discriminate Hmap; [reflexivity|].
  cbn [map] in Hmap. injection Hmap as Hty Hrest. cbn [List.filter] in *.
  assert (Hsame : is_prohibited a = is_prohibited b).
  { unfold is_prohibited. rewrite Hty. reflexivity. }
  rewrite Hsame. destruct (is_prohibited b); [discriminate|]. apply (IH l2); assumption.
Qed.

(** X17: an inner workflow that [refineSubAgentFlow] returns never holds a
    node of a prohibited type and never has more than 30 nodes, with or
    without skill resolution; and it comes with success and no error. *)
Theorem refineSubAgentFlow_result_safe env useSkills inner :
  SubAgentFlowRefinementResult.refinedInnerWorkflow (refineSubAgentFlow env useSkills)
  = Some inner ->
  Forall (fun node => ~ In (WorkflowNode.type node) SUBAGENTFLOW_PROHIBITED_NODE_TYPES)
    (InnerWorkflow.nodes inner)
  /\ length (InnerWorkflow.nodes inner) <= 30
  /\ SubAgentFlowRefinementResult.success (refineSubAgentFlow env useSkills) = true
  /\ SubAgentFlowRefinementResult.error (refineSubAgentFlow env useSkills) = None.
Proof.
  unfold refineSubAgentFlow.
  destruct (loadContext env useSkills) as [[details|availableSkills]|m]; try discriminate.
  destruct (cliOutput (Env.executeClaudeCodeCLI env)) as [output|]; [|discriminate].
  destruct (isClarificationMessage output); [discriminate|].
  destruct (parseClaudeCodeOutput env output) as [parsed|]; [|discriminate].
  destruct (Parsed.nodes parsed) as [nodes|]; [|discriminate].
  destruct (Parsed.connections parsed) as [connections|]; [|discriminate].
  unfold validateSubAgentFlowNodes. cbn [NodeValidation.valid InnerWorkflow.nodes].
  destruct (List.filter is_prohibited nodes) as [|bad rest] eqn:Hfilter; [|discriminate].
  cbn [map length Nat.eqb negb].
  destruct (SUBAGENTFLOW_MAX_NODES <? length nodes)%nat eqn:Hcap; [discriminate|].
  cbn [SubAgentFlowRefinementResult.refinedInnerWorkflow
       SubAgentFlowRefinementResult.success SubAgentFlowRefinementResult.error].
  intros [= <-]. cbn [InnerWorkflow.nodes].
  apply Nat.ltb_ge in Hcap. unfold SUBAGENTFLOW_MAX_NODES in Hcap.
  assert (Hshape : map WorkflowNode.type
                     (if useSkills
                      then Workflow.nodes
                             (resolveSkillPaths (Workflow.mk "temp" "temp" nodes connections)
                                availableSkills)
                      else nodes)
                   = map WorkflowNode.type nodes).
  { destruct useSkills; [|reflexivity]. apply resolved_nodes_frame. }
  split; [|split; [|split; reflexivity]].
  - apply (not_prohibited_types _ _ Hshape) in Hfilter.
    apply List.Forall_forall. intros node Hin Hbad.
    assert (Hx : In node (List.filter is_prohibited
                            (if useSkills
                             then Workflow.nodes
                                    (resolveSkillPaths
                                       (Workflow.mk "temp" "temp" nodes connections)
                                       availableSkills)
                             else nodes))).
    { apply filter_In. split; [exact Hin | apply includes_In, Hbad]. }
    rewrite Hfilter in Hx. destruct Hx.
  - destruct useSkills; [|exact Hcap].
    unfold resolveSkillPaths. cbn [Workflow.nodes]. rewrite length_map. exact Hcap.
Qed.

Lemma refineSubAgentFlow_result_safe_witness :
  length [ WorkflowNode.mk "start-1" "start" (100, 200)%Z [];
           WorkflowNode.mk "end-1" "end" (450, 200)%Z [] ] <= 30.
Proof.
  exact (proj1 (proj2 (refineSubAgentFlow_result_safe (ex_env "{ ... }" ex_parsed) true
                         (InnerWorkflow.mk
                            [ WorkflowNode.mk "start-1" "start" (100, 200)%Z [];
                              WorkflowNode.mk "end-1" "end" (450, 200)%Z [] ]
                            [ Connection.mk "start-1" "end-1" "out" "in" ])
                         eq_refl))).
Defined.

(** ** The orchestrators: failures of the run and of the output *)

Lemma settled_In s r : settled s = Some r -> In r (State.resolved s).
Proof.
  unfold settled. destruct (State.resolved s); [discriminate|].
  intros [= ->]. left. reflexivity.
Qed.

(** X18: a failure of the run reaches the caller unchanged: when the value
    the runner's promise took is a failure, it carries an error (its code
    is TIMEOUT, COMMAND_NOT_FOUND or UNKNOWN_ERROR, with details), and both
    orchestrators return that very error with the runner's execution
    time, and neither workflow nor clarification. *)
Theorem run_failure_surfaces env useSkills availableSkills c (reg : Registry) tr s' :
  loadContext env useSkills = Returned (inr availableSkills) ->
  steps c (spawned c reg) tr s' ->
  settled s' = Some (Env.executeClaudeCodeCLI env) ->
  ClaudeCodeExecutionResult.success (Env.executeClaudeCodeCLI env) = false ->
  exists code message details,
    ClaudeCodeExecutionResult.error (Env.executeClaudeCodeCLI env)
    = Some (ErrorInfo.mk code message (Some details))
    /\ In code [TIMEOUT; COMMAND_NOT_FOUND; UNKNOWN_ERROR]
    /\ refineWorkflow env useSkills
       = RefinementResult.mk false None None
           (ClaudeCodeExecutionResult.error (Env.executeClaudeCodeCLI env))
           (ClaudeCodeExecutionResult.executionTimeMs (Env.executeClaudeCodeCLI env))
    /\ refineSubAgentFlow env useSkills
       = SubAgentFlowRefinementResult.mk false None None
           (ClaudeCodeExecutionResult.error (Env.executeClaudeCodeCLI env))
           (ClaudeCodeExecutionResult.executionTimeMs (Env.executeClaudeCodeCLI env)).
Proof.
  intros Hctx Hsteps Hsettled Hfail.
  assert (Hr : runner_result (Env.executeClaudeCodeCLI env)).
  { assert (Hall : Forall runner_result (State.resolved s'))
      by (apply (steps_runner _ _ _ _ Hsteps); constructor).
    rewrite List.Forall_forall in Hall. apply Hall, settled_In, Hsettled. }
  destruct Hr as [(Hok & _)|(_ & _ & code & message & details & Herr & Hcode)]; [congruence|].
  exists code, message, details. split; [exact Herr|]. split; [exact Hcode|].
  unfold refineWorkflow, refineSubAgentFlow, cliOutput, cliError.
  rewrite Hctx, Hfail, Herr. split; reflexivity.
Qed.

Lemma run_failure_surfaces_witness :
  refineWorkflow ex_timeout_env true
  = RefinementResult.mk false None None
      (Some (ErrorInfo.mk TIMEOUT
               "AI generation timed out after 0 seconds. Try simplifying your description."
               (Some "Timeout after 50ms")))
      50
  /\ refineSubAgentFlow ex_timeout_env true
     = SubAgentFlowRefinementResult.mk false None None
         (Some (ErrorInfo.mk TIMEOUT
                  "AI generation timed out after 0 seconds. Try simplifying your description."
                  (Some "Timeout after 50ms")))
         50.
Proof.
  assert (Hsteps : steps ex_call (spawned ex_call ex_registry) [(1050%Z, TimerFires)]
                     (onTimeout ex_call 1050 (spawned ex_call ex_registry)))
    by (eapply steps_cons; [apply step_timeout; reflexivity | apply steps_nil]).
  destruct (run_failure_surfaces ex_timeout_env true ex_catalogue ex_call ex_registry
              [(1050%Z, TimerFires)] (onTimeout ex_call 1050 (spawned ex_call ex_registry))
              eq_refl Hsteps eq_refl eq_refl)
    as (code & message & details & _ & _ & Hworkflow & Hflow).
  split; [exact Hworkflow | exact Hflow].
Defined.

(** X19: a run that exits with code 0 but prints nothing, or only white
    space, fails the request: the trimmed output is empty, which the
    orchestrators treat like a failed run, and as the run carries no
    error they report UNKNOWN_ERROR without details. *)
Theorem blank_output_is_unknown_error env useSkills availableSkills c now s :
  loadContext env useSkills = Returned (inr availableSkills) ->
  Env.executeClaudeCodeCLI env = exitResult c now (Some 0%Z) s ->
  trim (State.stdout s) = "" ->
  refineWorkflow env useSkills
  = RefinementResult.mk false None None
      (Some (ErrorInfo.mk UNKNOWN_ERROR "Unknown error occurred during CLI execution" None))
      (now - Call.startTime c)
  /\ refineSubAgentFlow env useSkills
     = SubAgentFlowRefinementResult.mk false None None
         (Some (ErrorInfo.mk UNKNOWN_ERROR "Unknown error occurred during CLI execution" None))
         (now - Call.startTime c).
Proof.
  intros Hctx Hcli Hblank.
  unfold refineWorkflow, refineSubAgentFlow, cliOutput, cliError.
  rewrite Hctx, Hcli. unfold exitResult.
  cbn [ClaudeCodeExecutionResult.success ClaudeCodeExecutionResult.output
       ClaudeCodeExecutionResult.error ClaudeCodeExecutionResult.executionTimeMs].
  rewrite Hblank. split; reflexivity.
Qed.

Lemma blank_output_is_unknown_error_witness :
  refineWorkflow ex_blank_env true
  = RefinementResult.mk false None None
      (Some (ErrorInfo.mk UNKNOWN_ERROR "Unknown error occurred during CLI execution" None))
      30.
Proof.
  exact (proj1 (blank_output_is_unknown_error ex_blank_env true ex_catalogue ex_call 1030
                  (onStdout ("  " +:+ newline) (spawned ex_call ex_registry))
                  eq_refl eq_refl eq_refl)).
Defined.

(** X20: the node cap of a nested flow is 30, inclusive: a parsed fragment
    without prohibited nodes is rejected with VALIDATION_ERROR, its node
    count in the details, exactly when it has more than 30 nodes;
    otherwise it is returned, its skill nodes resolved when skills are in
    use. *)
Theorem node_cap_is_thirty env useSkills availableSkills output parsed nodes connections :
  loadContext env useSkills = Returned (inr availableSkills) ->
  cliOutput (Env.executeClaudeCodeCLI env) = Some output ->
  isClarificationMessage output = false ->
  parseClaudeCodeOutput env output = Some parsed ->
  Parsed.nodes parsed = Some nodes ->
  Parsed.connections parsed = Some connections ->
  Forall (fun node => ~ In (WorkflowNode.type node) SUBAGENTFLOW_PROHIBITED_NODE_TYPES) nodes ->
  let cliTime := ClaudeCodeExecutionResult.executionTimeMs (Env.executeClaudeCodeCLI env) in
  (30 < length nodes ->
   refineSubAgentFlow env useSkills
   = SubAgentFlowRefinementResult.mk false None None
       (Some (ErrorInfo.mk VALIDATION_ERROR "Sub-Agent Flow cannot exceed 30 nodes"
                (Some ("Current count: " +:+ string_of_Z (Z.of_nat (length nodes))))))
       cliTime)
  /\ (length nodes <= 30 ->
      refineSubAgentFlow env useSkills
      = SubAgentFlowRefinementResult.mk true
          (Some (InnerWorkflow.mk
                   (if useSkills then map (resolveNode availableSkills) nodes else nodes)
                   connections))
          None None (Env.endTime env - Env.startTime env)).
Proof.
  intros Hctx Hcli Hclar Hparse Hnodes Hconns Hclean cliTime.
  assert (Hfilter : List.filter is_prohibited nodes = []).
  { apply filter_none. intros node Hin. rewrite List.Forall_forall in Hclean.
    destruct (is_prohibited node) eqn:Hp; [|reflexivity].
    exfalso. apply (Hclean node Hin). apply includes_In. exact Hp. }
  unfold refineSubAgentFlow. rewrite Hctx, Hcli, Hclar, Hparse, Hnodes, Hconns.
  unfold validateSubAgentFlowNodes. cbn [NodeValidation.valid InnerWorkflow.nodes].
  rewrite Hfilter. cbn [map length Nat.eqb negb]. split.
  - intros Hmany. apply Nat.ltb_lt in Hmany. unfold SUBAGENTFLOW_MAX_NODES at 1.
    rewrite Hmany. reflexivity.
  - intros Hfew. apply Nat.ltb_ge in Hfew. unfold SUBAGENTFLOW_MAX_NODES. rewrite Hfew.
    destruct useSkills; reflexivity.
Qed.

Lemma node_cap_is_thirty_witness :
  refineSubAgentFlow (ex_env "{ ... }" ex_crowd) true
  = SubAgentFlowRefinementResult.mk false None None
      (Some (ErrorInfo.mk VALIDATION_ERROR "Sub-Agent Flow cannot exceed 30 nodes"
               (Some "Current count: 31")))
      1234.
Proof.
  refine (proj1 (node_cap_is_thirty (ex_env "{ ... }" ex_crowd) true ex_catalogue "{ ... }"
                   ex_crowd (repeat (WorkflowNode.mk "p" "prompt" (0, 0)%Z []) 31) []
                   eq_refl eq_refl eq_refl eq_refl eq_refl eq_refl _) _).
  - apply List.Forall_forall. intros node Hin. apply repeat_spec in Hin. subst node.
    simpl. intros [H|[H|[H|[]]]]; discriminate.
  - simpl. lia.
Defined.

(** X21: in workflow mode a parsed value is rejected for missing fields
    exactly when its id is absent or empty, or its nodes or its connections
    are absent; an empty list of nodes or of connections is accepted. *)
Theorem required_fields env useSkills availableSkills output parsed :
  loadContext env useSkills = Returned (inr availableSkills) ->
  cliOutput (Env.executeClaudeCodeCLI env) = Some output ->
  isClarificationMessage output = false ->
  parseClaudeCodeOutput env output = Some parsed ->
  (refineWorkflow env useSkills
   = RefinementResult.mk false None None (Some missingFields)
       (ClaudeCodeExecutionResult.executionTimeMs (Env.executeClaudeCodeCLI env))
   <-> Parsed.id parsed = None \/ Parsed.id parsed = Some ""
       \/ Parsed.nodes parsed = None \/ Parsed.connections parsed = None).
Proof.
  intros Hctx Hcli Hclar Hparse.
  unfold refineWorkflow. rewrite Hctx, Hcli, Hclar, Hparse. unfold given.
  destruct (Parsed.id parsed) as [id|]; [|split; [auto | reflexivity]].
  destruct (String.eqb_spec id "") as [->|Hid]; [split; [auto | reflexivity]|].
  destruct (Parsed.nodes parsed) as [nodes|]; [|split; [auto | reflexivity]].
  destruct (Parsed.connections parsed) as [connections|]; [|split; [auto | reflexivity]].
  split.
  - match goal with
    | |- context [Env.validateAIGeneratedWorkflow env ?w] =>
        destruct (Validation.valid (Env.validateAIGeneratedWorkflow env w))
    end; discriminate.
  - intros [H|[H|[H|H]]]; try discriminate H. congruence.
Qed.

Lemma required_fields_witness :
  refineWorkflow (ex_env "{ ... }" ex_fragment) true
  = RefinementResult.mk false None None (Some missingFields) 1234.
Proof.
  exact (proj2 (required_fields (ex_env "{ ... }" ex_fragment) true ex_catalogue "{ ... }"
                  ex_fragment eq_refl eq_refl eq_refl eq_refl)
           (or_introl eq_refl)).
Defined.

(** X22: with [useSkills] off the skill scan has no part in the result,
    whatever it would have returned or thrown; with [useSkills] on, a scan
    that throws fails the request with UNKNOWN_ERROR before any run. *)
Theorem skill_scan_only_when_used env scan :
  refineWorkflow (with_skills env scan) false = refineWorkflow env false
  /\ refineSubAgentFlow (with_skills env scan) false = refineSubAgentFlow env false
  /\ forall m, scan = Thrown m ->
       exists message,
         refineWorkflow (with_skills env scan) true
         = RefinementResult.mk false None None (Some (unexpectedError message))
             (Env.endTime env - Env.startTime env)
         /\ refineSubAgentFlow (with_skills env scan) true
            = SubAgentFlowRefinementResult.mk false None None
                (Some (unexpectedError message)) (Env.endTime env - Env.startTime env).
Proof.
  split; [reflexivity|]. split; [reflexivity|].
  intros m ->. unfold refineWorkflow, refineSubAgentFlow, loadContext, with_skills.
  cbn [Env.loadWorkflowSchema Env.scanAllSkills Env.startTime Env.endTime].
  destruct (Env.loadWorkflowSchema env) as [schemaResult|m'].
  - exists m. split; reflexivity.
  - exists m'. split; reflexivity.
Qed.

(** ** The classifier and the parser: fenced blocks *)

Lemma strip_prefix_app p s : strip_prefix p (p +:+ s) = Some s.
Proof.
  induction p as [|a p IH]; [reflexivity|].
  change (strip_prefix (String a p) (String a (p +:+ s)) = Some s).
  cbn [strip_prefix]. rewrite Ascii.eqb_refl. exact IH.
Qed.

Lemma backtick_free_app a b :
  backtick_free (a +:+ b) = backtick_free a && backtick_free b.
Proof.
  induction a as [|c a IH]; [reflexivity|].
  change (backtick_free (String c (a +:+ b))
          = backtick_free (String c a) && backtick_free b).
  cbn [backtick_free]. rewrite IH, andb_assoc. reflexivity.
Qed.

(** No fence starts at a character that is not a backtick. *)
Lemma no_fence_here c rest :
  Ascii.eqb c "`" = false ->
  strip_prefix fence_open (String c rest) = None
  /\ strip_prefix fence_close (String c rest) = None.
Proof.
  intros Hc. unfold fence_open, fence_close. cbn [strip_prefix].
  rewrite (Ascii.eqb_sym "`" c), Hc. split; reflexivity.
Qed.

Lemma after_first_close body post :
  backtick_free body = true ->
  after_first fence_close (body +:+ fence_close +:+ post) = Some post.
Proof.
  induction body as [|c body IH]; intros Hfree.
  - change (after_first fence_close (fence_close +:+ post) = Some post).
    destruct post; reflexivity.
  - cbn [backtick_free] in Hfree. apply andb_true_iff in Hfree. destruct Hfree as [Hc Hfree].
    apply negb_true_iff in Hc.
    change (after_first fence_close (String c (body +:+ fence_close +:+ post)) = Some post).
    cbn [after_first]. rewrite (proj2 (no_fence_here c _ Hc)). apply IH, Hfree.
Qed.

Lemma split_first_close body post :
  backtick_free body = true ->
  split_first fence_close (body +:+ fence_close +:+ post) = Some (body, post).
Proof.
  induction body as [|c body IH]; intros Hfree.
  - change (split_first fence_close (fence_close +:+ post) = Some ("", post)).
    destruct post; reflexivity.
  - cbn [backtick_free] in Hfree. apply andb_true_iff in Hfree. destruct Hfree as [Hc Hfree].
    apply negb_true_iff in Hc.
    change (split_first fence_close (String c (body +:+ fence_close +:+ post))
            = Some (String c body, post)).
    cbn [split_first]. rewrite (proj2 (no_fence_here c _ Hc)), (IH Hfree). reflexivity.
Qed.

Lemma after_first_open pre rest :
  backtick_free pre = true ->
  after_first fence_open (pre +:+ fence_open +:+ rest) = Some rest.
Proof.
  induction pre as [|c pre IH]; intros Hfree.
  - change (after_first fence_open (fence_open +:+ rest) = Some rest).
    destruct rest; reflexivity.
  - cbn [backtick_free] in Hfree. apply andb_true_iff in Hfree. destruct Hfree as [Hc Hfree].
    apply negb_true_iff in Hc.
    change (after_first fence_open (String c (pre +:+ fence_open +:+ rest)) = Some rest).
    cbn [after_first]. rewrite (proj1 (no_fence_here c _ Hc)). apply IH, Hfree.
Qed.

Lemma after_first_open_none s :
  backtick_free s = true -> after_first fence_open s = None.
Proof.
  induction s as [|c s IH]; intros Hfree; [reflexivity|].
  cbn [backtick_free] in Hfree. apply andb_true_iff in Hfree. destruct Hfree as [Hc Hfree].
  apply negb_true_iff in Hc.
  cbn [after_first]. rewrite (proj1 (no_fence_here c _ Hc)). apply IH, Hfree.
Qed.

Lemma fenced_block_found body post :
  backtick_free body = true ->
  fenced_block (fence_open +:+ body +:+ fence_close +:+ post) = Some post.
Proof.
  intros Hfree. unfold fenced_block. rewrite strip_prefix_app.
  apply after_first_close, Hfree.
Qed.

(** The scan of [strip_fenced] copies a prefix without backticks. *)
Lemma strip_fenced_prefix pre rest n :
  backtick_free pre = true ->
  String.length (pre +:+ rest) < n ->
  strip_fenced_fuel n (pre +:+ rest) = pre +:+ strip_fenced rest.
Proof.
  revert n. induction pre as [|c pre IH]; intros n Hfree Hn.
  - apply strip_fenced_fuel_enough; [exact Hn | unfold lt; reflexivity].
  - cbn [backtick_free] in Hfree. apply andb_true_iff in Hfree. destruct Hfree as [Hc Hfree].
    apply negb_true_iff in Hc.
    change (String c pre +:+ rest) with (String c (pre +:+ rest)) in *.
    destruct n as [|n]; [lia|]. cbn [strip_fenced_fuel]. unfold fenced_block.
    rewrite (proj1 (no_fence_here c _ Hc)).
    change (String c pre +:+ strip_fenced rest) with (String c (pre +:+ strip_fenced rest)).
    f_equal. apply IH; [exact Hfree | simpl in Hn; lia].
Qed.

Lemma strip_fenced_block pre body post :
  backtick_free pre = true -> backtick_free body = true ->
  strip_fenced (pre +:+ fence_open +:+ body +:+ fence_close +:+ post)
  = pre +:+ strip_fenced post.
Proof.
  intros Hpre Hbody. unfold strip_fenced at 1.
  rewrite strip_fenced_prefix by (try assumption; lia). f_equal.
  unfold strip_fenced at 1. cbn [strip_fenced_fuel].
  rewrite (fenced_block_found _ _ Hbody).
  apply strip_fenced_fuel_enough; [|lia].
  pose proof (fenced_block_shorter _ _ (fenced_block_found body post Hbody)). lia.
Qed.

(** X23: a fenced JSON block adds nothing to the classification: an output
    with such a block behind prose without backticks is classified as the
    same output with the block cut out. *)
Theorem fenced_block_not_classified pre body post :
  backtick_free pre = true -> backtick_free body = true ->
  isClarificationMessage (pre +:+ fence_open +:+ body +:+ fence_close +:+ post)
  = isClarificationMessage (pre +:+ post).
Proof.
  intros Hpre Hbody. unfold isClarificationMessage.
  rewrite (strip_fenced_block _ _ _ Hpre Hbody).
  unfold strip_fenced at 2. rewrite strip_fenced_prefix by (try assumption; lia).
  reflexivity.
Qed.

Lemma fenced_block_not_classified_witness :
  isClarificationMessage
    ("Done:" +:+ fence_open +:+ "{ which one is unclear }" +:+ fence_close +:+ "")
  = false.
Proof.
  rewrite (fenced_block_not_classified "Done:" "{ which one is unclear }" "" eq_refl eq_refl).
  reflexivity.
Defined.

(** X24: the parser reads the first fenced block and nothing else: prose
    before it (without backticks) and anything behind its closing fence
    are dropped, and [JSON.parse] gets the trimmed inside; an output
    without backticks is parsed whole, trimmed. *)
Theorem parser_reads_fenced_block env pre body post :
  backtick_free pre = true -> backtick_free body = true ->
  parseClaudeCodeOutput env (pre +:+ fence_open +:+ body +:+ fence_close +:+ post)
  = Env.JSON_parse env (trim body)
  /\ parseClaudeCodeOutput env body = Env.JSON_parse env (trim body).
Proof.
  intros Hpre Hbody. unfold parseClaudeCodeOutput, jsonString, fenced_json. split.
  - rewrite (after_first_open _ _ Hpre), (split_first_close _ _ Hbody). reflexivity.
  - rewrite (after_first_open_none _ Hbody). reflexivity.
Qed.

Lemma parser_reads_fenced_block_witness :
  parseClaudeCodeOutput (ex_env "" ex_parsed)
    ("Here it is: " +:+ fence_open +:+ " {} " +:+ fence_close +:+ " Anything else?")
  = Env.JSON_parse (ex_env "" ex_parsed) "{}".
Proof.
  exact (proj1 (parser_reads_fenced_block (ex_env "" ex_parsed) "Here it is: " " {} "
                  " Anything else?" eq_refl eq_refl)).
Defined.

Lemma strip_prefix_ci_same phrase text post :
  same_letters phrase text = true ->
  strip_prefix_ci phrase (text +:+ post) = Some post.
Proof.
  revert text. induction phrase as [|a phrase IH]; intros [|b text] Hsame;
    try discriminate Hsame.
  - destruct post; reflexivity.
  - cbn [same_letters] in Hsame. apply andb_true_iff in Hsame. destruct Hsame as [Hc Hsame].
    change (String b text +:+ post) with (String b (text +:+ post)).
    cbn [strip_prefix_ci]. rewrite Hc. apply IH, Hsame.
Qed.

Lemma test_behind r pre s : matches_here r s = true -> test r (pre +:+ s) = true.
Proof.
  intros Hm. induction pre as [|c pre IH].
  - change (test r s = true). destruct s; cbn [test]; rewrite Hm; reflexivity.
  - change (test r (String c (pre +:+ s)) = true). cbn [test]. rewrite IH.
    apply orb_true_r.
Qed.

Lemma strip_fenced_plain s : backtick_free s = true -> strip_fenced s = s.
Proof.
  intros Hfree. rewrite <- (string_app_nil_r s) at 1. unfold strip_fenced.
  rewrite strip_fenced_prefix by (try assumption; lia).
  change (strip_fenced "") with "". apply string_app_nil_r.
Qed.

(** X25: the plain phrases of the pattern list ([I need to understand],
    [ambiguous], [unclear], [could mean], [would you like me to]) decide
    alone: an output without backticks that holds one of them anywhere, in
    any mix of upper and lower case, is a clarification, so both
    orchestrators return its text as a message and drop whatever workflow
    it spells, raw JSON included. *)
Theorem plain_phrase_is_clarification env useSkills availableSkills phrase pre text post :
  In (Lit phrase) clarificationPatterns ->
  same_letters phrase text = true ->
  backtick_free (pre +:+ text +:+ post) = true ->
  loadContext env useSkills = Returned (inr availableSkills) ->
  cliOutput (Env.executeClaudeCodeCLI env) = Some (pre +:+ text +:+ post) ->
  let output := pre +:+ text +:+ post in
  let cliTime := ClaudeCodeExecutionResult.executionTimeMs (Env.executeClaudeCodeCLI env) in
  isClarificationMessage output = true
  /\ refineWorkflow env useSkills
     = RefinementResult.mk true None (Some (extractClarificationMessage output)) None cliTime
  /\ refineSubAgentFlow env useSkills
     = SubAgentFlowRefinementResult.mk true None
         (Some (extractClarificationMessage output)) None cliTime.
Proof.
  intros Hpattern Hsame Hfree Hctx Hcli output cliTime.
  assert (Hclar : isClarificationMessage output = true).
  { unfold isClarificationMessage. subst output. rewrite (strip_fenced_plain _ Hfree).
    apply existsb_exists. exists (Lit phrase). split; [exact Hpattern|].
    apply test_behind. unfold matches_here. cbn [residues].
    rewrite (strip_prefix_ci_same _ _ _ Hsame). reflexivity. }
  split; [exact Hclar|].
  unfold refineWorkflow, refineSubAgentFlow. fold output in Hcli.
  rewrite Hctx, Hcli, Hclar. split; reflexivity.
Qed.

Lemma plain_phrase_is_clarification_witness :
  refineWorkflow (ex_env ex_raw_json ex_parsed) true
  = RefinementResult.mk true None (Some ex_raw_json) None 1234.
Proof.
  exact (proj1 (proj2 (plain_phrase_is_clarification (ex_env ex_raw_json ex_parsed) true
                         ex_catalogue "unclear"
                         "{ id: wf-1, nodes: [ { description: Retry when the status is "
                         "UNCLEAR" " } ], connections: [] }"
                         (or_intror (or_intror (or_intror (or_introl eq_refl))))
                         eq_refl eq_refl eq_refl eq_refl))).
Defined.

(** ** Claude CLI path detection *)

Lemma getClaudeCliPath_caches machine knownPaths cachedClaudePath :
  Lookup.cache (getClaudeCliPath machine knownPaths cachedClaudePath)
  = Some (Lookup.path (getClaudeCliPath machine knownPaths cachedClaudePath)).
Proof.
  unfold getClaudeCliPath, lookupInPATH. destruct cachedClaudePath as [cached|]; [reflexivity|].
  destruct (given _) as [knownPath|];
    [destruct (Machine.runs machine knownPath); [reflexivity|]|];
    destruct (Machine.runs machine "claude"); reflexivity.
Qed.

(** X26: the detection runs once: after any call, every later call answers
    the same path without running anything, whatever the machine looks
    like by then (a claude installed or removed in between goes
    unnoticed); a lookup that found nothing is cached as well. Once the
    cache is cleared the next call checks again. *)
Theorem detection_is_cached machine knownPaths cachedClaudePath machine' knownPaths' :
  let first := getClaudeCliPath machine knownPaths cachedClaudePath in
  let second := getClaudeCliPath machine' knownPaths' (Lookup.cache first) in
  Lookup.path second = Lookup.path first
  /\ Lookup.probed second = []
  /\ Lookup.cache second = Lookup.cache first
  /\ Lookup.probed (getClaudeCliPath machine' knownPaths' clearClaudeCliPathCache) <> [].
Proof.
  intros first second.
  pose proof (getClaudeCliPath_caches machine knownPaths cachedClaudePath) as Hcache.
  fold first in Hcache. subst second. rewrite Hcache.
  split; [reflexivity|]. split; [reflexivity|]. split; [reflexivity|].
  unfold getClaudeCliPath, clearClaudeCliPathCache, lookupInPATH.
  destruct (given _) as [knownPath|];
    [destruct (Machine.runs machine' knownPath); [discriminate|]|];
    destruct (Machine.runs machine' "claude"); discriminate.
Qed.

(** X27: a fresh detection is sound: the path it returns passed the version
    check, and is the first known path that exists or else [claude] from
    PATH; when it returns none, [claude] from PATH failed the check. So the
    command to spawn is a checked claude with the arguments as given, or
    [npx] with [claude] put before the arguments. *)
Theorem detection_is_sound machine knownPaths args :
  let lookup := getClaudeCliPath machine knownPaths None in
  let command := getClaudeSpawnCommand machine knownPaths None args in
  (forall p, Lookup.path lookup = Some p ->
     Machine.runs machine p = true
     /\ (findClaudeCliInKnownPaths machine knownPaths = Some p
         /\ In p knownPaths /\ Machine.existsSync machine p = true
         \/ p = "claude"))
  /\ (Lookup.path lookup = None -> Machine.runs machine "claude" = false)
  /\ (exists p, Lookup.path lookup = Some p /\ command.1 = (p, args)
      \/ Lookup.path lookup = None /\ command.1 = ("npx", "claude" :: args)).
Proof.
  intros lookup command. subst lookup command.
  unfold getClaudeSpawnCommand, getClaudeCliPath, lookupInPATH.
  destruct (findClaudeCliInKnownPaths machine knownPaths) as [known|] eqn:Hfind.
  - apply find_some in Hfind. destruct Hfind as [Hin Hexists]. unfold given.
    destruct (String.eqb_spec known "") as [->|Hne].
    + destruct (Machine.runs machine "claude") eqn:Hpath; cbn.
      * split; [intros p [= <-]; auto|]. split; [discriminate|].
        exists "claude". left. auto.
      * split; [discriminate|]. split; [reflexivity|]. exists "". right. auto.
    + destruct (Machine.runs machine known) eqn:Hruns; cbn.
      * rewrite (proj2 (String.eqb_neq known "") Hne).
        split; [intros p [= <-]; auto|]. split; [discriminate|].
        exists known. left. auto.
      * destruct (Machine.runs machine "claude") eqn:Hpath; cbn.
        -- split; [intros p [= <-]; auto|]. split; [discriminate|].
           exists "claude". left. auto.
        -- split; [discriminate|]. split; [reflexivity|]. exists "". right. auto.
  - unfold given. destruct (Machine.runs machine "claude") eqn:Hpath; cbn.
    + split; [intros p [= <-]; auto|]. split; [discriminate|].
      exists "claude". left. auto.
    + split; [discriminate|]. split; [reflexivity|]. exists "". right. auto.
Qed.

(** ** Prompt builders *)

Lemma slice_last_app {A : Type} (n : nat) (older recent : list A) :
  (n <= length recent)%nat -> slice_last n (older ++ recent)%list = slice_last n recent.
Proof.
  intros Hn. unfold slice_last. rewrite length_app.
  replace (length older + length recent - n)%nat
    with (length older + (length recent - n))%nat by lia.
  rewrite skipn_app, skipn_all2 by lia.
  replace (length older + (length recent - n) - length older)%nat
    with (length recent - n)%nat by lia.
  reflexivity.
Qed.

Lemma conversationContext_window older recent it it' :
  (6 <= length recent)%nat ->
  conversationContext (ConversationHistory.mk (older ++ recent)%list it)
  = conversationContext (ConversationHistory.mk recent it').
Proof.
  intros Hn. unfold conversationContext. cbn [ConversationHistory.messages].
  rewrite (slice_last_app 6 older recent Hn). reflexivity.
Qed.

(** X28: both prompt builders read the last six messages of the
    conversation only: whatever came before six or more recent messages,
    and whatever the iteration counter says, the prompt is the same text. *)
Theorem prompt_history_window workflow older recent it it' userMessage schema filteredSkills :
  (6 <= length recent)%nat ->
  constructRefinementPrompt workflow (ConversationHistory.mk (older ++ recent)%list it)
    userMessage schema filteredSkills
  = constructRefinementPrompt workflow (ConversationHistory.mk recent it')
      userMessage schema filteredSkills
  /\ constructSubAgentFlowRefinementPrompt workflow
       (ConversationHistory.mk (older ++ recent)%list it) userMessage schema filteredSkills
     = constructSubAgentFlowRefinementPrompt workflow (ConversationHistory.mk recent it')
         userMessage schema filteredSkills.
Proof.
  intros Hn. unfold constructRefinementPrompt, constructSubAgentFlowRefinementPrompt.
  rewrite (conversationContext_window older recent it it' Hn). split; reflexivity.
Qed.

Lemma prompt_history_window_witness :
  constructRefinementPrompt (JObj []) (ConversationHistory.mk (ex_older ++ ex_recent)%list 4)
    "Undo that" (JObj []) ex_catalogue
  = constructRefinementPrompt (JObj []) (ConversationHistory.mk ex_recent 3)
      "Undo that" (JObj []) ex_catalogue.
Proof.
  exact (proj1 (prompt_history_window (JObj []) ex_older ex_recent 4 3 "Undo that" (JObj [])
                  ex_catalogue (le_n 6))).
Defined.
